(** * Matrix media download client (extensions/matrix/src/matrix/client/download.ts)

    A shallow embedding of the HTTP/2 download path of the Matrix plugin:
    [parseMXCUrl], [getMediaEndpointPrefix], [getSharedAgent],
    [releaseDownloadAgent], [sleep] and [downloadContent_v2].

    Conventions of the embedding.
    - A JavaScript string is a [string] of 8-bit characters; [toLowerCase]
      acts on the ASCII letters (no other code unit lower-cases to one of the
      characters of the scheme prefix).  On such strings
      [encodeURIComponent] does not throw: its [URIError] needs a lone
      surrogate.
    - A value of type [string | null | undefined] is an [option string].
    - A thrown [Error] is its [message].
    - [maxRetries] is a JavaScript number, a [JsNumber]: a finite number
      by its exact value, or [NaN].  An integer is read as the number it is.
      [timeoutMs], status codes and the reference count are integers ([Z]).
    - The two module-level variables form the [ModuleState]; effects on the
      outside world (log lines, fetches, sleeps, pool construction and
      closing, pooled requests) are recorded, in program order, in the list
      of [Event]s every computation returns.
    - What the platform and the network answer ([URL], [encodeURIComponent],
      [fetch], [Pool.request], the decoding of a body as text) is a
      parameter, the [Platform]. *)

From Stdlib Require Import String Ascii List ZArith QArith Qround Lia Bool DecimalString.
Import ListNotations.

Close Scope Q_scope.
Open Scope string_scope.
Open Scope Z_scope.

(** ** JavaScript string and array primitives used by the module *)

Module Js.

Definition lower_ascii (c : ascii) : ascii :=
  let n := N_of_ascii c in
  if ((65 <=? n) && (n <=? 90))%N then ascii_of_N (n + 32) else c.

Fixpoint toLowerCase (s : string) : string :=
  match s with
  | EmptyString => EmptyString
  | String c s' => String (lower_ascii c) (toLowerCase s')
  end.

Fixpoint startsWith (p s : string) : bool :=
  match p, s with
  | EmptyString, _ => true
  | String _ _, EmptyString => false
  | String a p', String b s' => Ascii.eqb a b && startsWith p' s'
  end.

(** [s.slice(n)] for [0 <= n]. *)
Fixpoint slice (n : nat) (s : string) : string :=
  match n, s with
  | O, _ => s
  | S _, EmptyString => EmptyString
  | S n', String _ s' => slice n' s'
  end.

(** [s.split(sep)] for a one-character separator: never the empty array. *)
Fixpoint split (sep : ascii) (s : string) : list string :=
  match s with
  | EmptyString => [EmptyString]
  | String c s' =>
      if Ascii.eqb c sep then EmptyString :: split sep s'
      else match split sep s' with
           | [] => [String c EmptyString]
           | piece :: pieces => String c piece :: pieces
           end
  end.

(** [parts.join(sep)]. *)
Fixpoint join (sep : string) (parts : list string) : string :=
  match parts with
  | [] => EmptyString
  | [p] => p
  | p :: rest => p ++ sep ++ join sep rest
  end.

(** [s.includes(sub)]. *)
Fixpoint includes (sub s : string) : bool :=
  startsWith sub s ||
  match s with
  | EmptyString => false
  | String _ s' => includes sub s'
  end.

(** No character of [p] is changed by [toLowerCase]. *)
Fixpoint all_lower (p : string) : bool :=
  match p with
  | EmptyString => true
  | String a p' => Ascii.eqb (lower_ascii a) a && all_lower p'
  end.

(** Truthiness of a string: only the empty string is falsy. *)
Definition truthy (s : string) : bool := negb (String.eqb s EmptyString).

(** Template-literal rendering of an integer. *)
Definition string_of_Z (z : Z) : string := NilZero.string_of_int (Z.to_int z).

End Js.

(** ** JavaScript numbers

    A finite number is the rational it denotes; [NaN] compares false with
    everything.  The comparisons the retry loop makes are between the loop
    counter, an integer that starts at 0 and is incremented, and
    [maxRetries] or [maxRetries - 1]; for the counts a call can reach, all
    far below 2^53, the exact value decides as the floating-point value
    does.  The infinities are left out: with [-Infinity] no attempt is
    made, as with any negative number, and with [+Infinity] the loop has no
    bound. *)

Inductive JsNumber : Type :=
| Num (q : Q)
| NaN.

Definition of_Z (z : Z) : JsNumber := Num (inject_Z z).
Coercion of_Z : Z >-> JsNumber.

(** The integer a number is, if it is one. *)
Definition whole (n : JsNumber) : option Z :=
  match n with
  | Num q => if Qeq_bool q (inject_Z (Qfloor q)) then Some (Qfloor q) else None
  | NaN => None
  end.

(** [attempt < n], for an integer [attempt]. *)
Definition below (attempt : Z) (n : JsNumber) : bool :=
  match n with
  | Num q => negb (Qle_bool q (inject_Z attempt))
  | NaN => false
  end.

(** How many of [attempt = 0, 1, 2, ...] satisfy [attempt < n] before the
    first that does not: the least integer at or above [n], or none when
    [n] is not positive or is [NaN]. *)
Definition iterations (n : JsNumber) : nat :=
  match n with
  | Num q => Z.to_nat (Qceiling q)
  | NaN => 0%nat
  end.

(** [attempt === n - 1], for an integer [attempt]: it holds only when [n]
    is an integer, and [Some n] is that integer. *)
Definition last_attempt (attempt : Z) (n : JsNumber) : option Z :=
  match whole n with
  | Some count => if attempt =? count - 1 then Some count else None
  | None => None
  end.

(** ** Data types of the module *)

(** A thrown [Error]. *)
Record Error : Type := mkError { message : string }.

Record MXCComponents : Type := mkMXC { domain : string; mediaId : string }.

Record DownloadResult : Type :=
  mkDownloadResult { data : list Byte.byte; contentType : string }.

(** ** parseMXCUrl *)

Definition parseMXCUrl (mxcUrl : option string) : Error + MXCComponents :=
  match mxcUrl with
  | None => inl (mkError "Not a valid MXC URI")
  | Some s =>
      if negb (Js.startsWith "mxc://" (Js.toLowerCase s)) then
        inl (mkError "Not a valid MXC URI")
      else
        match Js.split "/" (Js.slice (String.length "mxc://") s) with
        | [] => inl (mkError "Missing domain component in MXC URI")
        | domain :: mediaIdParts =>
            if negb (Js.truthy domain) then
              inl (mkError "Missing domain component in MXC URI")
            else
              let mediaId := Js.join "/" mediaIdParts in
              if negb (Js.truthy mediaId) then
                inl (mkError "Missing mediaId component in MXC URI")
              else inr (mkMXC domain mediaId)
        end
  end.

(** *** Reference definition of the identifier parser, after the specification *)

Module IdentifierSpec.

Inductive ParseFailure : Type :=
| InvalidIdentifier
| MissingAuthority
| MissingResourceId.

Record ContentIdentifier : Type :=
  mkContentIdentifier { authority : string; resourceId : string }.

(** Two characters are equal up to the case of ASCII letters. *)
Definition same_letter (a b : ascii) : bool :=
  Ascii.eqb (Js.lower_ascii a) (Js.lower_ascii b).

(** [s] begins with [p], case-insensitively. *)
Fixpoint has_prefix_ci (p s : string) : bool :=
  match p, s with
  | EmptyString, _ => true
  | String _ _, EmptyString => false
  | String a p', String b s' => same_letter a b && has_prefix_ci p' s'
  end.

Fixpoint remove_prefix (p s : string) : string :=
  match p, s with
  | String _ p', String _ s' => remove_prefix p' s'
  | _, _ => s
  end.

(** Splits at the first separator: what precedes it and, verbatim, what
    follows it (empty when there is no separator). *)
Fixpoint split_first (sep : ascii) (s : string) : string * string :=
  match s with
  | EmptyString => (EmptyString, EmptyString)
  | String c s' =>
      if Ascii.eqb c sep then (EmptyString, s')
      else let (a, r) := split_first sep s' in (String c a, r)
  end.

Definition scheme_prefix : string := "mxc://".

Definition parse (input : option string) : ParseFailure + ContentIdentifier :=
  match input with
  | None => inl InvalidIdentifier
  | Some s =>
      if has_prefix_ci scheme_prefix s then
        let (auth, rest) := split_first "/" (remove_prefix scheme_prefix s) in
        if String.eqb auth "" then inl MissingAuthority
        else if String.eqb rest "" then inl MissingResourceId
        else inr (mkContentIdentifier auth rest)
      else inl InvalidIdentifier
  end.

(** The failure class an error of [parseMXCUrl] belongs to, by its message. *)
Definition failure_class (e : Error) : option ParseFailure :=
  if String.eqb (message e) "Not a valid MXC URI" then Some InvalidIdentifier
  else if String.eqb (message e) "Missing domain component in MXC URI"
       then Some MissingAuthority
  else if String.eqb (message e) "Missing mediaId component in MXC URI"
       then Some MissingResourceId
  else None.

(** The outcome of [parseMXCUrl] in the vocabulary of the specification. *)
Definition abstraction (r : Error + MXCComponents)
  : option (ParseFailure + ContentIdentifier) :=
  match r with
  | inl e => option_map inl (failure_class e)
  | inr c => Some (inr (mkContentIdentifier (domain c) (mediaId c)))
  end.

End IdentifierSpec.

(** ** Regular expressions, matched by derivatives *)

Module Regex.

Inductive regex : Type :=
| Fail
| Eps
| Chr (c : ascii)
| Range (lo hi : ascii)
| Seq (r1 r2 : regex)
| Alt (r1 r2 : regex).

Fixpoint nullable (r : regex) : bool :=
  match r with
  | Fail | Chr _ | Range _ _ => false
  | Eps => true
  | Seq r1 r2 => nullable r1 && nullable r2
  | Alt r1 r2 => nullable r1 || nullable r2
  end.

Definition in_range (lo hi c : ascii) : bool :=
  ((N_of_ascii lo <=? N_of_ascii c) && (N_of_ascii c <=? N_of_ascii hi))%N.

Fixpoint deriv (c : ascii) (r : regex) : regex :=
  match r with
  | Fail | Eps => Fail
  | Chr a => if Ascii.eqb a c then Eps else Fail
  | Range lo hi => if in_range lo hi c then Eps else Fail
  | Seq r1 r2 =>
      if nullable r1 then Alt (Seq (deriv c r1) r2) (deriv c r2)
      else Seq (deriv c r1) r2
  | Alt r1 r2 => Alt (deriv c r1) (deriv c r2)
  end.

(** [^r$] against the whole string. *)
Fixpoint full_match (r : regex) (s : string) : bool :=
  match s with
  | EmptyString => nullable r
  | String c s' => full_match (deriv c r) s'
  end.

End Regex.

(** The pattern [/^v1\.(1[1-9]|[2-9][0-9])$/]. *)
Definition v1_11_pattern : Regex.regex :=
  Regex.Seq (Regex.Chr "v") (Regex.Seq (Regex.Chr "1") (Regex.Seq (Regex.Chr ".")
    (Regex.Alt (Regex.Seq (Regex.Chr "1") (Regex.Range "1" "9"))
               (Regex.Seq (Regex.Range "2" "9") (Regex.Range "0" "9"))))).

(** ** JSON values, as [response.json()] resolves them *)

#[warnings="-register-all"]
Inductive Json : Type :=
| JNull
| JBool (b : bool)
| JNumber (n : Z)
| JString (s : string)
| JArray (items : list Json)
| JObject (members : list (string * Json)).

Module JsValue.

Fixpoint assoc {A : Type} (key : string) (l : list (string * A)) : option A :=
  match l with
  | [] => None
  | (k, v) :: rest => if String.eqb k key then Some v else assoc key rest
  end.

(** [v?.key]: [None] is [undefined]. *)
Definition member (key : string) (v : Json) : option Json :=
  match v with
  | JObject members => assoc key members
  | _ => None
  end.

Definition truthy (v : Json) : bool :=
  match v with
  | JNull => false
  | JBool b => b
  | JNumber n => negb (n =? 0)
  | JString s => Js.truthy s
  | JArray _ | JObject _ => true
  end.

(** [v || []]. *)
Definition or_empty_array (v : option Json) : Json :=
  match v with
  | Some j => if truthy j then j else JArray []
  | None => JArray []
  end.

(** [items.some(f)], where the callback may throw. *)
Fixpoint array_some (f : Json -> Error + bool) (items : list Json) : Error + bool :=
  match items with
  | [] => inr false
  | v :: rest =>
      match f v with
      | inl e => inl e
      | inr true => inr true
      | inr false => array_some f rest
      end
  end.

(** [v.some(f)]: a TypeError unless [v] is an array. *)
Definition some (v : Json) (f : Json -> Error + bool) : Error + bool :=
  match v with
  | JArray items => array_some f items
  | _ => inl (mkError "supportedVersions.some is not a function")
  end.

(** [v.match(re)] as a condition: a TypeError unless [v] is a string. *)
Definition matches (re : Regex.regex) (v : Json) : Error + bool :=
  match v with
  | JString s => inr (Regex.full_match re s)
  | JNull => inl (mkError "Cannot read properties of null (reading 'match')")
  | _ => inl (mkError "v.match is not a function")
  end.

End JsValue.

(** ** The platform: URL handling and the network *)

Record URL : Type := mkURL { origin : string; pathname : string; search : string }.

Definition URL_toString (u : URL) : string := origin u ++ pathname u ++ search u.

Definition Headers : Type := list (string * string).

(** The options [getSharedAgent] passes to [new Pool]. *)
Record PoolOptions : Type := mkPoolOptions {
  rejectUnauthorized : bool;
  connections : Z;
  keepAliveTimeout : Z;
  keepAliveMaxTimeout : Z;
  allowH2 : bool
}.

(** A pool object: [pool_id] is its identity. *)
Record Pool : Type := mkPool {
  pool_id : nat;
  pool_origin : string;
  pool_options : PoolOptions
}.

Record RequestOptions : Type := mkRequestOptions {
  method : string;
  path : string;
  headers : Headers
}.

(** A response body: the chunks the stream yields and, if it breaks after
    them, the error it raises. *)
Record BodyStream : Type := mkBody {
  chunks : list (list Byte.byte);
  failure : option Error
}.

Record Response : Type := mkResponse {
  statusCode : Z;
  response_headers : Headers;
  body : BodyStream
}.

Inductive RequestOutcome : Type :=
| RequestRejected (e : Error)
| RequestResolved (r : Response).

Inductive JsonOutcome : Type :=
| JsonRejected (e : Error)
| JsonResolved (j : Json).

Record FetchResponse : Type := mkFetchResponse {
  fetch_status : Z;
  fetch_json : JsonOutcome
}.

Inductive FetchOutcome : Type :=
| FetchRejected (e : Error)
| FetchResolved (r : FetchResponse).

(** [response.ok]. *)
Definition ok (r : FetchResponse) : bool :=
  (200 <=? fetch_status r) && (fetch_status r <=? 299).

Class Platform : Type := mkPlatform {
  (** [new URL(input, base)]; [None] when it throws its TypeError. *)
  URL_new : string -> option string -> option URL;
  (** [url.searchParams.set(name, value)]. *)
  URL_searchParams_set : URL -> string -> string -> URL;
  encodeURIComponent : string -> string;
  (** The text [body.text()] decodes the bytes of a body to. *)
  decode_text : list Byte.byte -> string;
  (** What [fetch(url, {headers})] settles to. *)
  fetch : string -> Headers -> FetchOutcome;
  (** What [agent.request(options)] settles to for the request issued by
      the given attempt of the retry loop. *)
  pool_request : Pool -> Z -> RequestOptions -> RequestOutcome
}.

(** ** Module state, events and the monad of the module's functions *)

Inductive LogLevel : Type := Debug | Warn | Err.

Inductive Event : Type :=
| EvLog (level : LogLevel) (text : string)
| EvFetch (url : string) (hs : Headers)
| EvSleep (ms : Z)
| EvPoolCreate (p : Pool)
| EvPoolClose (p : Pool)
| EvRequest (p : Pool) (attempt : Z) (opts : RequestOptions).

(** [sharedAgent] and [agentRefCount]; [poolsCreated] numbers the pool
    objects constructed so far and gives the next one its identity. *)
Record ModuleState : Type := mkState {
  sharedAgent : option Pool;
  agentRefCount : Z;
  poolsCreated : nat
}.

Definition initial_state : ModuleState := mkState None 0 0.

(** The relation between the two module variables that every call of
    [getSharedAgent] and [releaseDownloadAgent] maintains: with a pool the
    count is at least 1, without one it is at most 0. *)
Definition coherent (st : ModuleState) : Prop :=
  match sharedAgent st with
  | Some _ => 1 <= agentRefCount st
  | None => agentRefCount st <= 0
  end.

Record Run (A : Type) : Type := mkRun {
  outcome : Error + A;
  final : ModuleState;
  events : list Event
}.
Arguments mkRun {A}.
Arguments outcome {A}.
Arguments final {A}.
Arguments events {A}.

Definition M (A : Type) : Type := ModuleState -> Run A.

Definition ret {A} (a : A) : M A := fun st => mkRun (inr a) st [].

Definition throw {A} (e : Error) : M A := fun st => mkRun (inl e) st [].

Definition bind {A B} (m : M A) (k : A -> M B) : M B :=
  fun st =>
    let r := m st in
    match outcome r with
    | inl e => mkRun (inl e) (final r) (events r)
    | inr a =>
        let r' := k a (final r) in
        mkRun (outcome r') (final r') (events r ++ events r')
    end.

(** [try { m } catch (err) { handler err }]. *)
Definition try_catch {A} (m : M A) (handler : Error -> M A) : M A :=
  fun st =>
    let r := m st in
    match outcome r with
    | inl e =>
        let r' := handler e (final r) in
        mkRun (outcome r') (final r') (events r ++ events r')
    | inr a => r
    end.

Definition lift {A} (r : Error + A) : M A :=
  match r with
  | inl e => throw e
  | inr a => ret a
  end.

Definition get : M ModuleState := fun st => mkRun (inr st) st [].
Definition put (st' : ModuleState) : M unit := fun _ => mkRun (inr tt) st' [].
Definition emit (e : Event) : M unit := fun st => mkRun (inr tt) st [e].
Definition log (level : LogLevel) (text : string) : M unit := emit (EvLog level text).

Declare Scope js_scope.
Delimit Scope js_scope with js.
Notation "x <- m ;; k" := (bind m (fun x => k))
  (at level 61, m at next level, right associativity) : js_scope.
Notation "m ;; k" := (bind m (fun _ => k))
  (at level 61, right associativity) : js_scope.
Open Scope js_scope.

(** ** The functions of download.ts *)

Section Download.

Context {platform : Platform}.

(** [new URL(input, base)], throwing when the platform rejects it. *)
Definition new_URL (input : string) (base : option string) : M URL :=
  match URL_new input base with
  | Some u => ret u
  | None => throw (mkError "Invalid URL")
  end.

(** [await fetch(url, {headers})]. *)
Definition await_fetch (url : string) (hs : Headers) : M FetchResponse :=
  emit (EvFetch url hs) ;;
  match fetch url hs with
  | FetchRejected e => throw e
  | FetchResolved r => ret r
  end.

(** [await response.json()]. *)
Definition await_json (r : FetchResponse) : M Json :=
  match fetch_json r with
  | JsonRejected e => throw e
  | JsonResolved j => ret j
  end.

Definition modern_prefix : string := "/_matrix/client/v1/media".
Definition legacy_prefix : string := "/_matrix/media/v3".

(** The [try] block of [getMediaEndpointPrefix]: [Some p] when it returns
    [p], [None] when control falls through to the end of the block. *)
Definition probe_versions (homeserverUrl accessToken : string) : M (option string) :=
  versionUrl <- new_URL "/_matrix/client/versions" (Some homeserverUrl) ;;
  response <- await_fetch (URL_toString versionUrl)
                (if Js.truthy accessToken
                 then [("Authorization", "Bearer " ++ accessToken)]
                 else []) ;;
  if ok response then
    versions <- await_json response ;;
    let supportedVersions :=
      JsValue.or_empty_array (JsValue.member "versions" versions) in
    found <- lift (JsValue.some supportedVersions (JsValue.matches v1_11_pattern)) ;;
    if found then ret (Some modern_prefix) else ret None
  else ret None.

Definition getMediaEndpointPrefix (homeserverUrl accessToken : string) : M string :=
  returned <- try_catch (probe_versions homeserverUrl accessToken)
                (fun err =>
                   log Debug "Failed to detect server version, using legacy media endpoint:" ;;
                   ret None) ;;
  match returned with
  | Some prefix => ret prefix
  | None => ret legacy_prefix
  end.

Definition pool_settings : PoolOptions :=
  {| rejectUnauthorized := true;
     connections := 64;
     keepAliveTimeout := 30000;
     keepAliveMaxTimeout := 60000;
     allowH2 := true |}.

Definition getSharedAgent (homeserverUrl : string) : M Pool :=
  st <- get ;;
  match sharedAgent st with
  | Some agent =>
      put (mkState (sharedAgent st) (agentRefCount st + 1) (poolsCreated st)) ;;
      ret agent
  | None =>
      url <- new_URL homeserverUrl None ;;
      let agent := mkPool (poolsCreated st) (origin url) pool_settings in
      emit (EvPoolCreate agent) ;;
      put (mkState (Some agent) 1 (S (poolsCreated st))) ;;
      log Debug "Created HTTP/2 capable connection pool for" ;;
      ret agent
  end.

(** The promise of [close()] is not awaited: a failure to close is logged
    later, outside the call, and never reaches the caller. *)
Definition releaseDownloadAgent : M unit :=
  st <- get ;;
  put (mkState (sharedAgent st) (agentRefCount st - 1) (poolsCreated st)) ;;
  st <- get ;;
  match sharedAgent st with
  | Some agent =>
      if agentRefCount st <=? 0 then
        emit (EvPoolClose agent) ;;
        put (mkState None 0 (poolsCreated st)) ;;
        log Debug "Closed HTTP/2 connection pool"
      else ret tt
  | None => ret tt
  end.

Definition sleep (ms : Z) : M unit := emit (EvSleep ms).

(** [await response.body.text()]: the bytes the stream yields, decoded as
    the platform decodes them (as UTF-8, a leading byte order mark dropped
    and invalid sequences replaced). *)
Definition body_text (b : BodyStream) : Error + string :=
  match failure b with
  | Some e => inl e
  | None => inr (decode_text (concat (chunks b)))
  end.

(** [for await (const chunk of response.body) chunks.push(...)] followed by
    [Buffer.concat(chunks)]. *)
Definition body_drain (b : BodyStream) : Error + list Byte.byte :=
  match failure b with
  | Some e => inl e
  | None => inr (concat (chunks b))
  end.

(** [(headers[name] as string) || fallback]. *)
Definition header_or (hs : Headers) (name fallback : string) : string :=
  match JsValue.assoc name hs with
  | Some v => if Js.truthy v then v else fallback
  | None => fallback
  end.

(** What the [try] block of one attempt does with a response. *)
Definition read_response (response : Response) : Error + DownloadResult :=
  if (statusCode response <? 200) || (300 <=? statusCode response) then
    match body_text (body response) with
    | inl e => inl e
    | inr text =>
        inl (mkError ("HTTP " ++ Js.string_of_Z (statusCode response) ++ ": "
                        ++ (if Js.truthy text then text else "Unknown error")))
    end
  else
    let contentType :=
      header_or (response_headers response) "content-type" "application/octet-stream" in
    match body_drain (body response) with
    | inl e => inl e
    | inr data => inr (mkDownloadResult data contentType)
    end.

Definition request_options (url : URL) (accessToken : string) : RequestOptions :=
  {| method := "GET";
     path := pathname url ++ search url;
     headers := [("Authorization", "Bearer " ++ accessToken);
                 ("Accept", "*/*");
                 ("Accept-Encoding", "gzip, deflate, br")] |}.

(** [await agent.request(requestOptions)]. *)
Definition await_request (agent : Pool) (attempt : Z) (opts : RequestOptions) : M Response :=
  emit (EvRequest agent attempt opts) ;;
  match pool_request agent attempt opts with
  | RequestRejected e => throw e
  | RequestResolved r => ret r
  end.

(** The [try] block of one iteration of the retry loop. *)
Definition attempt_once (agent : Pool) (url : URL) (accessToken : string)
    (attempt : Z) : M DownloadResult :=
  let requestOptions := request_options url accessToken in
  log Debug "Attempt" ;;
  response <- await_request agent attempt requestOptions ;;
  result <- lift (read_response response) ;;
  log Debug "Download complete" ;;
  ret result.

Definition backoff_delay (attempt : Z) : Z :=
  Z.min (1000 * 2 ^ (attempt - 1)) 8000.

(** The [for] loop of [downloadContent_v2] together with the [throw] that
    follows it.  [remaining] counts the iterations left: the loop is entered
    at attempt 0 with [remaining = iterations maxRetries], so [remaining] is
    zero exactly when the loop condition [attempt < maxRetries] fails.  The
    test [attempt === maxRetries - 1] can hold only for a [maxRetries] that
    is an integer, which the template literal then prints in decimal. *)
Fixpoint retry_loop (agent : Pool) (url : URL) (accessToken : string)
    (maxRetries : JsNumber) (remaining : nat) (attempt : Z) (lastError : option Error)
    {struct remaining} : M DownloadResult :=
  match remaining with
  | O =>
      throw (match lastError with
             | Some e => e
             | None => mkError "Download failed for unknown reason"
             end)
  | S remaining' =>
      (if 0 <? attempt then
         log Debug "Retry" ;;
         sleep (backoff_delay attempt)
       else ret tt) ;;
      try_catch (attempt_once agent url accessToken attempt)
        (fun lastError =>
           log Warn "Attempt failed:" ;;
           if Js.includes "Not a valid MXC URI" (message lastError) then
             throw lastError
           else
             match last_attempt attempt maxRetries with
             | Some count =>
                 throw (mkError ("Failed to download after " ++ Js.string_of_Z count
                                   ++ " attempts: " ++ message lastError))
             | None =>
                 retry_loop agent url accessToken maxRetries remaining'
                   (attempt + 1) (Some lastError)
             end)
  end.

(** The template literal that builds [downloadPath]. *)
Definition download_path (endpoint : string) (mxcComponents : MXCComponents) : string :=
  endpoint ++ "/download/" ++ encodeURIComponent (domain mxcComponents)
           ++ "/" ++ encodeURIComponent (mediaId mxcComponents).

(** [if (allowRemote !== true) url.searchParams.set("allow_remote", "false")]. *)
Definition with_query (url : URL) (allowRemote : bool) : URL :=
  if negb allowRemote then URL_searchParams_set url "allow_remote" "false" else url.

Definition downloadContent_v2 (mxcUrl : option string)
    (homeserverUrl accessToken : string) (allowRemote : bool)
    (timeoutMs : Z) (maxRetries : JsNumber) : M DownloadResult :=
  log Debug "Starting download" ;;
  mxcComponents <- try_catch (lift (parseMXCUrl mxcUrl))
                     (fun err => log Err "Invalid MXC URL:" ;; throw err) ;;
  endpoint <- getMediaEndpointPrefix homeserverUrl accessToken ;;
  let downloadPath := download_path endpoint mxcComponents in
  url <- new_URL downloadPath (Some homeserverUrl) ;;
  let url := with_query url allowRemote in
  agent <- getSharedAgent homeserverUrl ;;
  retry_loop agent url accessToken maxRetries (iterations maxRetries) 0 None.

(** *** Observations on runs *)

(** The settled result of the [try] block of attempt number [attempt]. *)
Definition attempt_result (agent : Pool) (url : URL) (accessToken : string)
    (attempt : Z) : Error + DownloadResult :=
  match pool_request agent attempt (request_options url accessToken) with
  | RequestRejected e => inl e
  | RequestResolved r => read_response r
  end.

(** A failed attempt as the specification classifies it: the request is
    rejected (a transport error), the body breaks while it is read, or the
    response has a status outside 200-299 (an HTTP error, whose message
    carries the status and the text of the body). *)
Definition failed_attempt (answer : RequestOutcome) (e : Error) : Prop :=
  answer = RequestRejected e \/
  exists response,
    answer = RequestResolved response /\
    (failure (body response) = Some e \/
     ((statusCode response < 200 \/ 300 <= statusCode response) /\
      exists text,
        body_text (body response) = inr text /\
        e = mkError ("HTTP " ++ Js.string_of_Z (statusCode response) ++ ": "
                       ++ (if Js.truthy text then text else "Unknown error")))).

(** The events of an iteration up to and including its request. *)
Definition retry_events (attempt : Z) : list Event :=
  if 0 <? attempt then [EvLog Debug "Retry"; EvSleep (backoff_delay attempt)] else [].

Definition request_events (agent : Pool) (url : URL) (accessToken : string)
    (attempt : Z) : list Event :=
  retry_events attempt
    ++ [EvLog Debug "Attempt"; EvRequest agent attempt (request_options url accessToken)].

(** The error thrown on the last attempt. *)
Definition exhausted (maxRetries : Z) (lastError : Error) : Error :=
  mkError ("Failed to download after " ++ Js.string_of_Z maxRetries
             ++ " attempts: " ++ message lastError).

(** Callers acquiring the pool once per URL of the list, in order. *)
Fixpoint acquire_all (urls : list string) : M (list Pool) :=
  match urls with
  | [] => ret []
  | u :: rest =>
      p <- getSharedAgent u ;;
      ps <- acquire_all rest ;;
      ret (p :: ps)
  end.

(** [n] calls of [releaseDownloadAgent]. *)
Fixpoint release_times (n : nat) : M unit :=
  match n with
  | O => ret tt
  | S n' => releaseDownloadAgent ;; release_times n'
  end.

End Download.

(** The attempt numbers of the pooled requests of a trace, in order. *)
Fixpoint requests (tr : list Event) : list Z :=
  match tr with
  | [] => []
  | EvRequest _ attempt _ :: rest => attempt :: requests rest
  | _ :: rest => requests rest
  end.

(** The sleeps and pooled requests of a trace, in order. *)
Inductive Step : Type :=
| Slept (ms : Z)
| Requested (attempt : Z).

Fixpoint schedule (tr : list Event) : list Step :=
  match tr with
  | [] => []
  | EvSleep ms :: rest => Slept ms :: schedule rest
  | EvRequest _ attempt _ :: rest => Requested attempt :: schedule rest
  | _ :: rest => schedule rest
  end.

(** The fetches of a trace. *)
Fixpoint fetches (tr : list Event) : list string :=
  match tr with
  | [] => []
  | EvFetch url _ :: rest => url :: fetches rest
  | _ :: rest => fetches rest
  end.

(** The pools constructed and closed in a trace, in order. *)
Inductive PoolStep : Type :=
| Created (p : Pool)
| Closed (p : Pool).

Fixpoint pool_steps (tr : list Event) : list PoolStep :=
  match tr with
  | [] => []
  | EvPoolCreate p :: rest => Created p :: pool_steps rest
  | EvPoolClose p :: rest => Closed p :: pool_steps rest
  | _ :: rest => pool_steps rest
  end.

(** What the specification schedules for one attempt: a sleep of
    [min(1000 * 2^(attempt-1), 8000)] milliseconds when [attempt > 0], then
    the request. *)
Definition backoff_then_request (attempt : Z) : list Step :=
  (if 0 <? attempt then [Slept (Z.min (1000 * 2 ^ (attempt - 1)) 8000)] else [])
    ++ [Requested attempt].

(** The attempt numbers [from], [from + 1], ..., [count] of them. *)
Fixpoint attempts_from (from : Z) (count : nat) : list Z :=
  match count with
  | O => []
  | S count' => from :: attempts_from (from + 1) count'
  end.

(** *** A small platform for concrete runs

    URLs are accepted when they begin with "http"; the base is taken as the
    origin and the input as the path.  The probe and the pooled requests are
    answered as given, and a body is decoded byte by byte, as ASCII text
    is. *)
Definition example_platform (probe : FetchOutcome)
    (answers : Z -> RequestOutcome) : Platform :=
  {| URL_new := fun input base =>
       match base with
       | Some b => if Js.startsWith "http" b then Some (mkURL b input "") else None
       | None => if Js.startsWith "http" input then Some (mkURL input "/" "") else None
       end;
     URL_searchParams_set := fun u name value =>
       mkURL (origin u) (pathname u) ("?" ++ name ++ "=" ++ value);
     encodeURIComponent := fun s => s;
     decode_text := string_of_list_byte;
     fetch := fun _ _ => probe;
     pool_request := fun _ attempt _ => answers attempt |}.

Definition bytes_of (s : string) : list Byte.byte := list_byte_of_string s.

Definition versions_body (vs : list string) : FetchOutcome :=
  FetchResolved (mkFetchResponse 200
    (JsonResolved (JObject [("versions", JArray (map JString vs))]))).

Definition unreachable : FetchOutcome :=
  FetchRejected (mkError "fetch failed").

Definition http_response (status : Z) (hs : Headers) (payload : string) : RequestOutcome :=
  RequestResolved (mkResponse status hs (mkBody [bytes_of payload] None)).

(** ** The "v1.11 or later" pattern as the specification words it *)

Module VersionSpec.

(** Major version 1, minor at least 11. *)
Definition v1_11_or_later (s : string) : Prop :=
  exists minor : Z, 11 <= minor /\ s = "v1." ++ Js.string_of_Z minor.

End VersionSpec.

(** ** Concrete scenarios *)

Module Scenario.

Definition homeserver : string := "https://matrix.example.org".
Definition token : string := "syt_token".
Definition media : option string := Some "mxc://example.org/abc123".

(** The server advertises only version v1.100. *)
Definition advertises_v1_100 : Platform :=
  example_platform (versions_body ["v1.100"])
    (fun _ => RequestRejected (mkError "connect ECONNREFUSED")).

(** Every download request is answered 200 with an empty content-type
    header. *)
Definition empty_content_type : Platform :=
  example_platform unreachable (fun _ => http_response 200 [("content-type", "")] "abc").

(** Every download request is answered 200 with content type image/png. *)
Definition serves_png : Platform :=
  example_platform (versions_body ["v1.1"; "v1.11"])
    (fun _ => http_response 200 [("content-type", "image/png")] "abc").

(** Every download request is answered 400, with the words of the parser's
    error as the body. *)
Definition rejects_identifier : Platform :=
  example_platform unreachable (fun _ => http_response 400 [] "Not a valid MXC URI").

(** Every download request is answered 503. *)
Definition unavailable : Platform :=
  example_platform unreachable (fun _ => http_response 503 [] "down").

End Scenario.

(** ** More of the repository

    The callers of [downloadContent_v2] in monitor/media.ts, the helper
    [sanitizeUserIdList] of client/create-client.ts, the helper
    [buildMxcDownloadUrl], [summarizeMatrixRawEvent] of actions/summary.ts,
    and [readBooleanParam]. *)

(** *** Strings that come from outside

    [readBooleanParam] and [sanitizeUserIdList] trim strings that a caller
    or a server supplies, and [String.prototype.trim] strips every Unicode
    white space.  For them a string is the list of its UTF-16 code units,
    and a value is a JSON value over such strings. *)

Module Utf16.

Definition ustring : Type := list N.

Definition of_string (s : string) : ustring :=
  map N_of_ascii (list_ascii_of_string s).

(** The code units [trim] strips, the WhiteSpace and LineTerminator of
    ECMAScript: tab, line feed, vertical tab, form feed, carriage return,
    space, no-break space, U+1680, U+2000 to U+200A, U+2028, U+2029,
    U+202F, U+205F, U+3000 and U+FEFF. *)
Definition is_space (c : N) : bool :=
  (((0x9 <=? c) && (c <=? 0xD)) || (c =? 0x20) || (c =? 0xA0) || (c =? 0x1680)
   || ((0x2000 <=? c) && (c <=? 0x200A)) || (c =? 0x2028) || (c =? 0x2029)
   || (c =? 0x202F) || (c =? 0x205F) || (c =? 0x3000) || (c =? 0xFEFF))%N.

Fixpoint trimStart (s : ustring) : ustring :=
  match s with
  | [] => []
  | c :: s' => if is_space c then trimStart s' else s
  end.

Fixpoint trimEnd (s : ustring) : ustring :=
  match s with
  | [] => []
  | c :: s' =>
      match trimEnd s' with
      | [] => if is_space c then [] else [c]
      | kept => c :: kept
      end
  end.

Definition trim (s : ustring) : ustring := trimEnd (trimStart s).

(** Lower-casing of an ASCII code unit: the letters A to Z move, nothing
    else does. *)
Definition lower_unit (c : N) : N :=
  (if (0x41 <=? c) && (c <=? 0x5A) then c + 0x20 else c)%N.

Definition is_ascii (s : ustring) : bool := forallb (fun c => (c <? 0x80)%N) s.

(** [a === b] on strings. *)
Fixpoint eqb (a b : ustring) : bool :=
  match a, b with
  | [], [] => true
  | x :: a', y :: b' => (x =? y)%N && eqb a' b'
  | _, _ => false
  end.

(** [String.prototype.toLowerCase].  Its table for the whole of Unicode
    is the platform's; what the embedding fixes is its action on strings of
    ASCII code units. *)
Class Unicode : Type := mkUnicode {
  toLowerCase : ustring -> ustring;
  toLowerCase_ascii :
    forall s, is_ascii s = true -> toLowerCase s = map lower_unit s
}.

Inductive Value : Type :=
| VNull
| VBool (b : bool)
| VNumber (n : Z)
| VString (s : ustring)
| VArray (items : list Value)
| VObject (members : list (string * Value)).

(** The [typeof] operator. *)
Definition typeof (value : Value) : string :=
  match value with
  | VBool _ => "boolean"
  | VNumber _ => "number"
  | VString _ => "string"
  | VNull | VArray _ | VObject _ => "object"
  end.

(** A lower-casing that knows the ASCII letters only, for concrete runs. *)
Definition ascii_only : Unicode :=
  {| toLowerCase := map lower_unit;
     toLowerCase_ascii := fun _ _ => eq_refl |}.

End Utf16.

Module JsText.

(** [v === true]. *)
Definition strictly_true (v : Json) : bool :=
  match v with
  | JBool true => true
  | _ => false
  end.

(** [String(err)] for an error made by [new Error(message)]. *)
Definition Error_toString (e : Error) : string :=
  if Js.truthy (message e) then "Error: " ++ message e else "Error".

End JsText.

(** *** buildMxcDownloadUrl *)

Definition buildMxcDownloadUrl (mxcUrl : string) : option string :=
  if negb (Js.startsWith "mxc://" mxcUrl) then None
  else
    let parts := Js.split "/" (Js.slice 6 mxcUrl) in
    if (List.length parts <? 2)%nat then None
    else
      match parts with
      | [] => None
      | server :: mediaIdParts =>
          let mediaId := Js.join "/" mediaIdParts in
          Some ("https://" ++ server ++ "/_matrix/media/r0/download/" ++ server
                  ++ "/" ++ mediaId)
      end.

(** *** summarizeMatrixRawEvent (actions/summary.ts)

    The event is the object the server sent, so every property read is a
    read of a JSON value: the casts of the source check nothing at run
    time.  [None] is [undefined]. *)

Module Summary.

Record RelatesTo : Type := mkRelatesTo {
  relType : option Json;
  rel_eventId : option Json
}.

Record Media : Type := mkMedia {
  mxcUrl : string;
  downloadUrl : option string;
  encrypted : bool;
  media_contentType : option string;
  sizeBytes : option Z;
  durationMs : option Z
}.

Record MatrixMessageSummary : Type := mkSummary {
  eventId : option Json;
  sender : option Json;
  summary_body : option Json;
  msgtype : option Json;
  timestamp : option Json;
  media : option Media;
  relatesTo : option RelatesTo
}.

(** Truth of a value that may be [undefined]. *)
Definition truthy (v : option Json) : bool :=
  match v with
  | Some j => JsValue.truthy j
  | None => false
  end.

(** [v?.[key]]. *)
Definition read_optional (v : option Json) (key : string) : option Json :=
  match v with
  | None | Some JNull => None
  | Some j => JsValue.member key j
  end.

(** [key in v] for a truthy [v]: a TypeError unless [v] is an object. *)
Definition has_key (key : string) (v : Json) : Error + bool :=
  match v with
  | JObject members =>
      inr (match JsValue.assoc key members with Some _ => true | None => false end)
  | JArray _ => inr false
  | _ => inl (mkError ("Cannot use 'in' operator to search for '" ++ key ++ "'"))
  end.

(** [typeof v === "string" ? v : undefined]. *)
Definition string_field (v : option Json) : option string :=
  match v with
  | Some (JString s) => Some s
  | _ => None
  end.

(** [typeof v === "number" ? v : undefined]. *)
Definition number_field (v : option Json) : option Z :=
  match v with
  | Some (JNumber n) => Some n
  | _ => None
  end.

(** [v && typeof v === "object" ? v : undefined]. *)
Definition object_field (v : option Json) : option Json :=
  match v with
  | Some (JObject members) => Some (JObject members)
  | Some (JArray items) => Some (JArray items)
  | _ => None
  end.

(** The relation of the event: [(relType, eventId)]. *)
Definition relation (relates : option Json) : Error + (option Json * option Json) :=
  match relates with
  | Some r =>
      if JsValue.truthy r then
        match has_key "rel_type" r with
        | inl e => inl e
        | inr true => inr (JsValue.member "rel_type" r, JsValue.member "event_id" r)
        | inr false =>
            match has_key "m.in_reply_to" r with
            | inl e => inl e
            | inr true =>
                inr (None, read_optional (JsValue.member "m.in_reply_to" r) "event_id")
            | inr false => inr (None, None)
            end
        end
      else inr (None, None)
  | None => inr (None, None)
  end.

(** [encryptedMxc]: the [url] of [content.file], when that is an object
    and its [url] a string. *)
Definition encrypted_url (content : Json) : option string :=
  string_field (read_optional (object_field (JsValue.member "file" content)) "url").

(** [plainMxc ?? encryptedMxc]. *)
Definition media_url (content : Json) : option string :=
  match string_field (JsValue.member "url" content) with
  | Some plainMxc => Some plainMxc
  | None => encrypted_url content
  end.

(** The media block; [client] is the [mxcToHttp] of [opts.client], [None]
    without a client. *)
Definition media_of (includeMedia : bool) (client : option (string -> Error + string))
    (content : Json) : Error + option Media :=
  if includeMedia then
    match media_url content with
    | Some mxcUrl =>
        if Js.truthy mxcUrl then
          let info := object_field (JsValue.member "info" content) in
          let converted :=
            match client with
            | Some mxcToHttp =>
                match mxcToHttp mxcUrl with
                | inl e => inl e
                | inr url => inr (Some url)
                end
            | None => inr None
            end in
          match converted with
          | inl e => inl e
          | inr downloadUrl =>
              inr (Some (mkMedia mxcUrl downloadUrl
                           (match encrypted_url content with
                            | Some encryptedMxc => Js.truthy encryptedMxc
                            | None => false
                            end)
                           (string_field (read_optional info "mimetype"))
                           (number_field (read_optional info "size"))
                           (number_field (read_optional info "duration"))))
          end
        else inr None
    | None => inr None
    end
  else inr None.

Definition summarizeMatrixRawEvent (event : list (string * Json)) (includeMedia : bool)
    (client : option (string -> Error + string)) : Error + MatrixMessageSummary :=
  match JsValue.assoc "content" event with
  | None =>
      inl (mkError "Cannot read properties of undefined (reading 'm.relates_to')")
  | Some JNull =>
      inl (mkError "Cannot read properties of null (reading 'm.relates_to')")
  | Some content =>
      match relation (JsValue.member "m.relates_to" content) with
      | inl e => inl e
      | inr (relType, eventId) =>
          let relatesTo :=
            if truthy relType || truthy eventId
            then Some (mkRelatesTo relType eventId) else None in
          match media_of includeMedia client content with
          | inl e => inl e
          | inr media =>
              inr (mkSummary (JsValue.assoc "event_id" event)
                     (JsValue.assoc "sender" event)
                     (JsValue.member "body" content)
                     (JsValue.member "msgtype" content)
                     (JsValue.assoc "origin_server_ts" event)
                     media relatesTo)
          end
      end
  end.

End Summary.

(** *** readBooleanParam *)

Definition readBooleanParam {unicode : Utf16.Unicode}
    (params : list (string * Utf16.Value)) (key : string) : option bool :=
  match JsValue.assoc key params with
  | Some (Utf16.VBool raw) => Some raw
  | Some (Utf16.VString raw) =>
      let trimmed := Utf16.toLowerCase (Utf16.trim raw) in
      if Utf16.eqb trimmed (Utf16.of_string "true") then Some true
      else if Utf16.eqb trimmed (Utf16.of_string "false") then Some false
      else None
  | _ => None
  end.

(** *** sanitizeUserIdList *)

(** The [filter] callback: [typeof entry === "string" &&
    entry.trim().length > 0]. *)
Definition valid_user_id (entry : Utf16.Value) : bool :=
  match entry with
  | Utf16.VString s => (0 <? List.length (Utf16.trim s))%nat
  | _ => false
  end.

(** The strings of a list of values the callback has accepted. *)
Fixpoint strings_of (entries : list Utf16.Value) : list Utf16.ustring :=
  match entries with
  | [] => []
  | Utf16.VString s :: rest => s :: strings_of rest
  | _ :: rest => strings_of rest
  end.

(** [input] is [None] for [undefined]. *)
Definition sanitizeUserIdList (input : option Utf16.Value) (label : string) :
    M (list Utf16.ustring) :=
  match input with
  | None | Some Utf16.VNull => ret []
  | Some (Utf16.VArray entries) =>
      let filtered := filter valid_user_id entries in
      (if negb (List.length filtered =? List.length entries)%nat
       then log Warn ("Dropping "
                        ++ Js.string_of_Z
                             (Z.of_nat (List.length entries) - Z.of_nat (List.length filtered))
                        ++ " invalid " ++ label ++ " entries from sync payload")
       else ret tt) ;;
      ret (strings_of filtered)
  | Some other =>
      log Warn ("Expected " ++ label ++ " list to be an array, got "
                  ++ Utf16.typeof other) ;;
      ret []
  end.

(** *** monitor/media.ts *)

Record JsonWebKey : Type := mkJsonWebKey {
  jwk_kty : string;
  jwk_key_ops : list string;
  jwk_alg : string;
  jwk_k : string;
  jwk_ext : bool
}.

Record EncryptedFile : Type := mkEncryptedFile {
  file_url : string;
  file_key : JsonWebKey;
  file_iv : string;
  file_hashes : list (string * string);
  file_v : string
}.

(** What the media functions read of a [MatrixClient]: its homeserver
    URL, its access token (either may be missing) and whether [client.crypto]
    is set. *)
Record MatrixClient : Type := mkClient {
  homeserverUrl : option string;
  accessToken : option string;
  crypto : bool
}.

Record SavedMedia : Type := mkSaved {
  saved_path : string;
  saved_contentType : option string
}.

(** The collaborators of media.ts: how [String(err)] renders a caught
    value, what [client.crypto.decryptMedia] and the host's [saveMediaBuffer]
    settle to. *)
Class Runtime : Type := mkRuntime {
  String_of_thrown : Error -> string;
  decryptMedia : EncryptedFile -> Error + list Byte.byte;
  saveMediaBuffer : list Byte.byte -> option string -> string -> Z -> Error + SavedMedia
}.

Inductive MediaEvent : Type :=
| EvDownload (e : Event)
| EvDecrypt (file : EncryptedFile)
| EvSave (buffer : list Byte.byte) (contentType : option string) (subdir : string)
         (maxBytes : Z).

Record MediaRun (A : Type) : Type := mkMediaRun {
  media_outcome : Error + A;
  media_final : ModuleState;
  media_events : list MediaEvent
}.
Arguments mkMediaRun {A}.
Arguments media_outcome {A}.
Arguments media_final {A}.
Arguments media_events {A}.

(** The result of the two fetchers. *)
Record Fetched : Type := mkFetched {
  buffer : list Byte.byte;
  headerType : option string
}.

Record MediaResult : Type := mkMediaResult {
  result_path : string;
  result_contentType : option string;
  placeholder : string
}.

(** [s || ""] for a string that may be missing. *)
Definition or_empty (s : option string) : string :=
  match s with
  | Some v => v
  | None => ""
  end.

Section Media.

Context {platform : Platform} {runtime : Runtime}.

(** The options object the caller puts in the place of [allowRemote]. *)
Definition retry_options : Json :=
  JObject [("maxRetries", JNumber 3); ("retryDelay", JNumber 1000)].

Definition size_limit_error : Error :=
  mkError "Matrix media exceeds configured size limit".

(** [fetchMatrixMediaBuffer].  The fourth argument of the call is the
    options object: [downloadContent_v2] reads it only in
    [allowRemote !== true], and [timeoutMs] and [maxRetries] take their
    defaults. *)
Definition fetchMatrixMediaBuffer (client : MatrixClient) (mxcUrl : string)
    (maxBytes : Z) : ModuleState -> MediaRun (option Fetched) :=
  fun st =>
    let homeserverUrl := or_empty (homeserverUrl client) in
    let accessToken := or_empty (accessToken client) in
    let r := downloadContent_v2 (Some mxcUrl) homeserverUrl accessToken
               (JsText.strictly_true retry_options) 30000 3 st in
    let tried : Error + option Fetched :=
      match outcome r with
      | inl err => inl err
      | inr result =>
          let buffer := data result in
          if maxBytes <? Z.of_nat (List.length buffer) then inl size_limit_error
          else inr (Some (mkFetched buffer (Some (contentType result))))
      end in
    mkMediaRun
      (match tried with
       | inl err => inl (mkError ("Matrix media download failed: " ++ String_of_thrown err))
       | inr fetched => inr fetched
       end)
      (final r) (map EvDownload (events r)).

Definition fetchEncryptedMediaBuffer (client : MatrixClient) (file : EncryptedFile)
    (maxBytes : Z) : ModuleState -> MediaRun (option Fetched) :=
  fun st =>
    if negb (crypto client) then
      mkMediaRun (inl (mkError "Cannot decrypt media: crypto not enabled")) st []
    else
      match decryptMedia file with
      | inl err => mkMediaRun (inl err) st [EvDecrypt file]
      | inr decrypted =>
          if maxBytes <? Z.of_nat (List.length decrypted) then
            mkMediaRun (inl size_limit_error) st [EvDecrypt file]
          else mkMediaRun (inr (Some (mkFetched decrypted None))) st [EvDecrypt file]
      end.

(** [a ?? b]. *)
Definition nullish_or {A} (a b : option A) : option A :=
  match a with
  | Some _ => a
  | None => b
  end.

Definition downloadMatrixMedia (client : MatrixClient) (mxcUrl : string)
    (contentType : option string) (sizeBytes : option Z) (maxBytes : Z)
    (file : option EncryptedFile) : ModuleState -> MediaRun (option MediaResult) :=
  fun st =>
    if match sizeBytes with
       | Some size => maxBytes <? size
       | None => false
       end
    then mkMediaRun (inl size_limit_error) st []
    else
      let fetching :=
        match file with
        | Some f => fetchEncryptedMediaBuffer client f maxBytes st
        | None => fetchMatrixMediaBuffer client mxcUrl maxBytes st
        end in
      match media_outcome fetching with
      | inl err => mkMediaRun (inl err) (media_final fetching) (media_events fetching)
      | inr None => mkMediaRun (inr None) (media_final fetching) (media_events fetching)
      | inr (Some fetched) =>
          let headerType := nullish_or (headerType fetched) contentType in
          let saving := EvSave (buffer fetched) headerType "inbound" maxBytes in
          match saveMediaBuffer (buffer fetched) headerType "inbound" maxBytes with
          | inl err =>
              mkMediaRun (inl err) (media_final fetching)
                (media_events fetching ++ [saving])
          | inr saved =>
              mkMediaRun
                (inr (Some (mkMediaResult (saved_path saved) (saved_contentType saved)
                              "[matrix media]")))
                (media_final fetching) (media_events fetching ++ [saving])
          end
      end.

End Media.

(** The pooled requests and the saves among the events of a media call. *)
Fixpoint downloads (tr : list MediaEvent) : list Event :=
  match tr with
  | [] => []
  | EvDownload e :: rest => e :: downloads rest
  | _ :: rest => downloads rest
  end.

(** *** Calls of the pool manager, in any order *)

Inductive PoolCall : Type :=
| Acquire (homeserverUrl : string)
| Release.

Section PoolCalls.

Context {platform : Platform}.

(** One call made by some caller; an acquisition that throws is the
    caller's failure and leaves the others to go on. *)
Definition pool_call (c : PoolCall) : M unit :=
  match c with
  | Acquire u => try_catch (getSharedAgent u ;; ret tt) (fun _ => ret tt)
  | Release => releaseDownloadAgent
  end.

Fixpoint pool_calls (cs : list PoolCall) : M unit :=
  match cs with
  | [] => ret tt
  | c :: rest => pool_call c ;; pool_calls rest
  end.

End PoolCalls.

(** Replays the constructions and closings of a trace from the pool that
    is open at its start: a pool is constructed only when none is open, and
    only the open pool is closed.  [None] when the trace breaks that. *)
Fixpoint replay (open : option Pool) (steps : list PoolStep) : option (option Pool) :=
  match steps with
  | [] => Some open
  | Created p :: rest =>
      match open with
      | None => replay (Some p) rest
      | Some _ => None
      end
  | Closed p :: rest =>
      match open with
      | Some q => if (pool_id p =? pool_id q)%nat then replay None rest else None
      | None => None
      end
  end.

(** The sleeps of a trace, in order. *)
Fixpoint sleeps (tr : list Event) : list Z :=
  match tr with
  | [] => []
  | EvSleep ms :: rest => ms :: sleeps rest
  | _ :: rest => sleeps rest
  end.

(** A second platform for concrete runs: the version probe succeeds with
    the given body and every request is answered as given. *)
Module Scenario2.

Definition big_png : Platform :=
  example_platform (versions_body ["v1.11"])
    (fun _ => http_response 200 [("content-type", "image/png")] "0123456789").

Definition plain_runtime : Runtime :=
  {| String_of_thrown := JsText.Error_toString;
     decryptMedia := fun _ => inr (bytes_of "secret");
     saveMediaBuffer := fun _ hint _ _ => inr (mkSaved "/media/inbound/1" hint) |}.

(** The probe lists a number between two version strings. *)
Definition mixed_versions : Platform :=
  example_platform
    (FetchResolved (mkFetchResponse 200
       (JsonResolved
          (JObject [("versions", JArray [JString "v1.1"; JNumber 5; JString "v1.11"])]))))
    (fun _ => http_response 200 [("content-type", "image/png")] "abc").

(** A module state in which a pool for another origin is shared already. *)
Definition first_pool : Pool := mkPool 0 "https://first.example.org" pool_settings.

Definition warm_state : ModuleState := mkState (Some first_pool) 1 1.

Definition client : MatrixClient :=
  mkClient (Some Scenario.homeserver) (Some Scenario.token) true.

Definition encrypted_file : EncryptedFile :=
  mkEncryptedFile "mxc://example.org/enc"
    (mkJsonWebKey "oct" ["encrypt"; "decrypt"] "A256CTR" "key" true)
    "iv" [("sha256", "hash")] "v2".

(** The events of summary.test.ts: a voice message, and one whose media
    is encrypted. *)
Definition voice_event : list (string * Json) :=
  [("event_id", JString "$event2"); ("sender", JString "@alice:example.org");
   ("type", JString "m.room.message"); ("origin_server_ts", JNumber 1700000001000);
   ("content",
    JObject [("msgtype", JString "m.audio"); ("body", JString "voice.ogg");
             ("url", JString "mxc://example.org/audio2");
             ("info", JObject [("mimetype", JString "audio/ogg"); ("size", JNumber 12345);
                               ("duration", JNumber 6789)])])].

Definition encrypted_voice_event : list (string * Json) :=
  [("event_id", JString "$event3"); ("sender", JString "@alice:example.org");
   ("type", JString "m.room.message"); ("origin_server_ts", JNumber 1700000002000);
   ("content",
    JObject [("msgtype", JString "m.audio"); ("body", JString "secret.ogg");
             ("file", JObject [("url", JString "mxc://example.org/encrypted-audio");
                               ("iv", JString "x")])])].

(** An encrypted message whose [url] is present and empty. *)
Definition empty_url_event : list (string * Json) :=
  [("event_id", JString "$event4"); ("sender", JString "@alice:example.org");
   ("type", JString "m.room.message"); ("origin_server_ts", JNumber 1700000003000);
   ("content",
    JObject [("msgtype", JString "m.audio"); ("body", JString "secret.ogg");
             ("url", JString "");
             ("file", JObject [("url", JString "mxc://example.org/encrypted-audio")])])].

(** A message whose [m.relates_to] is a string. *)
Definition text_relation_event : list (string * Json) :=
  [("event_id", JString "$event5"); ("sender", JString "@alice:example.org");
   ("type", JString "m.room.message"); ("origin_server_ts", JNumber 1700000004000);
   ("content",
    JObject [("msgtype", JString "m.text"); ("body", JString "hello");
             ("m.relates_to", JString "$event1")])].

(** A client whose [mxcToHttp] prefixes the URI, as the one of the test. *)
Definition download_client : string -> Error + string :=
  fun mxc => inr ("https://download/" ++ mxc).

End Scenario2.
(** * Properties *)

Local Open Scope list_scope.

Example parse_domain_id :
  parseMXCUrl (Some "mxc://domain/id") = inr (mkMXC "domain" "id").
Proof. reflexivity. Qed.

Example parse_slash_preserved :
  parseMXCUrl (Some "MXC://domain/a/b") = inr (mkMXC "domain" "a/b").
Proof. reflexivity. Qed.

Example parse_scheme_only :
  parseMXCUrl (Some "mxc://") = inl (mkError "Missing domain component in MXC URI").
Proof. reflexivity. Qed.

Example parse_no_media :
  parseMXCUrl (Some "mxc://domain") = inl (mkError "Missing mediaId component in MXC URI").
Proof. reflexivity. Qed.

(** ** Properties of the string primitives *)

Section StringFacts.

Lemma split_nonempty (sep : ascii) (s : string) : Js.split sep s <> [].
Proof.
  induction s as [|c s IH]; simpl; [discriminate|].
  destruct (Ascii.eqb c sep); [discriminate|].
  destruct (Js.split sep s); discriminate.
Qed.

Lemma join_cons_char (sep : string) (c : ascii) (p : string) (ps : list string) :
  Js.join sep (String c p :: ps) = String c (Js.join sep (p :: ps)).
Proof. destruct ps; reflexivity. Qed.

(** Splitting on a character and joining on it again gives the string back. *)
Lemma join_split (sep : ascii) (s : string) :
  Js.join (String sep "") (Js.split sep s) = s.
Proof.
  induction s as [|c s IH]; simpl; [reflexivity|].
  destruct (Ascii.eqb_spec c sep) as [->|Hne].
  - pose proof (split_nonempty sep s) as Hn.
    destruct (Js.split sep s) as [|p ps]; [contradiction|].
    cbn [Js.join]. cbn [append]. now rewrite <- IH.
  - pose proof (split_nonempty sep s) as Hn.
    destruct (Js.split sep s) as [|p ps]; [contradiction|].
    rewrite join_cons_char. now rewrite IH.
Qed.

(** The first piece of [split] and the re-joined other pieces are the two
    halves of the string around its first separator. *)
Lemma split_split_first (sep : ascii) (s : string) :
  exists pieces,
    Js.split sep s = fst (IdentifierSpec.split_first sep s) :: pieces /\
    Js.join (String sep "") pieces = snd (IdentifierSpec.split_first sep s).
Proof.
  induction s as [|c s (pieces & Hs & Hj)]; simpl.
  - exists []. split; reflexivity.
  - destruct (Ascii.eqb_spec c sep) as [->|Hne].
    + exists (Js.split sep s). split; [reflexivity|]. apply join_split.
    + rewrite Hs. destruct (IdentifierSpec.split_first sep s) as [a r].
      exists pieces. split; [reflexivity|exact Hj].
Qed.

Lemma slice_remove_prefix (p s : string) :
  Js.slice (String.length p) s = IdentifierSpec.remove_prefix p s.
Proof.
  revert s. induction p as [|a p IH]; intros [|b s]; simpl; auto.
Qed.

Lemma startsWith_lower_ci (p s : string) :
  Js.all_lower p = true ->
  Js.startsWith p (Js.toLowerCase s) = IdentifierSpec.has_prefix_ci p s.
Proof.
  revert s. induction p as [|a p IH]; intros [|b s] Hp; simpl; auto.
  simpl in Hp. apply andb_prop in Hp as [Ha Hp].
  apply Ascii.eqb_eq in Ha.
  unfold IdentifierSpec.same_letter. rewrite Ha, (IH s Hp).
  reflexivity.
Qed.

Lemma split_first_app (sep : ascii) (a r : string) :
  Js.includes (String sep "") a = false ->
  IdentifierSpec.split_first sep (a ++ String sep r) = (a, r).
Proof.
  induction a as [|c a IH]; cbn [append IdentifierSpec.split_first]; intros H.
  - now rewrite Ascii.eqb_refl.
  - cbn in H. apply orb_false_elim in H as [Hc Ha].
    rewrite andb_true_r in Hc. rewrite Ascii.eqb_sym, Hc, (IH Ha). reflexivity.
Qed.

Lemma has_prefix_ci_app (p q s : string) :
  IdentifierSpec.has_prefix_ci p q = true ->
  String.length q = String.length p ->
  IdentifierSpec.has_prefix_ci p (q ++ s) = true /\
  IdentifierSpec.remove_prefix p (q ++ s) = s.
Proof.
  revert q. induction p as [|a p IH]; intros [|b q] Hp Hl; try discriminate.
  - auto.
  - cbn in Hp, Hl |- *. apply andb_prop in Hp as [Hab Hp].
    rewrite Hab. injection Hl as Hl. exact (IH q Hp Hl).
Qed.

End StringFacts.

(** C1. [parseMXCUrl] coincides with the reference definition of the
    specification on every input, absent input included: a string with the
    case-insensitive prefix "mxc://" whose remainder has a non-empty part
    before its first "/" and a non-empty part after it yields that authority
    and, verbatim, everything after that first "/"; an input without the
    prefix is an InvalidIdentifier, an empty authority a MissingAuthority and
    an empty remainder a MissingResourceId. *)
Theorem parseMXCUrl_refines_spec (input : option string) :
  IdentifierSpec.abstraction (parseMXCUrl input) = Some (IdentifierSpec.parse input).
Proof.
  destruct input as [s|]; [|reflexivity].
  unfold parseMXCUrl, IdentifierSpec.parse, IdentifierSpec.scheme_prefix.
  rewrite startsWith_lower_ci by reflexivity.
  destruct (IdentifierSpec.has_prefix_ci "mxc://" s); [|reflexivity].
  cbn [negb]. rewrite slice_remove_prefix.
  destruct (split_split_first "/" (IdentifierSpec.remove_prefix "mxc://" s))
    as (pieces & Hs & Hj).
  rewrite Hs.
  destruct (IdentifierSpec.split_first "/" (IdentifierSpec.remove_prefix "mxc://" s))
    as [auth rest].
  cbn [fst snd] in *. unfold Js.truthy. rewrite Hj.
  destruct (String.eqb auth ""); [reflexivity|].
  destruct (String.eqb rest ""); reflexivity.
Qed.

(** The successful case spelled out: a six-character prefix that reads
    "mxc://" up to case, an authority without "/", a "/", and a remainder. *)
Lemma parseMXCUrl_well_formed (scheme auth rest : string) :
  IdentifierSpec.has_prefix_ci "mxc://" scheme = true ->
  String.length scheme = 6%nat ->
  Js.includes "/" auth = false ->
  auth <> "" ->
  rest <> "" ->
  parseMXCUrl (Some (scheme ++ auth ++ "/" ++ rest)%string) = inr (mkMXC auth rest).
Proof.
  intros Hp Hl Hsep Ha Hr.
  destruct (has_prefix_ci_app "mxc://" scheme (auth ++ "/" ++ rest) Hp Hl) as [Hci Hrm].
  unfold parseMXCUrl.
  rewrite startsWith_lower_ci, Hci by reflexivity. cbn [negb].
  rewrite slice_remove_prefix, Hrm.
  destruct (split_split_first "/" (auth ++ "/" ++ rest)) as (pieces & Hs & Hj).
  change (auth ++ "/" ++ rest)%string with (auth ++ String "/" rest)%string in Hs, Hj.
  rewrite (split_first_app "/" auth rest Hsep) in Hs, Hj. cbn [fst snd] in Hs, Hj.
  change (auth ++ "/" ++ rest)%string with (auth ++ String "/" rest)%string.
  rewrite Hs. unfold Js.truthy. rewrite Hj.
  apply String.eqb_neq in Ha, Hr. rewrite Ha, Hr. reflexivity.
Qed.

(** ** Runs of the module's functions *)

Section Runs.

Context {platform : Platform}.

Lemma schedule_app (a b : list Event) : schedule (a ++ b) = schedule a ++ schedule b.
Proof.
  induction a as [|[] a IH]; cbn; rewrite ?IH; reflexivity.
Qed.

Lemma requests_app (a b : list Event) : requests (a ++ b) = requests a ++ requests b.
Proof.
  induction a as [|[] a IH]; cbn; rewrite ?IH; reflexivity.
Qed.

Lemma pool_steps_app (a b : list Event) :
  pool_steps (a ++ b) = pool_steps a ++ pool_steps b.
Proof.
  induction a as [|[] a IH]; cbn; rewrite ?IH; reflexivity.
Qed.

(** *** Sequencing *)

Lemma bind_ok {A B} (m : M A) (k : A -> M B) (st : ModuleState) (a : A)
    (st' : ModuleState) (evs : list Event) :
  m st = mkRun (inr a) st' evs ->
  bind m k st =
    mkRun (outcome (k a st')) (final (k a st')) (evs ++ events (k a st')).
Proof. intros Hm. unfold bind. rewrite Hm. reflexivity. Qed.

Lemma bind_err {A B} (m : M A) (k : A -> M B) (st : ModuleState) (e : Error)
    (st' : ModuleState) (evs : list Event) :
  m st = mkRun (inl e) st' evs ->
  bind m k st = mkRun (inl e) st' evs.
Proof. intros Hm. unfold bind. rewrite Hm. reflexivity. Qed.

(** *** getMediaEndpointPrefix *)

(** The [try] block of the resolver, by the point at which it stops. *)
Lemma probe_versions_run (homeserverUrl accessToken : string) (st : ModuleState) :
  probe_versions homeserverUrl accessToken st =
  match URL_new "/_matrix/client/versions" (Some homeserverUrl) with
  | None => mkRun (inl (mkError "Invalid URL")) st []
  | Some u =>
      let hs := if Js.truthy accessToken
                then [("Authorization", ("Bearer " ++ accessToken)%string)]
                else [] in
      let sent := [EvFetch (URL_toString u) hs] in
      match fetch (URL_toString u) hs with
      | FetchRejected e => mkRun (inl e) st sent
      | FetchResolved r =>
          if ok r then
            match fetch_json r with
            | JsonRejected e => mkRun (inl e) st sent
            | JsonResolved j =>
                match JsValue.some (JsValue.or_empty_array (JsValue.member "versions" j))
                        (JsValue.matches v1_11_pattern) with
                | inl e => mkRun (inl e) st sent
                | inr true => mkRun (inr (Some modern_prefix)) st sent
                | inr false => mkRun (inr None) st sent
                end
            end
          else mkRun (inr None) st sent
      end
  end.
Proof.
  unfold probe_versions, new_URL.
  destruct (URL_new "/_matrix/client/versions" (Some homeserverUrl)) as [u|];
    [|reflexivity].
  rewrite (bind_ok _ _ st u st []) by reflexivity.
  cbv zeta. unfold await_fetch.
  set (hs := if Js.truthy accessToken then _ else _).
  destruct (fetch (URL_toString u) hs) as [e|r] eqn:Hf.
  { erewrite bind_err; [reflexivity|].
    erewrite bind_ok by reflexivity. rewrite ?Hf. reflexivity. }
  erewrite bind_ok; [|erewrite bind_ok by reflexivity; rewrite ?Hf; reflexivity].
  cbn [outcome final events app].
  destruct (ok r); [|reflexivity].
  unfold await_json.
  destruct (fetch_json r) as [e|j]; [reflexivity|].
  erewrite bind_ok by reflexivity.
  destruct (JsValue.some _ _) as [e|[|]]; reflexivity.
Qed.

Lemma try_catch_ok {A} (m : M A) (handler : Error -> M A) (st : ModuleState) (a : A)
    (st' : ModuleState) (evs : list Event) :
  m st = mkRun (inr a) st' evs -> try_catch m handler st = mkRun (inr a) st' evs.
Proof. intros Hm. unfold try_catch. rewrite Hm. reflexivity. Qed.

Lemma try_catch_err {A} (m : M A) (handler : Error -> M A) (st : ModuleState) (e : Error)
    (st' : ModuleState) (evs : list Event) :
  m st = mkRun (inl e) st' evs ->
  try_catch m handler st =
    mkRun (outcome (handler e st')) (final (handler e st')) (evs ++ events (handler e st')).
Proof. intros Hm. unfold try_catch. rewrite Hm. reflexivity. Qed.

(** The resolver, by what its [try] block does. *)
Lemma getMediaEndpointPrefix_run (homeserverUrl accessToken : string) (st : ModuleState) :
  getMediaEndpointPrefix homeserverUrl accessToken st =
  let tried := probe_versions homeserverUrl accessToken st in
  match outcome tried with
  | inr (Some prefix) => mkRun (inr prefix) (final tried) (events tried)
  | inr None => mkRun (inr legacy_prefix) (final tried) (events tried)
  | inl _ =>
      mkRun (inr legacy_prefix) (final tried)
        (events tried ++
         [EvLog Debug "Failed to detect server version, using legacy media endpoint:"])
  end.
Proof.
  unfold getMediaEndpointPrefix. cbv zeta.
  destruct (probe_versions homeserverUrl accessToken st) as [[e|[prefix|]] st' evs] eqn:Hp;
    cbn [outcome final events].
  - erewrite bind_ok; [|erewrite try_catch_err by exact Hp; reflexivity].
    cbn. rewrite app_nil_r. reflexivity.
  - erewrite bind_ok; [|erewrite try_catch_ok by exact Hp; reflexivity].
    cbn. rewrite app_nil_r. reflexivity.
  - erewrite bind_ok; [|erewrite try_catch_ok by exact Hp; reflexivity].
    cbn. rewrite app_nil_r. reflexivity.
Qed.

(** The resolver always returns one of the two prefixes, leaves the module
    state alone, and neither sleeps nor touches the pool. *)
Lemma getMediaEndpointPrefix_total (homeserverUrl accessToken : string) (st : ModuleState) :
  exists prefix evs,
    getMediaEndpointPrefix homeserverUrl accessToken st = mkRun (inr prefix) st evs
    /\ (prefix = modern_prefix \/ prefix = legacy_prefix)
    /\ schedule evs = [] /\ requests evs = [] /\ pool_steps evs = [].
Proof.
  rewrite getMediaEndpointPrefix_run, probe_versions_run. cbv zeta.
  destruct (URL_new "/_matrix/client/versions" (Some homeserverUrl)) as [u|].
  2:{ eexists _, _. split; [reflexivity|]. auto. }
  destruct (fetch _ _) as [e|r].
  { eexists _, _. split; [reflexivity|]. auto. }
  destruct (ok r).
  2:{ eexists _, _. split; [reflexivity|]. auto. }
  destruct (fetch_json r) as [e|j].
  { eexists _, _. split; [reflexivity|]. auto. }
  destruct (JsValue.some _ _) as [e|[|]].
  all: eexists _, _; (split; [reflexivity|]); auto.
Qed.

(** The modern prefix is returned exactly when the probe URL is accepted,
    the fetch resolves with a success status, the body parses, and the
    [some] scan over its [versions] finds a match. *)
Lemma getMediaEndpointPrefix_modern (homeserverUrl accessToken : string) (st : ModuleState) :
  outcome (getMediaEndpointPrefix homeserverUrl accessToken st) = inr modern_prefix <->
  exists u r j,
    URL_new "/_matrix/client/versions" (Some homeserverUrl) = Some u /\
    fetch (URL_toString u)
      (if Js.truthy accessToken
       then [("Authorization", ("Bearer " ++ accessToken)%string)] else [])
      = FetchResolved r /\
    ok r = true /\
    fetch_json r = JsonResolved j /\
    JsValue.some (JsValue.or_empty_array (JsValue.member "versions" j))
      (JsValue.matches v1_11_pattern) = inr true.
Proof.
  rewrite getMediaEndpointPrefix_run, probe_versions_run. cbv zeta.
  set (hs := if Js.truthy accessToken then _ else _). clearbody hs.
  destruct (URL_new "/_matrix/client/versions" (Some homeserverUrl)) as [u|].
  2:{ split; [discriminate|]. intros (u & r & j & Hu & _). discriminate. }
  destruct (fetch _ _) as [e|r] eqn:Hf.
  { split; [discriminate|]. intros (u' & r & j & Hu & Hf' & _). congruence. }
  destruct (ok r) eqn:Hok.
  2:{ split; [discriminate|]. intros (u' & r' & j & Hu & Hf' & Hok' & _). congruence. }
  destruct (fetch_json r) as [e|j] eqn:Hj.
  { split; [discriminate|]. intros (u' & r' & j & Hu & Hf' & Hok' & Hj' & _).
    congruence. }
  destruct (JsValue.some _ _) as [e|[|]] eqn:Hs.
  - split; [discriminate|]. intros (u' & r' & j' & Hu & Hf' & Hok' & Hj' & Hs').
    congruence.
  - split; [|reflexivity]. intros _. exists u, r, j. auto.
  - split; [discriminate|]. intros (u' & r' & j' & Hu & Hf' & Hok' & Hj' & Hs').
    congruence.
Qed.

(** *** getSharedAgent and releaseDownloadAgent *)

Lemma getSharedAgent_existing (homeserverUrl : string) (st : ModuleState) (agent : Pool) :
  sharedAgent st = Some agent ->
  getSharedAgent homeserverUrl st =
    mkRun (inr agent) (mkState (Some agent) (agentRefCount st + 1) (poolsCreated st)) [].
Proof.
  intros Hs. unfold getSharedAgent, bind, get, put, ret. cbn. rewrite Hs. reflexivity.
Qed.

Lemma getSharedAgent_fresh (homeserverUrl : string) (st : ModuleState) (u : URL) :
  sharedAgent st = None ->
  URL_new homeserverUrl None = Some u ->
  let agent := mkPool (poolsCreated st) (origin u) pool_settings in
  getSharedAgent homeserverUrl st =
    mkRun (inr agent) (mkState (Some agent) 1 (S (poolsCreated st)))
      [EvPoolCreate agent; EvLog Debug "Created HTTP/2 capable connection pool for"].
Proof.
  intros Hs Hu. unfold getSharedAgent, bind, get, put, ret, new_URL, log, emit. cbn.
  rewrite Hs, Hu. reflexivity.
Qed.

Lemma getSharedAgent_invalid (homeserverUrl : string) (st : ModuleState) :
  sharedAgent st = None ->
  URL_new homeserverUrl None = None ->
  getSharedAgent homeserverUrl st = mkRun (inl (mkError "Invalid URL")) st [].
Proof.
  intros Hs Hu. unfold getSharedAgent, bind, get, put, ret, new_URL, log, emit. cbn.
  rewrite Hs, Hu. reflexivity.
Qed.

(** Acquiring neither sleeps nor issues requests. *)
Lemma getSharedAgent_quiet (homeserverUrl : string) (st : ModuleState) :
  schedule (events (getSharedAgent homeserverUrl st)) = [] /\
  requests (events (getSharedAgent homeserverUrl st)) = [].
Proof.
  destruct (sharedAgent st) as [agent|] eqn:Hs.
  - rewrite (getSharedAgent_existing _ _ _ Hs). auto.
  - destruct (URL_new homeserverUrl None) as [u|] eqn:Hu.
    + rewrite (getSharedAgent_fresh _ _ _ Hs Hu). auto.
    + rewrite (getSharedAgent_invalid _ _ Hs Hu). auto.
Qed.

Lemma releaseDownloadAgent_run (st : ModuleState) :
  releaseDownloadAgent st =
  match sharedAgent st with
  | Some agent =>
      if agentRefCount st - 1 <=? 0 then
        mkRun (inr tt) (mkState None 0 (poolsCreated st))
          [EvPoolClose agent; EvLog Debug "Closed HTTP/2 connection pool"]
      else
        mkRun (inr tt) (mkState (Some agent) (agentRefCount st - 1) (poolsCreated st)) []
  | None =>
      mkRun (inr tt) (mkState None (agentRefCount st - 1) (poolsCreated st)) []
  end.
Proof.
  unfold releaseDownloadAgent, bind, get, put, ret, log, emit. cbn.
  destruct (sharedAgent st) as [agent|]; [|reflexivity].
  destruct (agentRefCount st - 1 <=? 0); reflexivity.
Qed.

(** *** The retry loop *)

(** An integer read as a number. *)
Lemma whole_of_Z (z : Z) : whole (of_Z z) = Some z.
Proof.
  unfold whole, of_Z. rewrite Qfloor_Z.
  replace (Qeq_bool (inject_Z z) (inject_Z z)) with true; [reflexivity|].
  symmetry. apply Qeq_bool_iff. reflexivity.
Qed.

Lemma iterations_of_Z (z : Z) : iterations (of_Z z) = Z.to_nat z.
Proof. unfold iterations, of_Z. rewrite Qceiling_Z. reflexivity. Qed.

Lemma below_of_Z (attempt z : Z) : below attempt (of_Z z) = (attempt <? z).
Proof.
  unfold below, of_Z.
  destruct (Z.ltb_spec attempt z) as [Hlt|Hge].
  - destruct (Qle_bool (inject_Z z) (inject_Z attempt)) eqn:Hle; [|reflexivity].
    apply Qle_bool_iff in Hle. rewrite <- Zle_Qle in Hle. lia.
  - replace (Qle_bool (inject_Z z) (inject_Z attempt)) with true; [reflexivity|].
    symmetry. apply Qle_bool_iff. rewrite <- Zle_Qle. exact Hge.
Qed.

Lemma last_attempt_of_Z (attempt z : Z) :
  last_attempt attempt (of_Z z) = if attempt =? z - 1 then Some z else None.
Proof. unfold last_attempt. rewrite whole_of_Z. reflexivity. Qed.

(** A number that is an integer bounds the loop as that integer does. *)
Lemma whole_iterations (n : JsNumber) (count : Z) :
  whole n = Some count -> iterations n = Z.to_nat count.
Proof.
  destruct n as [q|]; [|discriminate]. unfold whole, iterations.
  destruct (Qeq_bool q (inject_Z (Qfloor q))) eqn:Hq; [|discriminate].
  intros H. injection H as <-. apply Qeq_bool_iff in Hq.
  rewrite (Qceiling_comp _ _ Hq), Qceiling_Z. reflexivity.
Qed.

(** The iteration counter is exhausted exactly when the loop condition
    [attempt < maxRetries] fails. *)
Lemma below_iterations (attempt : Z) (n : JsNumber) :
  0 <= attempt ->
  below attempt n = true <-> attempt < Z.of_nat (iterations n).
Proof.
  intros Hpos. destruct n as [q|]; cbn [below iterations].
  2:{ split; [discriminate|]. cbn. lia. }
  rewrite negb_true_iff.
  assert (Hlt : Qle_bool q (inject_Z attempt) = false <-> (inject_Z attempt < q)%Q).
  { split; intros H.
    - apply Qnot_le_lt. intros Hle. apply Qle_bool_iff in Hle. congruence.
    - destruct (Qle_bool q (inject_Z attempt)) eqn:Hle; [|reflexivity].
      apply Qle_bool_iff in Hle. exfalso. exact (Qlt_not_le _ _ H Hle). }
  rewrite Hlt. split.
  - intros H. assert (attempt < Qceiling q).
    { rewrite Zlt_Qlt. eapply Qlt_le_trans; [exact H|apply Qle_ceiling]. }
    lia.
  - intros H. assert (Hc : attempt <= Qceiling q - 1) by lia.
    eapply Qle_lt_trans; [|apply Qceiling_lt].
    rewrite <- Zle_Qle. exact Hc.
Qed.

(** The test [attempt === maxRetries - 1] holds only on the last
    iteration. *)
Lemma last_attempt_last (attempt : Z) (n : JsNumber) (count : Z) :
  last_attempt attempt n = Some count ->
  count = attempt + 1 /\ whole n = Some count.
Proof.
  unfold last_attempt. destruct (whole n) as [c|]; [|discriminate].
  destruct (Z.eqb_spec attempt (c - 1)) as [->|]; [|discriminate].
  intros H. injection H as <-. split; [lia|reflexivity].
Qed.

Lemma attempt_once_run (agent : Pool) (url : URL) (accessToken : string) (i : Z)
    (st : ModuleState) :
  attempt_once agent url accessToken i st =
  mkRun (attempt_result agent url accessToken i) st
    ([EvLog Debug "Attempt"; EvRequest agent i (request_options url accessToken)] ++
     match attempt_result agent url accessToken i with
     | inr _ => [EvLog Debug "Download complete"]
     | inl _ => []
     end).
Proof.
  unfold attempt_once, attempt_result, await_request, bind, log, emit, lift.
  cbn.
  destruct (pool_request agent i (request_options url accessToken)) as [e|r]; cbn;
    [reflexivity|].
  destruct (read_response r); reflexivity.
Qed.

(** One iteration of the loop, by the result of its attempt. *)
Lemma retry_loop_step agent url accessToken maxRetries remaining i last st :
  retry_loop agent url accessToken maxRetries (S remaining) i last st =
  match attempt_result agent url accessToken i with
  | inr result =>
      mkRun (inr result) st
        (request_events agent url accessToken i ++ [EvLog Debug "Download complete"])
  | inl e =>
      if Js.includes "Not a valid MXC URI" (message e) then
        mkRun (inl e) st
          (request_events agent url accessToken i ++ [EvLog Warn "Attempt failed:"])
      else
        match last_attempt i maxRetries with
        | Some count =>
            mkRun (inl (exhausted count e)) st
              (request_events agent url accessToken i ++ [EvLog Warn "Attempt failed:"])
        | None =>
            let r :=
              retry_loop agent url accessToken maxRetries remaining (i + 1) (Some e) st in
            mkRun (outcome r) (final r)
              (request_events agent url accessToken i
                 ++ EvLog Warn "Attempt failed:" :: events r)
        end
  end.
Proof.
  cbn [retry_loop]. unfold bind at 1. unfold try_catch.
  assert (Hpre : forall st0,
             (if 0 <? i then log Debug "Retry";; sleep (backoff_delay i) else ret tt) st0
             = mkRun (inr tt) st0 (retry_events i)).
  { intros st0. unfold retry_events. destruct (0 <? i); reflexivity. }
  rewrite Hpre. cbn [outcome final events].
  rewrite attempt_once_run. cbn [outcome final events].
  unfold request_events.
  destruct (attempt_result agent url accessToken i) as [e|res].
  - unfold bind, log, emit. cbn [outcome final events].
    destruct (Js.includes "Not a valid MXC URI" (message e)).
    + unfold throw. cbn. rewrite <- !app_assoc. reflexivity.
    + destruct (last_attempt i maxRetries).
      * unfold throw. cbn. rewrite <- !app_assoc. reflexivity.
      * cbn. rewrite <- !app_assoc. reflexivity.
  - cbn. rewrite <- !app_assoc. reflexivity.
Qed.

Lemma retry_loop_done agent url accessToken maxRetries i last st :
  retry_loop agent url accessToken maxRetries 0 i last st =
  mkRun (inl (match last with
              | Some e => e
              | None => mkError "Download failed for unknown reason"
              end)) st [].
Proof. reflexivity. Qed.

(** The loop as the source writes it: the body runs while
    [attempt < maxRetries], and the final [throw] is reached when that
    fails. *)
Lemma retry_loop_for agent url accessToken maxRetries i last st :
  0 <= i ->
  retry_loop agent url accessToken maxRetries
    (Z.to_nat (Z.of_nat (iterations maxRetries) - i)) i last st =
  if below i maxRetries then
    retry_loop agent url accessToken maxRetries
      (S (Z.to_nat (Z.of_nat (iterations maxRetries) - (i + 1)))) i last st
  else
    mkRun (inl (match last with
                | Some e => e
                | None => mkError "Download failed for unknown reason"
                end)) st [].
Proof.
  intros Hi. destruct (below i maxRetries) eqn:Hb.
  - apply (below_iterations _ _ Hi) in Hb.
    replace (Z.to_nat (Z.of_nat (iterations maxRetries) - i))
      with (S (Z.to_nat (Z.of_nat (iterations maxRetries) - (i + 1)))) by lia.
    reflexivity.
  - assert (Hge : ~ i < Z.of_nat (iterations maxRetries)).
    { intros Hlt. apply (below_iterations _ _ Hi) in Hlt. congruence. }
    replace (Z.to_nat (Z.of_nat (iterations maxRetries) - i)) with 0%nat by lia.
    reflexivity.
Qed.

Lemma schedule_request_events agent url accessToken i :
  schedule (request_events agent url accessToken i) = backoff_then_request i.
Proof.
  unfold request_events, retry_events, backoff_then_request, backoff_delay.
  destruct (0 <? i); reflexivity.
Qed.

Lemma requests_request_events agent url accessToken i :
  requests (request_events agent url accessToken i) = [i].
Proof.
  unfold request_events, retry_events. destruct (0 <? i); reflexivity.
Qed.

(** The loop never touches the module state. *)
Lemma retry_loop_final agent url accessToken maxRetries remaining :
  forall i last st,
    final (retry_loop agent url accessToken maxRetries remaining i last st) = st.
Proof.
  induction remaining as [|remaining IH]; intros i last st; [reflexivity|].
  rewrite retry_loop_step.
  destruct (attempt_result agent url accessToken i) as [e|res]; [|reflexivity].
  destruct (Js.includes _ _); [reflexivity|].
  destruct (last_attempt i maxRetries); [reflexivity|].
  cbn. apply IH.
Qed.

(** The sleeps and requests of the loop: some number of consecutive
    attempts, each one a request preceded, from the second on, by its
    backoff sleep. *)
Lemma retry_loop_schedule agent url accessToken maxRetries remaining :
  forall i last st,
  exists made : nat,
    (made <= remaining)%nat /\
    schedule (events (retry_loop agent url accessToken maxRetries remaining i last st))
      = flat_map backoff_then_request (attempts_from i made).
Proof.
  induction remaining as [|remaining IH]; intros i last st.
  - exists 0%nat. split; [lia|reflexivity].
  - rewrite retry_loop_step.
    destruct (attempt_result agent url accessToken i) as [e|res].
    2:{ exists 1%nat. split; [lia|]. cbn [events attempts_from flat_map].
        rewrite schedule_app, schedule_request_events. cbn. reflexivity. }
    destruct (Js.includes _ _).
    { exists 1%nat. split; [lia|]. cbn [events attempts_from flat_map].
      rewrite schedule_app, schedule_request_events. cbn. reflexivity. }
    destruct (last_attempt i maxRetries).
    { exists 1%nat. split; [lia|]. cbn [events attempts_from flat_map].
      rewrite schedule_app, schedule_request_events. cbn. reflexivity. }
    destruct (IH (i + 1) (Some e) st) as (made & Hle & Hs).
    exists (S made). split; [lia|]. cbn [events attempts_from flat_map].
    rewrite schedule_app, schedule_request_events. cbn [schedule].
    rewrite Hs. reflexivity.
Qed.

(** When every attempt from [i] to [maxRetries - 1] fails with an error
    the loop retries, the loop makes all of them and throws the exhaustion
    error built from the last one. *)
Lemma retry_loop_exhausts agent url accessToken (maxRetries : Z) (errors : Z -> Error)
    remaining :
  forall i last st,
    i + Z.of_nat (S remaining) = maxRetries ->
    (forall k, i <= k < maxRetries ->
       attempt_result agent url accessToken k = inl (errors k) /\
       Js.includes "Not a valid MXC URI" (message (errors k)) = false) ->
    let r := retry_loop agent url accessToken maxRetries (S remaining) i last st in
    outcome r = inl (exhausted maxRetries (errors (maxRetries - 1))) /\
    requests (events r) = attempts_from i (S remaining).
Proof.
  induction remaining as [|remaining IH]; intros i last st Hn Hfail r; subst r.
  - rewrite retry_loop_step.
    destruct (Hfail i ltac:(lia)) as [-> ->].
    rewrite last_attempt_of_Z.
    replace (i =? maxRetries - 1) with true by lia.
    replace (maxRetries - 1) with i by lia.
    cbn [outcome events]. split; [reflexivity|].
    rewrite requests_app, requests_request_events. reflexivity.
  - rewrite retry_loop_step.
    destruct (Hfail i ltac:(lia)) as [-> ->].
    rewrite last_attempt_of_Z.
    replace (i =? maxRetries - 1) with false by lia.
    cbn [outcome events].
    destruct (IH (i + 1) (Some (errors i)) st ltac:(lia)) as [Ho Hr].
    { intros k Hk. apply Hfail. lia. }
    split; [exact Ho|].
    rewrite requests_app, requests_request_events. cbn [requests app].
    rewrite Hr. reflexivity.
Qed.

(** A failed attempt is one whose [try] block throws. *)
Lemma failed_attempt_result agent url accessToken (i : Z) (e : Error) :
  failed_attempt (pool_request agent i (request_options url accessToken)) e ->
  attempt_result agent url accessToken i = inl e.
Proof.
  unfold failed_attempt, attempt_result.
  intros [->|(response & -> & [Hbroken|(Hstatus & text & Htext & ->)])];
    [reflexivity| |].
  - unfold read_response, body_text, body_drain. rewrite Hbroken.
    destruct ((statusCode response <? 200) || (300 <=? statusCode response));
      reflexivity.
  - unfold read_response.
    replace ((statusCode response <? 200) || (300 <=? statusCode response))
      with true by (symmetry; apply orb_true_iff; lia).
    rewrite Htext. reflexivity.
Qed.

(** When every attempt the loop condition lets through fails with an error the
    loop retries, the loop makes all of them.  It then throws the exhaustion
    error if [maxRetries] is an integer, and otherwise leaves the loop and
    throws the last error as it is. *)
Lemma retry_loop_all_fail agent url accessToken (maxRetries : JsNumber)
    (errors : Z -> Error) remaining :
  forall i last st,
    0 <= i ->
    i + Z.of_nat (S remaining) = Z.of_nat (iterations maxRetries) ->
    (forall k, i <= k < Z.of_nat (iterations maxRetries) ->
       attempt_result agent url accessToken k = inl (errors k) /\
       Js.includes "Not a valid MXC URI" (message (errors k)) = false) ->
    let r := retry_loop agent url accessToken maxRetries (S remaining) i last st in
    let final_attempt := Z.of_nat (iterations maxRetries) - 1 in
    outcome r = inl (match whole maxRetries with
                     | Some count => exhausted count (errors final_attempt)
                     | None => errors final_attempt
                     end) /\
    requests (events r) = attempts_from i (S remaining).
Proof.
  induction remaining as [|remaining IH]; intros i last st Hi Hn Hfail r final_attempt;
    subst r final_attempt.
  - rewrite retry_loop_step.
    destruct (Hfail i ltac:(lia)) as [-> ->].
    replace (Z.of_nat (iterations maxRetries) - 1) with i by lia.
    unfold last_attempt.
    destruct (whole maxRetries) as [count|] eqn:Hw.
    + apply whole_iterations in Hw.
      replace (i =? count - 1) with true by lia.
      cbn [outcome events]. split; [reflexivity|].
      rewrite requests_app, requests_request_events. reflexivity.
    + rewrite retry_loop_done. cbn [outcome events]. split; [reflexivity|].
      rewrite requests_app, requests_request_events. reflexivity.
  - rewrite retry_loop_step.
    destruct (Hfail i ltac:(lia)) as [-> ->].
    assert (Hlast : last_attempt i maxRetries = None).
    { unfold last_attempt. destruct (whole maxRetries) as [count|] eqn:Hw;
        [|reflexivity].
      apply whole_iterations in Hw. replace (i =? count - 1) with false by lia.
      reflexivity. }
    rewrite Hlast. cbn [outcome events].
    destruct (IH (i + 1) (Some (errors i)) st ltac:(lia) ltac:(lia)) as [Ho Hr].
    { intros k Hk. apply Hfail. lia. }
    split; [exact Ho|].
    rewrite requests_app, requests_request_events. cbn [requests app].
    rewrite Hr. reflexivity.
Qed.

(** When the attempts before [k] fail with errors the loop retries and
    the loop condition lets attempt [k] through, the loop reaches attempt [k]: its
    sleeps and requests begin with those of the attempts up to [k]. *)
Lemma retry_loop_reaches agent url accessToken maxRetries (k : Z) remaining :
  forall i last st,
    0 <= i <= k /\ k < i + Z.of_nat remaining ->
    i + Z.of_nat remaining = Z.of_nat (iterations maxRetries) ->
    (forall j, i <= j < k ->
       exists e, attempt_result agent url accessToken j = inl e /\
                 Js.includes "Not a valid MXC URI" (message e) = false) ->
    exists post,
      schedule (events (retry_loop agent url accessToken maxRetries remaining i last st))
        = flat_map backoff_then_request (attempts_from i (Z.to_nat (k - i + 1))) ++ post.
Proof.
  induction remaining as [|remaining IH]; intros i last st Hk Hn Hfail.
  - lia.
  - rewrite retry_loop_step.
    destruct (Z.eq_dec i k) as [->|Hne].
    + replace (Z.to_nat (k - k + 1)) with 1%nat by lia.
      cbn [attempts_from flat_map]. rewrite app_nil_r.
      destruct (attempt_result agent url accessToken k) as [e|res].
      2:{ exists []. cbn [events]. rewrite schedule_app, schedule_request_events.
          reflexivity. }
      destruct (Js.includes _ _).
      { exists []. cbn [events]. rewrite schedule_app, schedule_request_events.
        reflexivity. }
      destruct (last_attempt k maxRetries).
      { exists []. cbn [events]. rewrite schedule_app, schedule_request_events.
        reflexivity. }
      cbn [events]. rewrite schedule_app, schedule_request_events. cbn [schedule].
      eexists. reflexivity.
    + destruct (Hfail i ltac:(lia)) as (e & -> & ->).
      destruct (last_attempt i maxRetries) as [count|] eqn:Hlast.
      { apply last_attempt_last in Hlast. destruct Hlast as [-> Hw].
        apply whole_iterations in Hw. lia. }
      cbn [events].
      destruct (IH (i + 1) (Some e) st ltac:(lia) ltac:(lia)) as (post & Hs).
      { intros j Hj. apply Hfail. lia. }
      exists post.
      rewrite schedule_app, schedule_request_events. cbn [schedule]. rewrite Hs.
      replace (Z.to_nat (k - i + 1)) with (S (Z.to_nat (k - (i + 1) + 1))) by lia.
      cbn [attempts_from flat_map]. rewrite <- app_assoc. reflexivity.
Qed.

(** When the attempts before [k] fail with errors the loop retries and
    attempt [k] yields a result, the loop returns that result. *)
Lemma retry_loop_succeeds agent url accessToken maxRetries (k : Z) (result : DownloadResult)
    remaining :
  forall i last st,
    0 <= i <= k /\ k < i + Z.of_nat remaining ->
    i + Z.of_nat remaining = Z.of_nat (iterations maxRetries) ->
    (forall j, i <= j < k ->
       exists e, attempt_result agent url accessToken j = inl e /\
                 Js.includes "Not a valid MXC URI" (message e) = false) ->
    attempt_result agent url accessToken k = inr result ->
    let r := retry_loop agent url accessToken maxRetries remaining i last st in
    outcome r = inr result /\
    requests (events r) = attempts_from i (Z.to_nat (k - i + 1)).
Proof.
  induction remaining as [|remaining IH]; intros i last st Hk Hn Hfail Hok r; subst r.
  - lia.
  - rewrite retry_loop_step.
    destruct (Z.eq_dec i k) as [->|Hne].
    + rewrite Hok. cbn [outcome events]. split; [reflexivity|].
      rewrite requests_app, requests_request_events.
      replace (Z.to_nat (k - k + 1)) with 1%nat by lia. reflexivity.
    + destruct (Hfail i ltac:(lia)) as (e & -> & ->).
      destruct (last_attempt i maxRetries) as [count|] eqn:Hlast.
      { apply last_attempt_last in Hlast. destruct Hlast as [-> Hw].
        apply whole_iterations in Hw. lia. }
      cbn [outcome events].
      destruct (IH (i + 1) (Some e) st ltac:(lia) ltac:(lia)) as [Ho Hr]; [|exact Hok|].
      { intros j Hj. apply Hfail. lia. }
      split; [exact Ho|].
      rewrite requests_app, requests_request_events. cbn [requests app].
      rewrite Hr. replace (Z.to_nat (k - i + 1)) with (S (Z.to_nat (k - (i + 1) + 1))) by lia.
      reflexivity.
Qed.

(** *** downloadContent_v2 *)

(** The run of [downloadContent_v2], by the point at which it stops. *)
Lemma downloadContent_v2_run mxcUrl homeserverUrl accessToken allowRemote timeoutMs
    maxRetries st :
  let start := EvLog Debug "Starting download" in
  let probe := getMediaEndpointPrefix homeserverUrl accessToken st in
  let acquired := getSharedAgent homeserverUrl st in
  downloadContent_v2 mxcUrl homeserverUrl accessToken allowRemote timeoutMs maxRetries st =
  match parseMXCUrl mxcUrl with
  | inl err => mkRun (inl err) st [start; EvLog Err "Invalid MXC URL:"]
  | inr mxcComponents =>
      match outcome probe with
      | inl err => mkRun (inl err) st (start :: events probe)
      | inr endpoint =>
          match URL_new (download_path endpoint mxcComponents) (Some homeserverUrl) with
          | None => mkRun (inl (mkError "Invalid URL")) st (start :: events probe)
          | Some url =>
              match outcome acquired with
              | inl err =>
                  mkRun (inl err) (final acquired)
                    (start :: events probe ++ events acquired)
              | inr agent =>
                  let loop :=
                    retry_loop agent (with_query url allowRemote) accessToken maxRetries
                      (iterations maxRetries) 0 None (final acquired) in
                  mkRun (outcome loop) (final loop)
                    (start :: events probe ++ events acquired ++ events loop)
              end
          end
      end
  end.
Proof.
  intros start probe acquired. subst start probe acquired.
  unfold downloadContent_v2.
  destruct (getMediaEndpointPrefix_total homeserverUrl accessToken st)
    as (prefix & evs & Hp & _).
  rewrite (bind_ok _ _ st tt st [EvLog Debug "Starting download"]) by reflexivity.
  destruct (parseMXCUrl mxcUrl) as [err|c].
  { rewrite (bind_err _ _ st err st [EvLog Err "Invalid MXC URL:"]) by reflexivity.
    reflexivity. }
  rewrite (bind_ok _ _ st c st []) by reflexivity.
  rewrite (bind_ok _ _ st prefix st evs) by exact Hp.
  rewrite Hp. cbn [outcome final events app].
  unfold new_URL.
  destruct (URL_new (download_path prefix c) (Some homeserverUrl)) as [url|].
  2:{ rewrite (bind_err _ _ st (mkError "Invalid URL") st []) by reflexivity.
      cbn. rewrite app_nil_r. reflexivity. }
  rewrite (bind_ok _ _ st url st []) by reflexivity.
  destruct (getSharedAgent homeserverUrl st) as [[err|agent] st' evs'] eqn:Ha.
  - rewrite (bind_err _ _ st err st' evs') by exact Ha. reflexivity.
  - rewrite (bind_ok _ _ st agent st' evs') by exact Ha. reflexivity.
Qed.

(** *** Successful attempts *)

Lemma In_request_requests (p : Pool) (k : Z) (o : RequestOptions) (tr : list Event) :
  In (EvRequest p k o) tr -> In k (requests tr).
Proof.
  induction tr as [|ev tr IH]; [contradiction|].
  intros [->|Hin]; [left; reflexivity|].
  destruct ev; cbn; auto.
Qed.

Lemma In_request_events p k o agent url accessToken i :
  In (EvRequest p k o) (request_events agent url accessToken i) ->
  p = agent /\ k = i /\ o = request_options url accessToken.
Proof.
  unfold request_events, retry_events.
  destruct (0 <? i); cbn; intros H;
    repeat (destruct H as [H|H]; try discriminate; try contradiction);
    injection H as <- <- <-; auto.
Qed.

(** A request of the loop that is answered with a readable response ends
    the loop with the result read from it. *)
Lemma retry_loop_returns agent url accessToken maxRetries p k o response result remaining :
  forall i last st,
    In (EvRequest p k o)
       (events (retry_loop agent url accessToken maxRetries remaining i last st)) ->
    pool_request p k o = RequestResolved response ->
    read_response response = inr result ->
    outcome (retry_loop agent url accessToken maxRetries remaining i last st) = inr result.
Proof.
  induction remaining as [|remaining IH]; intros i last st Hin Hreq Hread.
  - contradiction.
  - rewrite retry_loop_step in Hin |- *.
    assert (Hhere : In (EvRequest p k o) (request_events agent url accessToken i) ->
                    attempt_result agent url accessToken i = inr result).
    { intros H. apply In_request_events in H as (-> & -> & ->).
      unfold attempt_result. rewrite Hreq. exact Hread. }
    destruct (attempt_result agent url accessToken i) as [e|res] eqn:Hres.
    2:{ cbn [events outcome] in *. apply in_app_or in Hin as [Hin|[Hin|[]]];
        [exact (Hhere Hin)|discriminate]. }
    destruct (Js.includes _ _).
    { cbn [events] in Hin. apply in_app_or in Hin as [Hin|[Hin|[]]];
        [specialize (Hhere Hin); discriminate|discriminate]. }
    destruct (last_attempt i maxRetries).
    { cbn [events] in Hin. apply in_app_or in Hin as [Hin|[Hin|[]]];
        [specialize (Hhere Hin); discriminate|discriminate]. }
    cbn [events outcome] in *.
    apply in_app_or in Hin as [Hin|[Hin|Hin]];
      [specialize (Hhere Hin); discriminate|discriminate|].
    exact (IH _ _ _ Hin Hreq Hread).
Qed.

Lemma read_response_success (response : Response) :
  200 <= statusCode response <= 299 ->
  failure (body response) = None ->
  read_response response =
    inr (mkDownloadResult (concat (chunks (body response)))
           (header_or (response_headers response) "content-type"
              "application/octet-stream")).
Proof.
  intros Hs Hf. unfold read_response, body_drain.
  replace (statusCode response <? 200) with false by lia.
  replace (300 <=? statusCode response) with false by lia.
  cbn. rewrite Hf. reflexivity.
Qed.

Lemma length_concat_bytes (l : list (list Byte.byte)) :
  length (concat l) = list_sum (map (@length Byte.byte) l).
Proof.
  induction l as [|c l IH]; cbn; [reflexivity|].
  rewrite length_app, IH. reflexivity.
Qed.

(** C4 (as amended).  Whenever a call issues a pooled request that is
    answered with a status in the 200-299 range and a body that streams to
    its end, the call returns a result whose payload is the concatenation of
    the body's chunks (so its length is the sum of their lengths) and whose
    content type is the content-type header of the response, or the generic
    octet-stream value when that header is absent or empty. *)
Theorem successful_attempt_result mxcUrl homeserverUrl accessToken allowRemote timeoutMs
    maxRetries st agent attempt opts response :
  let r := downloadContent_v2 mxcUrl homeserverUrl accessToken allowRemote timeoutMs
             maxRetries st in
  In (EvRequest agent attempt opts) (events r) ->
  pool_request agent attempt opts = RequestResolved response ->
  200 <= statusCode response <= 299 ->
  failure (body response) = None ->
  exists result,
    outcome r = inr result /\
    data result = concat (chunks (body response)) /\
    length (data result) = list_sum (map (@length Byte.byte) (chunks (body response))) /\
    contentType result =
      match JsValue.assoc "content-type" (response_headers response) with
      | Some value => if String.eqb value "" then "application/octet-stream" else value
      | None => "application/octet-stream"
      end.
Proof.
  intros r Hin Hreq Hstatus Hbody. subst r.
  pose proof (read_response_success response Hstatus Hbody) as Hread.
  exists (mkDownloadResult (concat (chunks (body response)))
            (header_or (response_headers response) "content-type"
               "application/octet-stream")).
  split; [|split; [reflexivity|split; [apply length_concat_bytes|]]].
  2:{ cbn [contentType]. unfold header_or, Js.truthy.
      destruct (JsValue.assoc "content-type" (response_headers response)) as [v|];
        [|reflexivity].
      destruct (String.eqb v ""); reflexivity. }
  rewrite downloadContent_v2_run in Hin |- *.
  destruct (getMediaEndpointPrefix_total homeserverUrl accessToken st)
    as (prefix & evs & Hp & _ & _ & Hpr & _).
  destruct (getSharedAgent_quiet homeserverUrl st) as [_ Har].
  assert (Hnone : forall tr, requests tr = [] -> ~ In (EvRequest agent attempt opts) tr).
  { intros tr Htr H. apply In_request_requests in H. rewrite Htr in H. exact H. }
  cbv zeta in Hin |- *. rewrite Hp in Hin |- *. cbn [outcome events] in Hin |- *.
  destruct (parseMXCUrl mxcUrl) as [err|c].
  { cbn in Hin. destruct Hin as [H|[H|[]]]; discriminate. }
  destruct (URL_new _ _) as [url|].
  2:{ cbn [events] in Hin. destruct Hin as [H|H]; [discriminate|].
      exfalso. exact (Hnone _ Hpr H). }
  destruct (outcome (getSharedAgent homeserverUrl st)) as [err|pool].
  { cbn [events] in Hin. destruct Hin as [H|H]; [discriminate|].
    apply in_app_or in H as [H|H]; exfalso; [exact (Hnone _ Hpr H)|exact (Hnone _ Har H)]. }
  cbn [events outcome] in Hin |- *. destruct Hin as [H|H]; [discriminate|].
  apply in_app_or in H as [H|H]; [exfalso; exact (Hnone _ Hpr H)|].
  apply in_app_or in H as [H|H]; [exfalso; exact (Hnone _ Har H)|].
  exact (retry_loop_returns _ _ _ _ _ _ _ _ _ _ _ _ _ H Hreq Hread).
Qed.

(** *** Exhausted retries *)

Lemma In_attempts_from (count : nat) :
  forall from i, In i (attempts_from from count) <-> from <= i < from + Z.of_nat count.
Proof.
  induction count as [|count IH]; intros from i; cbn [attempts_from In].
  - lia.
  - rewrite IH. lia.
Qed.

(** C5 (as amended).  For a call whose identifier parses, whose download
    URL and pool can be built, and with [0 < maxRetries]: if every attempt
    [i < maxRetries] fails (a rejected request, a status outside 200-299 or
    a broken body) with an error whose message does not contain
    "Not a valid MXC URI", then one attempt is made for each [i] from 0 that
    is below [maxRetries].  When [maxRetries] is an integer [n], these are
    the [n] attempts [0 .. n-1] and the call throws
    "Failed to download after n attempts: " followed by the message of the
    last error; when it is not, the loop ends after the last attempt below
    it and the call throws that attempt's error as it is. *)
Theorem retries_exhausted mxcUrl homeserverUrl accessToken allowRemote timeoutMs
    (maxRetries : JsNumber) st mxcComponents endpoint url agent (errors : Z -> Error) :
  below 0 maxRetries = true ->
  parseMXCUrl mxcUrl = inr mxcComponents ->
  outcome (getMediaEndpointPrefix homeserverUrl accessToken st) = inr endpoint ->
  URL_new (download_path endpoint mxcComponents) (Some homeserverUrl) = Some url ->
  outcome (getSharedAgent homeserverUrl st) = inr agent ->
  (forall i, 0 <= i -> below i maxRetries = true ->
     failed_attempt
       (pool_request agent i (request_options (with_query url allowRemote) accessToken))
       (errors i) /\
     Js.includes "Not a valid MXC URI" (message (errors i)) = false) ->
  let r := downloadContent_v2 mxcUrl homeserverUrl accessToken allowRemote timeoutMs
             maxRetries st in
  requests (events r) = attempts_from 0 (iterations maxRetries) /\
  (forall i, In i (requests (events r)) <-> 0 <= i /\ below i maxRetries = true) /\
  match whole maxRetries with
  | Some n =>
      1 <= n /\
      requests (events r) = attempts_from 0 (Z.to_nat n) /\
      outcome r =
        inl (mkError ("Failed to download after " ++ Js.string_of_Z n ++ " attempts: "
                        ++ message (errors (n - 1)))%string)
  | None =>
      outcome r = inl (errors (Z.of_nat (iterations maxRetries) - 1))
  end.
Proof.
  intros Hpos Hparse Hprobe Hurl Hagent Hfail r. subst r.
  rewrite downloadContent_v2_run. cbv zeta.
  rewrite Hparse, Hprobe, Hurl, Hagent.
  destruct (getMediaEndpointPrefix_total homeserverUrl accessToken st)
    as (prefix & evs & Hp & _ & _ & Hpr & _).
  destruct (getSharedAgent_quiet homeserverUrl st) as [_ Har].
  cbn [outcome events].
  apply (below_iterations 0 maxRetries ltac:(lia)) in Hpos.
  destruct (iterations maxRetries) as [|remaining] eqn:Hrem; [lia|].
  destruct (retry_loop_all_fail agent (with_query url allowRemote) accessToken maxRetries
              errors remaining 0 None (final (getSharedAgent homeserverUrl st)))
    as [Ho Hr]; [lia|rewrite Hrem; lia| |].
  { intros k Hk. rewrite Hrem in Hk.
    destruct (Hfail k ltac:(lia)) as [Hf Hn].
    { apply below_iterations; [lia|]. rewrite Hrem. lia. }
    split; [exact (failed_attempt_result _ _ _ _ _ Hf)|exact Hn]. }
  assert (Hreq : requests
                   (EvLog Debug "Starting download"
                      :: events (getMediaEndpointPrefix homeserverUrl accessToken st)
                      ++ events (getSharedAgent homeserverUrl st)
                      ++ events
                           (retry_loop agent (with_query url allowRemote) accessToken
                              maxRetries (S remaining) 0 None
                              (final (getSharedAgent homeserverUrl st))))
                 = attempts_from 0 (S remaining)).
  { cbn [requests]. rewrite !requests_app, Hr, Har. rewrite Hp. cbn [events].
    rewrite Hpr. reflexivity. }
  rewrite Hreq. split; [reflexivity|]. split.
  - intros i. rewrite In_attempts_from. split.
    + intros Hi. split; [lia|]. apply below_iterations; [lia|]. rewrite Hrem. lia.
    + intros [Hi Hb]. apply (below_iterations _ _ Hi) in Hb. rewrite Hrem in Hb. lia.
  - rewrite Hrem in Ho. destruct (whole maxRetries) as [n|] eqn:Hw.
    + apply whole_iterations in Hw. rewrite Hrem in Hw.
      split; [lia|]. split; [rewrite <- Hw; reflexivity|].
      rewrite Ho. replace (Z.of_nat (S remaining) - 1) with (n - 1) by lia.
      reflexivity.
    + exact Ho.
Qed.

(** *** Backoff *)

(** In a run of consecutive attempts from [a], what precedes the request
    of attempt [i]. *)
Lemma backoff_before_request (made : nat) :
  forall (a : Z) (pre : list Step) (i : Z) (post : list Step),
    0 <= a ->
    flat_map backoff_then_request (attempts_from a made) = pre ++ Requested i :: post ->
    (i = a /\ pre = if 0 <? a then [Slept (Z.min (1000 * 2 ^ (a - 1)) 8000)] else []) \/
    (a < i /\ exists pre',
        pre = pre' ++ [Requested (i - 1); Slept (Z.min (1000 * 2 ^ (i - 1)) 8000)]).
Proof.
  induction made as [|made IH]; intros a pre i post Ha H.
  - destruct pre; discriminate.
  - cbn [attempts_from flat_map] in H.
    assert (Hnext : forall lead pre2,
               flat_map backoff_then_request (attempts_from (a + 1) made)
                 = pre2 ++ Requested i :: post ->
               a < i /\ exists pre',
                 lead ++ Requested a :: pre2
                   = pre' ++ [Requested (i - 1); Slept (Z.min (1000 * 2 ^ (i - 1)) 8000)]).
    { intros lead pre2 H2.
      destruct (IH (a + 1) pre2 i post ltac:(lia) H2) as [[-> ->]|(Hlt & pre' & ->)].
      - split; [lia|]. exists lead.
        replace (0 <? a + 1) with true by lia.
        replace (a + 1 - 1) with a by lia. reflexivity.
      - split; [lia|]. exists (lead ++ Requested a :: pre').
        rewrite <- app_assoc. reflexivity. }
    unfold backoff_then_request at 1 in H.
    destruct (0 <? a) eqn:Hpos; cbn [app] in H.
    + destruct pre as [|s1 [|s2 pre2]]; cbn [app] in H.
      * discriminate.
      * injection H; intros; subst. left. auto.
      * injection H; intros H' ? ?; subst. right.
        exact (Hnext [Slept (Z.min (1000 * 2 ^ (a - 1)) 8000)] pre2 H').
    + destruct pre as [|s1 pre2]; cbn [app] in H.
      * injection H; intros; subst. left. auto.
      * injection H; intros H' ?; subst. right. exact (Hnext [] pre2 H').
Qed.

(** C6.  The sleeps and pooled requests of any call are those of some number
    [made] of consecutive attempts [0, 1, ...], each of them below
    [maxRetries]: each attempt is one request, preceded, when its index is
    positive, by one sleep of [min(1000 * 2^(attempt-1), 8000)] milliseconds.
    Hence the request of attempt 0 is the first step of the call, with no
    sleep before it, and the request of an attempt [i > 0] comes right after
    a sleep of exactly [min(1000 * 2^(i-1), 8000)] milliseconds that follows
    the request of attempt [i - 1].  And the attempts are made: once the
    identifier has parsed and the download URL and the pool are built, if
    the attempts before [k] fail with an error the loop retries and
    [k < maxRetries], then the call starts with the requests of the attempts
    [0 .. k], every one after the first behind its sleep. *)
Theorem backoff_schedule mxcUrl homeserverUrl accessToken allowRemote timeoutMs
    maxRetries st :
  let steps :=
    schedule (events (downloadContent_v2 mxcUrl homeserverUrl accessToken allowRemote
                        timeoutMs maxRetries st)) in
  (exists made : nat,
      (forall i, 0 <= i < Z.of_nat made -> below i maxRetries = true) /\
      steps = flat_map backoff_then_request (attempts_from 0 made)) /\
  (forall pre i post,
      steps = pre ++ Requested i :: post ->
      (i = 0 /\ pre = []) \/
      (0 < i /\ exists pre',
          pre = pre' ++ [Requested (i - 1); Slept (Z.min (1000 * 2 ^ (i - 1)) 8000)])) /\
  (forall mxcComponents endpoint url agent (k : Z),
      parseMXCUrl mxcUrl = inr mxcComponents ->
      outcome (getMediaEndpointPrefix homeserverUrl accessToken st) = inr endpoint ->
      URL_new (download_path endpoint mxcComponents) (Some homeserverUrl) = Some url ->
      outcome (getSharedAgent homeserverUrl st) = inr agent ->
      0 <= k ->
      below k maxRetries = true ->
      (forall j, 0 <= j < k ->
         exists e,
           failed_attempt
             (pool_request agent j
                (request_options (with_query url allowRemote) accessToken)) e /\
           Js.includes "Not a valid MXC URI" (message e) = false) ->
      exists post,
        steps = flat_map backoff_then_request (attempts_from 0 (Z.to_nat (k + 1)))
                  ++ post).
Proof.
  intros steps.
  assert (Hshape : exists made : nat,
             (made <= iterations maxRetries)%nat /\
             steps = flat_map backoff_then_request (attempts_from 0 made)).
  { subst steps. rewrite downloadContent_v2_run. cbv zeta.
    destruct (getMediaEndpointPrefix_total homeserverUrl accessToken st)
      as (prefix & evs & Hp & _ & Hps & _).
    destruct (getSharedAgent_quiet homeserverUrl st) as [Has _].
    rewrite Hp. cbn [outcome events].
    destruct (parseMXCUrl mxcUrl) as [err|c].
    { exists 0%nat. split; [lia|reflexivity]. }
    destruct (URL_new _ _) as [url|].
    2:{ exists 0%nat. split; [lia|]. cbn [events schedule]. exact Hps. }
    destruct (outcome (getSharedAgent homeserverUrl st)) as [err|agent].
    { exists 0%nat. split; [lia|]. cbn [events schedule].
      rewrite schedule_app, Hps, Has. reflexivity. }
    destruct (retry_loop_schedule agent (with_query url allowRemote) accessToken
                maxRetries (iterations maxRetries) 0 None
                (final (getSharedAgent homeserverUrl st))) as (made & Hle & Hs).
    exists made. split; [lia|]. cbn [events schedule].
    rewrite !schedule_app, Hps, Has, Hs. reflexivity. }
  split; [|split].
  - destruct Hshape as (made & Hle & Hs). exists made. split; [|exact Hs].
    intros i Hi. apply below_iterations; lia.
  - destruct Hshape as (made & _ & ->). intros pre i post H.
    destruct (backoff_before_request made 0 pre i post ltac:(lia) H) as [[-> ->]|Hr];
      [left; auto|right; exact Hr].
  - intros mxcComponents endpoint url agent k Hparse Hprobe Hurl Hagent Hk Hbelow Hfail.
    subst steps. rewrite downloadContent_v2_run. cbv zeta.
    rewrite Hparse, Hprobe, Hurl, Hagent.
    destruct (getMediaEndpointPrefix_total homeserverUrl accessToken st)
      as (prefix & evs & Hp & _ & Hps & _).
    destruct (getSharedAgent_quiet homeserverUrl st) as [Has _].
    apply (below_iterations _ _ Hk) in Hbelow.
    destruct (retry_loop_reaches agent (with_query url allowRemote) accessToken
                maxRetries k (iterations maxRetries) 0 None
                (final (getSharedAgent homeserverUrl st)))
      as (post & Hs); [lia|lia| |].
    { intros j Hj. destruct (Hfail j Hj) as (e & Hf & Hn). exists e.
      split; [exact (failed_attempt_result _ _ _ _ _ Hf)|exact Hn]. }
    exists post. cbn [events schedule].
    rewrite !schedule_app, Hs, Has. rewrite Hp. cbn [events]. rewrite Hps.
    replace (k - 0 + 1) with (k + 1) by lia. reflexivity.
Qed.

(** *** Parse failures *)

(** C7.  When [parseMXCUrl] rejects the identifier, [downloadContent_v2]
    throws that very error at once, whatever [maxRetries] is: besides its two
    log lines the call has no effect, so it performs no sleep, no version
    probe and no pooled request, and it leaves the pool and its reference
    count untouched. *)
Theorem parse_failure_propagates mxcUrl homeserverUrl accessToken allowRemote timeoutMs
    maxRetries st err :
  parseMXCUrl mxcUrl = inl err ->
  let r := downloadContent_v2 mxcUrl homeserverUrl accessToken allowRemote timeoutMs
             maxRetries st in
  outcome r = inl err /\
  final r = st /\
  events r = [EvLog Debug "Starting download"; EvLog Err "Invalid MXC URL:"] /\
  schedule (events r) = [] /\
  fetches (events r) = [] /\
  requests (events r) = [] /\
  pool_steps (events r) = [].
Proof.
  intros Hparse r. subst r. rewrite downloadContent_v2_run. cbv zeta.
  rewrite Hparse. cbn. repeat split; reflexivity.
Qed.

(** *** The timeout budget *)

(** C9.  Two calls that differ only in [timeoutMs] run identically against
    the same platform: the same outcome (result or error), the same final
    module state and the same events, hence the same requests.  The parameter
    is bound and never read. *)
Theorem timeout_budget_unused mxcUrl homeserverUrl accessToken allowRemote
    (t1 t2 : Z) maxRetries st :
  downloadContent_v2 mxcUrl homeserverUrl accessToken allowRemote t1 maxRetries st =
  downloadContent_v2 mxcUrl homeserverUrl accessToken allowRemote t2 maxRetries st.
Proof. reflexivity. Qed.

(** *** No attempts allowed *)

(** C10 (as amended).  For an identifier that parses and a homeserver URL
    from which the download URL and the pool can be built, a call with
    [maxRetries <= 0] never enters the loop body: it issues no pooled
    request, performs no sleep, and throws the plain error "Download failed
    for unknown reason".  The same holds of every [maxRetries] for which the
    loop condition [0 < maxRetries] fails, an integer or not, [NaN]
    included. *)
Theorem no_attempt_without_retries mxcUrl homeserverUrl accessToken allowRemote
    timeoutMs maxRetries st mxcComponents endpoint url agent :
  parseMXCUrl mxcUrl = inr mxcComponents ->
  outcome (getMediaEndpointPrefix homeserverUrl accessToken st) = inr endpoint ->
  URL_new (download_path endpoint mxcComponents) (Some homeserverUrl) = Some url ->
  outcome (getSharedAgent homeserverUrl st) = inr agent ->
  below 0 maxRetries = false ->
  let r := downloadContent_v2 mxcUrl homeserverUrl accessToken allowRemote timeoutMs
             maxRetries st in
  outcome r = inl (mkError "Download failed for unknown reason") /\
  requests (events r) = [] /\
  schedule (events r) = [].
Proof.
  intros Hparse Hprobe Hurl Hagent Hmax r. subst r.
  rewrite downloadContent_v2_run. cbv zeta.
  rewrite Hparse, Hprobe, Hurl, Hagent.
  destruct (getMediaEndpointPrefix_total homeserverUrl accessToken st)
    as (prefix & evs & Hp & _ & Hps & Hpr & _).
  destruct (getSharedAgent_quiet homeserverUrl st) as [Has Har].
  assert (Hnone : iterations maxRetries = 0%nat).
  { destruct (iterations maxRetries) as [|remaining] eqn:Hrem; [reflexivity|].
    assert (below 0 maxRetries = true) by (apply below_iterations; lia).
    congruence. }
  rewrite Hnone, retry_loop_done. rewrite Hp. cbn [outcome events schedule requests].
  rewrite !requests_app, !schedule_app, Hps, Hpr, Has, Har. auto.
Qed.

(** *** The pool's reference count *)

Lemma acquire_all_existing (urls : list string) :
  forall (st : ModuleState) (agent : Pool),
    sharedAgent st = Some agent ->
    acquire_all urls st =
      mkRun (inr (repeat agent (length urls)))
        (mkState (Some agent) (agentRefCount st + Z.of_nat (length urls)) (poolsCreated st))
        [].
Proof.
  induction urls as [|u urls IH]; intros st agent Hs.
  - cbn. unfold ret. destruct st as [sa rc pc]. cbn in *. subst sa.
    rewrite Z.add_0_r. reflexivity.
  - cbn [acquire_all].
    rewrite (bind_ok _ _ _ _ _ _ (getSharedAgent_existing u st agent Hs)).
    rewrite (bind_ok _ _ _ _ _ _
               (IH (mkState (Some agent) (agentRefCount st + 1) (poolsCreated st))
                   agent eq_refl)).
    cbn. do 2 f_equal. lia.
Qed.

Lemma release_times_closes (n : nat) :
  forall (st : ModuleState) (agent : Pool),
    sharedAgent st = Some agent ->
    agentRefCount st = Z.of_nat (S n) ->
    release_times (S n) st =
      mkRun (inr tt) (mkState None 0 (poolsCreated st))
        [EvPoolClose agent; EvLog Debug "Closed HTTP/2 connection pool"].
Proof.
  induction n as [|n IH]; intros st agent Hs Hc.
  - cbn [release_times]. unfold bind. rewrite releaseDownloadAgent_run, Hs, Hc. reflexivity.
  - change (release_times (S (S n))) with (releaseDownloadAgent ;; release_times (S n)).
    assert (Hrel : releaseDownloadAgent st =
                   mkRun (inr tt)
                     (mkState (Some agent) (agentRefCount st - 1) (poolsCreated st)) []).
    { rewrite releaseDownloadAgent_run, Hs.
      replace (agentRefCount st - 1 <=? 0) with false by lia. reflexivity. }
    rewrite (bind_ok _ _ _ _ _ _ Hrel).
    rewrite (IH (mkState (Some agent) (agentRefCount st - 1) (poolsCreated st))
               agent eq_refl) by (cbn [agentRefCount]; lia).
    reflexivity.
Qed.

(** C8.  From the state with no pool and a zero count, let callers acquire
    the pool N times (the first URL must be one [new URL] accepts) and then
    release it N times.  Every acquisition succeeds and returns one and the
    same pool, the one constructed by the first; after the acquisitions that
    pool is the shared one and the count is N; after the releases there is no
    shared pool, the count is 0, and the only pool constructed has been
    closed.  With N = 0 nothing happens at all. *)
Theorem acquire_release_round_trip (urls : list string) (st : ModuleState) :
  sharedAgent st = None ->
  agentRefCount st = 0 ->
  (forall first, hd_error urls = Some first -> URL_new first None <> None) ->
  let acquired := acquire_all urls st in
  let released := release_times (length urls) (final acquired) in
  (exists pools,
      outcome acquired = inr pools /\
      length pools = length urls /\
      agentRefCount (final acquired) = Z.of_nat (length urls) /\
      (forall p, In p pools ->
         sharedAgent (final acquired) = Some p /\
         pool_steps (events acquired ++ events released) = [Created p; Closed p])) /\
  (urls = [] -> events acquired ++ events released = []) /\
  outcome released = inr tt /\
  sharedAgent (final released) = None /\
  agentRefCount (final released) = 0.
Proof.
  intros Hs Hc Hurl acquired released.
  destruct urls as [|first urls].
  - subst acquired released. cbn. repeat split; auto.
    exists []. cbn. repeat split; auto; contradiction.
  - destruct (URL_new first None) as [u|] eqn:Hu; [|exfalso; exact (Hurl first eq_refl Hu)].
    pose (agent := mkPool (poolsCreated st) (origin u) pool_settings).
    assert (Hacq : acquired =
              mkRun (inr (agent :: repeat agent (length urls)))
                (mkState (Some agent) (Z.of_nat (length (first :: urls)))
                   (S (poolsCreated st)))
                [EvPoolCreate agent; EvLog Debug "Created HTTP/2 capable connection pool for"]).
    { subst acquired. cbn [acquire_all].
      rewrite (bind_ok _ _ _ _ _ _ (getSharedAgent_fresh first st u Hs Hu)).
      rewrite (bind_ok _ _ _ _ _ _
                 (acquire_all_existing urls
                    (mkState (Some agent) 1 (S (poolsCreated st))) agent eq_refl)).
      unfold ret. cbn [outcome final events app agentRefCount poolsCreated length].
      do 2 f_equal. lia. }
    assert (Hrel : released =
              mkRun (inr tt) (mkState None 0 (S (poolsCreated st)))
                [EvPoolClose agent; EvLog Debug "Closed HTTP/2 connection pool"]).
    { subst released. rewrite Hacq. cbn [final length].
      rewrite (release_times_closes (length urls)
                 (mkState (Some agent) (Z.of_nat (S (length urls))) (S (poolsCreated st)))
                 agent eq_refl) by reflexivity.
      reflexivity. }
    rewrite Hacq, Hrel. cbn [outcome final events sharedAgent agentRefCount].
    repeat split; try discriminate.
    exists (agent :: repeat agent (length urls)).
    repeat split.
    + cbn. rewrite repeat_length. reflexivity.
    + assert (p = agent) as -> by (destruct H as [<-|H]; [reflexivity|exact (repeat_spec _ _ _ H)]).
      reflexivity.
    + assert (p = agent) as -> by (destruct H as [<-|H]; [reflexivity|exact (repeat_spec _ _ _ H)]).
      reflexivity.
Qed.

End Runs.

(** ** The version pattern *)

Section PatternFacts.

Import Regex.

Lemma full_match_Fail (s : string) : full_match Fail s = false.
Proof. induction s; cbn; auto. Qed.

Lemma full_match_Eps (s : string) : full_match Eps s = String.eqb s "".
Proof. destruct s; cbn; [reflexivity|apply full_match_Fail]. Qed.

Lemma full_match_Alt (r1 r2 : regex) (s : string) :
  full_match (Alt r1 r2) s = full_match r1 s || full_match r2 s.
Proof. revert r1 r2. induction s as [|c s IH]; intros; cbn; auto. Qed.

Lemma full_match_Seq_Fail (r : regex) (s : string) : full_match (Seq Fail r) s = false.
Proof. induction s; cbn; auto. Qed.

Lemma full_match_Seq_Eps (r : regex) (s : string) :
  full_match (Seq Eps r) s = full_match r s.
Proof.
  destruct s as [|c s]; cbn; [reflexivity|].
  rewrite full_match_Alt, full_match_Seq_Fail. reflexivity.
Qed.

Lemma full_match_Seq_Chr (a : ascii) (r : regex) (s : string) :
  full_match (Seq (Chr a) r) s =
  match s with
  | String c s' => Ascii.eqb a c && full_match r s'
  | EmptyString => false
  end.
Proof.
  destruct s as [|c s]; cbn; [reflexivity|].
  destruct (Ascii.eqb a c); cbn;
    [apply full_match_Seq_Eps|apply full_match_Seq_Fail].
Qed.

Lemma full_match_Seq_Range (lo hi : ascii) (r : regex) (s : string) :
  full_match (Seq (Range lo hi) r) s =
  match s with
  | String c s' => in_range lo hi c && full_match r s'
  | EmptyString => false
  end.
Proof.
  destruct s as [|c s]; cbn; [reflexivity|].
  destruct (in_range lo hi c); cbn;
    [apply full_match_Seq_Eps|apply full_match_Seq_Fail].
Qed.

Lemma full_match_Range (lo hi : ascii) (s : string) :
  full_match (Range lo hi) s =
  match s with
  | String c EmptyString => in_range lo hi c
  | _ => false
  end.
Proof.
  destruct s as [|c s]; cbn; [reflexivity|].
  destruct (in_range lo hi c).
  - rewrite full_match_Eps. destruct s; reflexivity.
  - rewrite full_match_Fail. destruct s; reflexivity.
Qed.

(** The pattern read off the string: "v1." and two digits, "1" then 1-9 or
    2-9 then 0-9. *)
Lemma v1_11_pattern_shape (s : string) :
  full_match v1_11_pattern s =
  match s with
  | String c1 (String c2 (String c3 (String d1 (String d2 EmptyString)))) =>
      Ascii.eqb "v" c1 && (Ascii.eqb "1" c2 && (Ascii.eqb "." c3 &&
        ((Ascii.eqb "1" d1 && in_range "1" "9" d2)
         || (in_range "2" "9" d1 && in_range "0" "9" d2))))
  | _ => false
  end.
Proof.
  unfold v1_11_pattern.
  rewrite full_match_Seq_Chr. destruct s as [|c1 s]; [reflexivity|].
  rewrite full_match_Seq_Chr. destruct s as [|c2 s]; [apply andb_false_r|].
  rewrite full_match_Seq_Chr. destruct s as [|c3 s]; [now rewrite !andb_false_r|].
  rewrite full_match_Alt, full_match_Seq_Chr, full_match_Seq_Range.
  destruct s as [|d1 s]; [now rewrite !andb_false_r|].
  rewrite !full_match_Range.
  destruct s as [|d2 [|d3 s]]; rewrite ?andb_false_r; cbn [orb]; rewrite ?andb_false_r;
    reflexivity.
Qed.

Lemma in_range_code (lo hi c : ascii) :
  in_range lo hi c = true ->
  exists n : N, c = ascii_of_N n /\ (N_of_ascii lo <= n <= N_of_ascii hi)%N.
Proof.
  unfold in_range. intros H. apply andb_prop in H as [H1 H2].
  exists (N_of_ascii c). split; [symmetry; apply ascii_N_embedding|].
  apply N.leb_le in H1, H2. auto.
Qed.

(** A character in the range 0-9 is one of the ten digits. *)
Lemma digit_cases (lo hi c : ascii) :
  in_range lo hi c = true ->
  (48 <= N_of_ascii lo)%N -> (N_of_ascii hi <= 57)%N ->
  In c ["0"; "1"; "2"; "3"; "4"; "5"; "6"; "7"; "8"; "9"]%char /\
  in_range lo hi c = true.
Proof.
  intros H Hlo Hhi. split; [|exact H].
  apply in_range_code in H as (n & -> & Hn).
  assert (Hcases : (n = 48 \/ n = 49 \/ n = 50 \/ n = 51 \/ n = 52 \/ n = 53 \/ n = 54
                    \/ n = 55 \/ n = 56 \/ n = 57)%N) by lia.
  clear Hn. cbn.
  repeat (destruct Hcases as [->|Hcases]; [tauto|]). subst n. tauto.
Qed.

(** The strings the pattern accepts are "v1.11" to "v1.99": minor versions
    with two digits, from 11 on. *)
Lemma v1_11_pattern_accepts (s : string) :
  full_match v1_11_pattern s = true <->
  exists minor : Z, 11 <= minor <= 99 /\ s = ("v1." ++ Js.string_of_Z minor)%string.
Proof.
  split.
  - rewrite v1_11_pattern_shape.
    destruct s as [|c1 [|c2 [|c3 [|d1 [|d2 [|d3 s]]]]]]; try discriminate.
    intros H.
    apply andb_prop in H as [H1 H]. apply andb_prop in H as [H2 H].
    apply andb_prop in H as [H3 H].
    apply Ascii.eqb_eq in H1, H2, H3. subst c1 c2 c3.
    exists (10 * (Z.of_N (N_of_ascii d1) - 48) + (Z.of_N (N_of_ascii d2) - 48)).
    apply orb_prop in H as [H|H]; apply andb_prop in H as [Hd1 Hd2].
    + apply Ascii.eqb_eq in Hd1. subst d1.
      apply digit_cases in Hd2 as [Hd2 Hr]; [|cbn; lia|cbn; lia].
      cbn [In] in Hd2.
      repeat (destruct Hd2 as [<-|Hd2]; [first [discriminate Hr | (split; [cbn; lia|reflexivity])]|]).
      contradiction.
    + apply digit_cases in Hd1 as [Hd1 Hr1]; [|cbn; lia|cbn; lia].
      apply digit_cases in Hd2 as [Hd2 Hr2]; [|cbn; lia|cbn; lia].
      cbn [In] in Hd1, Hd2.
      repeat (destruct Hd1 as [<-|Hd1]; [try discriminate Hr1|]); try contradiction;
      repeat (destruct Hd2 as [<-|Hd2]; [split; [cbn; lia|reflexivity]|]);
      contradiction.
  - intros (minor & Hm & ->).
    assert (Hall : forallb (fun k => full_match v1_11_pattern
                                      ("v1." ++ Js.string_of_Z (11 + Z.of_nat k))%string)
                     (seq 0 89) = true) by (vm_compute; reflexivity).
    rewrite forallb_forall in Hall.
    specialize (Hall (Z.to_nat (minor - 11))).
    replace (11 + Z.of_nat (Z.to_nat (minor - 11))) with minor in Hall by lia.
    apply Hall. apply in_seq. lia.
Qed.

End PatternFacts.

(** ** The resolver on a well-formed body *)

Lemma array_some_strings (re : Regex.regex) (vs : list string) :
  JsValue.array_some (JsValue.matches re) (map JString vs)
    = inr (existsb (Regex.full_match re) vs).
Proof.
  induction vs as [|v vs IH]; cbn; [reflexivity|].
  destruct (Regex.full_match re v); [reflexivity|exact IH].
Qed.

(** When the probe answers 200 with a list of version strings, the modern
    prefix is chosen exactly when one of them is "v1." followed by a minor
    version between 11 and 99. *)
Lemma getMediaEndpointPrefix_versions (vs : list string) answers
    (homeserverUrl accessToken : string) (st : ModuleState) :
  Js.startsWith "http" homeserverUrl = true ->
  outcome (getMediaEndpointPrefix (platform := example_platform (versions_body vs) answers)
             homeserverUrl accessToken st) = inr modern_prefix <->
  exists v minor, In v vs /\ 11 <= minor <= 99 /\ v = ("v1." ++ Js.string_of_Z minor)%string.
Proof.
  intros Hurl. rewrite getMediaEndpointPrefix_modern. cbn [URL_new fetch example_platform].
  rewrite Hurl. unfold versions_body. split.
  - intros (u & r & j & _ & Hf & _ & Hj & Hs).
    injection Hf as <-. cbn in Hj. injection Hj as <-.
    cbn in Hs. rewrite array_some_strings in Hs. injection Hs as Hs.
    apply existsb_exists in Hs as (v & Hin & Hv).
    apply v1_11_pattern_accepts in Hv as (minor & Hm & ->). eauto.
  - intros (v & minor & Hin & Hm & ->).
    eexists _, _, _. split; [reflexivity|]. split; [reflexivity|].
    split; [reflexivity|]. split; [reflexivity|].
    cbn. rewrite array_some_strings. f_equal. apply existsb_exists.
    eexists. split; [exact Hin|]. apply v1_11_pattern_accepts. eauto.
Qed.

(** C2 (failing input).  A server that answers the version probe with
    status 200 and the body {"versions": ["v1.100"]} advertises major version
    1 with minor 100, which is at least 11; yet the pattern does not match
    "v1.100" and the resolver returns the legacy prefix. *)
Theorem getMediaEndpointPrefix_misses_v1_100 :
  VersionSpec.v1_11_or_later "v1.100" /\
  fetch (Platform := Scenario.advertises_v1_100)
        "https://matrix.example.org/_matrix/client/versions"
        [("Authorization", "Bearer syt_token")]
    = versions_body ["v1.100"] /\
  Regex.full_match v1_11_pattern "v1.100" = false /\
  outcome (getMediaEndpointPrefix (platform := Scenario.advertises_v1_100)
             Scenario.homeserver Scenario.token initial_state)
    = inr legacy_prefix.
Proof.
  split; [|split; [|split]]; try reflexivity.
  exists 100. split; [lia|reflexivity].
Qed.

(** ** Releasing without a pool *)

(** Releasing when there is no pool only decrements the count. *)
Lemma release_without_pool (st : ModuleState) :
  sharedAgent st = None ->
  releaseDownloadAgent st =
    mkRun (inr tt) (mkState None (agentRefCount st - 1) (poolsCreated st)) [].
Proof. intros Hs. rewrite releaseDownloadAgent_run, Hs. reflexivity. Qed.

(** While a pool exists, the count stays at least 1 or the pool is closed
    and the count reset to 0. *)
Lemma release_with_pool (st : ModuleState) (agent : Pool) :
  sharedAgent st = Some agent ->
  1 <= agentRefCount st ->
  let st' := final (releaseDownloadAgent st) in
  (sharedAgent st' = Some agent /\ 1 <= agentRefCount st') \/
  (sharedAgent st' = None /\ agentRefCount st' = 0).
Proof.
  intros Hs Hc. cbv zeta. rewrite releaseDownloadAgent_run, Hs.
  destruct (Z.leb_spec (agentRefCount st - 1) 0); cbn; [right|left]; split; auto; lia.
Qed.

Lemma releaseDownloadAgent_coherent (st : ModuleState) :
  coherent st -> coherent (final (releaseDownloadAgent st)).
Proof.
  unfold coherent. rewrite releaseDownloadAgent_run.
  destruct (sharedAgent st) as [agent|]; [|cbn; lia].
  destruct (Z.leb_spec (agentRefCount st - 1) 0); cbn; lia.
Qed.

Lemma getSharedAgent_coherent {platform : Platform} (homeserverUrl : string)
    (st : ModuleState) :
  coherent st -> coherent (final (getSharedAgent homeserverUrl st)).
Proof.
  unfold coherent. destruct (sharedAgent st) as [agent|] eqn:Hs.
  - rewrite (getSharedAgent_existing _ _ _ Hs). cbn. lia.
  - destruct (URL_new homeserverUrl None) as [u|] eqn:Hu.
    + rewrite (getSharedAgent_fresh _ _ _ Hs Hu). cbn. lia.
    + rewrite (getSharedAgent_invalid _ _ Hs Hu). cbn [final]. rewrite Hs. auto.
Qed.

(** A count driven below zero is forgotten by the next acquisition, which
    creates a pool and sets the count to 1. *)
Lemma acquire_after_over_release {platform : Platform} (homeserverUrl : string)
    (st : ModuleState) (u : URL) :
  sharedAgent st = None ->
  URL_new homeserverUrl None = Some u ->
  agentRefCount (final (getSharedAgent homeserverUrl st)) = 1.
Proof. intros Hs Hu. rewrite (getSharedAgent_fresh _ _ _ Hs Hu). reflexivity. Qed.

(** C3 (failing input).  In the initial state of the module, with no pool
    and a reference count of 0, a call of [releaseDownloadAgent] leaves the
    count at -1; a second call leaves it at -2. *)
Theorem release_at_zero_goes_negative :
  sharedAgent initial_state = None /\
  agentRefCount initial_state = 0 /\
  agentRefCount (final (releaseDownloadAgent initial_state)) = -1 /\
  agentRefCount (final (release_times 2 initial_state)) = -2.
Proof. repeat split. Qed.

(** The same through the exported functions alone: a download that fails
    on its identifier, followed by the release of the caller's teardown. *)
Example release_after_failed_download :
  agentRefCount
    (final ((try_catch
               (downloadContent_v2 (platform := Scenario.unavailable)
                  (Some "invalid-url") Scenario.homeserver Scenario.token true 5000 3 ;;
                ret tt)
               (fun _ => ret tt) ;;
             releaseDownloadAgent) initial_state)) = -1.
Proof. reflexivity. Qed.

(** ** Concrete runs *)

(** C4 (counterexample).  The server answers the first request 200 with a
    content-type header that is present and empty.  The call returns the
    body, but with the octet-stream content type, not the header's value. *)
Lemma empty_content_type_defaulted :
  let r := downloadContent_v2 (platform := Scenario.empty_content_type)
             Scenario.media Scenario.homeserver Scenario.token true 30000 3
             initial_state in
  (exists agent opts response,
      In (EvRequest agent 0 opts) (events r) /\
      pool_request (Platform := Scenario.empty_content_type) agent 0 opts
        = RequestResolved response /\
      statusCode response = 200 /\
      failure (body response) = None /\
      JsValue.assoc "content-type" (response_headers response) = Some "") /\
  outcome r = inr (mkDownloadResult (bytes_of "abc") "application/octet-stream") /\
  "application/octet-stream" <> "".
Proof.
  cbv zeta. split; [|split; [vm_compute; reflexivity|discriminate]].
  eexists _, _, _. split; [|split; [reflexivity|split; [reflexivity|split; reflexivity]]].
  vm_compute. repeat (first [left; reflexivity | right]).
Qed.

(** A run to which C4 applies: the first request is answered 200 with an
    image/png body. *)
Lemma successful_attempt_result_witness :
  exists result,
    outcome (downloadContent_v2 (platform := Scenario.serves_png)
               Scenario.media Scenario.homeserver Scenario.token true 30000 3
               initial_state) = inr result /\
    data result = concat (chunks (mkBody [bytes_of "abc"] None)) /\
    length (data result) = list_sum (map (@length Byte.byte) [bytes_of "abc"]) /\
    contentType result = "image/png".
Proof.
  apply (successful_attempt_result (platform := Scenario.serves_png)
           Scenario.media Scenario.homeserver Scenario.token true 30000 3 initial_state
           (mkPool 0 Scenario.homeserver pool_settings) 0
           (request_options
              (mkURL Scenario.homeserver "/_matrix/client/v1/media/download/example.org/abc123" "")
              Scenario.token)
           (mkResponse 200 [("content-type", "image/png")] (mkBody [bytes_of "abc"] None))).
  - vm_compute. repeat (first [left; reflexivity | right]).
  - reflexivity.
  - cbn. lia.
  - reflexivity.
Defined.

(** C5 (counterexample).  Every request is answered 400, a non-success
    status, with the body "Not a valid MXC URI".  With [maxRetries = 3] the
    call makes one attempt only and throws the HTTP error itself, not the
    exhaustion error. *)
Lemma http_error_interrupts_loop :
  let r := downloadContent_v2 (platform := Scenario.rejects_identifier)
             Scenario.media Scenario.homeserver Scenario.token true 30000 3
             initial_state in
  (forall agent i opts,
      pool_request (Platform := Scenario.rejects_identifier) agent i opts
        = http_response 400 [] "Not a valid MXC URI") /\
  requests (events r) = [0] /\
  requests (events r) <> attempts_from 0 3 /\
  outcome r = inl (mkError "HTTP 400: Not a valid MXC URI") /\
  outcome r <> inl (exhausted 3 (mkError "HTTP 400: Not a valid MXC URI")).
Proof.
  cbv zeta. split; [reflexivity|].
  split; [vm_compute; reflexivity|].
  split; [vm_compute; discriminate|].
  split; [vm_compute; reflexivity|].
  vm_compute. discriminate.
Qed.

(** A run to which C5 applies: three attempts, each answered 503. *)
Lemma retries_exhausted_witness :
  let r := downloadContent_v2 (platform := Scenario.unavailable)
             Scenario.media Scenario.homeserver Scenario.token true 30000 3
             initial_state in
  requests (events r) = [0; 1; 2] /\
  (forall i, In i (requests (events r)) <-> 0 <= i /\ below i 3 = true) /\
  1 <= 3 /\
  requests (events r) = [0; 1; 2] /\
  outcome r = inl (mkError "Failed to download after 3 attempts: HTTP 503: down").
Proof.
  apply (retries_exhausted (platform := Scenario.unavailable)
           Scenario.media Scenario.homeserver Scenario.token true 30000 3 initial_state
           (mkMXC "example.org" "abc123") legacy_prefix
           (mkURL Scenario.homeserver "/_matrix/media/v3/download/example.org/abc123" "")
           (mkPool 0 Scenario.homeserver pool_settings)
           (fun _ => mkError "HTTP 503: down")).
  - reflexivity.
  - reflexivity.
  - reflexivity.
  - reflexivity.
  - reflexivity.
  - intros i _ _. split; [|reflexivity].
    right. exists (mkResponse 503 [] (mkBody [bytes_of "down"] None)).
    split; [reflexivity|]. right. split; [right; cbn; lia|].
    exists "down"%string. split; reflexivity.
Defined.

(** With [maxRetries = 2.5] the same server is asked three times and the
    call throws the last error as it is, without the exhaustion wrapper. *)
Example fractional_retries :
  let r := downloadContent_v2 (platform := Scenario.unavailable)
             Scenario.media Scenario.homeserver Scenario.token true 30000
             (Num (5 # 2)) initial_state in
  requests (events r) = [0; 1; 2] /\
  outcome r = inl (mkError "HTTP 503: down").
Proof. split; reflexivity. Qed.

(** A run to which C7 applies: an https URL in place of the identifier. *)
Lemma parse_failure_propagates_witness :
  let r := downloadContent_v2 (platform := Scenario.unavailable)
             (Some "https://example.com/image.png") Scenario.homeserver Scenario.token
             true 1000 3 initial_state in
  outcome r = inl (mkError "Not a valid MXC URI") /\
  final r = initial_state /\
  events r = [EvLog Debug "Starting download"; EvLog Err "Invalid MXC URL:"] /\
  schedule (events r) = [] /\
  fetches (events r) = [] /\
  requests (events r) = [] /\
  pool_steps (events r) = [].
Proof.
  apply (parse_failure_propagates (platform := Scenario.unavailable)
           (Some "https://example.com/image.png") Scenario.homeserver Scenario.token
           true 1000 3 initial_state (mkError "Not a valid MXC URI")).
  reflexivity.
Defined.

(** A run to which C8 applies: three acquisitions, three releases. *)
Lemma acquire_release_round_trip_witness :
  let urls := [Scenario.homeserver; Scenario.homeserver; "https://other.example.org"] in
  let acquired := acquire_all (platform := Scenario.unavailable) urls initial_state in
  let released := release_times (length urls) (final acquired) in
  (exists pools,
      outcome acquired = inr pools /\
      length pools = length urls /\
      agentRefCount (final acquired) = Z.of_nat (length urls) /\
      (forall p, In p pools ->
         sharedAgent (final acquired) = Some p /\
         pool_steps (events acquired ++ events released) = [Created p; Closed p])) /\
  (urls = [] -> events acquired ++ events released = []) /\
  outcome released = inr tt /\
  sharedAgent (final released) = None /\
  agentRefCount (final released) = 0.
Proof.
  apply (acquire_release_round_trip (platform := Scenario.unavailable)
           [Scenario.homeserver; Scenario.homeserver; "https://other.example.org"]
           initial_state).
  - reflexivity.
  - reflexivity.
  - intros first Hfirst. injection Hfirst as <-. discriminate.
Defined.

(** C10 (counterexample).  The identifier parses, [maxRetries] is 0, but the
    homeserver URL lacks its scheme and [new URL] rejects it: the call
    throws "Invalid URL", not "Download failed for unknown reason". *)
Lemma invalid_homeserver_url_error :
  let r := downloadContent_v2 (platform := Scenario.unavailable)
             Scenario.media "matrix.example.org" Scenario.token true 30000 0
             initial_state in
  parseMXCUrl Scenario.media = inr (mkMXC "example.org" "abc123") /\
  outcome r = inl (mkError "Invalid URL") /\
  outcome r <> inl (mkError "Download failed for unknown reason").
Proof.
  cbv zeta. split; [reflexivity|]. split; [reflexivity|]. vm_compute. discriminate.
Qed.

(** A run to which C10 applies: a valid homeserver URL and no attempt
    allowed. *)
Lemma no_attempt_without_retries_witness :
  let r := downloadContent_v2 (platform := Scenario.unavailable)
             Scenario.media Scenario.homeserver Scenario.token true 30000 0
             initial_state in
  outcome r = inl (mkError "Download failed for unknown reason") /\
  requests (events r) = [] /\
  schedule (events r) = [].
Proof.
  apply (no_attempt_without_retries (platform := Scenario.unavailable)
           Scenario.media Scenario.homeserver Scenario.token true 30000 0 initial_state
           (mkMXC "example.org" "abc123") legacy_prefix
           (mkURL Scenario.homeserver "/_matrix/media/v3/download/example.org/abc123" "")
           (mkPool 0 Scenario.homeserver pool_settings)).
  - reflexivity.
  - reflexivity.
  - reflexivity.
  - reflexivity.
  - reflexivity.
Defined.

(** C6 on a call that is answered 503 throughout: the first two attempts
    fail, so the call starts with three requests, the second behind a sleep
    of 1000 ms and the third behind one of 2000 ms. *)
Lemma backoff_schedule_witness :
  exists post,
    schedule (events (downloadContent_v2 (platform := Scenario.unavailable)
                        Scenario.media Scenario.homeserver Scenario.token true 30000 3
                        initial_state))
      = [Requested 0; Slept 1000; Requested 1; Slept 2000; Requested 2] ++ post.
Proof.
  apply (proj2 (proj2 (backoff_schedule (platform := Scenario.unavailable)
                         Scenario.media Scenario.homeserver Scenario.token true 30000 3
                         initial_state))
           (mkMXC "example.org" "abc123") legacy_prefix
           (mkURL Scenario.homeserver "/_matrix/media/v3/download/example.org/abc123" "")
           (mkPool 0 Scenario.homeserver pool_settings) 2).
  - reflexivity.
  - reflexivity.
  - reflexivity.
  - reflexivity.
  - lia.
  - reflexivity.
  - intros j _. exists (mkError "HTTP 503: down"). split; [|reflexivity].
    right. exists (mkResponse 503 [] (mkBody [bytes_of "down"] None)).
    split; [reflexivity|]. right. split; [right; cbn; lia|].
    exists "down"%string. split; reflexivity.
Defined.

(** * Further properties *)

(** ** Identifiers *)

Section IdentifierFacts.

Lemma split_first_parts (sep : ascii) (s : string) :
  Js.includes (String sep "") (fst (IdentifierSpec.split_first sep s)) = false /\
  (snd (IdentifierSpec.split_first sep s) <> ""%string ->
   s = (fst (IdentifierSpec.split_first sep s)
          ++ String sep (snd (IdentifierSpec.split_first sep s)))%string).
Proof.
  induction s as [|c s [IHa IHr]]; cbn [IdentifierSpec.split_first].
  - split; [reflexivity|]. cbn. congruence.
  - destruct (Ascii.eqb_spec c sep) as [->|Hne].
    + split; [reflexivity|]. reflexivity.
    + destruct (IdentifierSpec.split_first sep s) as [a r]. cbn [fst snd] in *.
      split.
      * cbn. rewrite IHa. apply Ascii.eqb_neq in Hne.
        rewrite Ascii.eqb_sym, Hne. reflexivity.
      * intros Hr. cbn. f_equal. exact (IHr Hr).
Qed.

Lemma has_prefix_ci_split (p s : string) :
  IdentifierSpec.has_prefix_ci p s = true ->
  exists scheme,
    s = (scheme ++ IdentifierSpec.remove_prefix p s)%string /\
    IdentifierSpec.has_prefix_ci p scheme = true /\
    String.length scheme = String.length p.
Proof.
  revert s. induction p as [|a p IH]; intros s H.
  - exists ""%string. destruct s; auto.
  - destruct s as [|b s]; [discriminate|]. cbn in H.
    apply andb_prop in H as [Hab H]. destruct (IH s H) as (scheme & Hs & Hp & Hl).
    exists (String b scheme). cbn. rewrite Hab, Hp, Hl. repeat split.
    f_equal. exact Hs.
Qed.

Lemma has_prefix_ci_lower (p q : string) :
  Js.all_lower p = true ->
  IdentifierSpec.has_prefix_ci p q = true ->
  String.length q = String.length p ->
  Js.toLowerCase q = p.
Proof.
  revert q. induction p as [|a p IH]; intros [|b q] Hp H Hl; try discriminate.
  - reflexivity.
  - cbn in Hp, H, Hl |- *. apply andb_prop in Hp as [Ha Hp].
    apply andb_prop in H as [Hab H]. apply Ascii.eqb_eq in Ha, Hab.
    injection Hl as Hl. rewrite (IH q Hp H Hl).
    unfold IdentifierSpec.same_letter in Hab. congruence.
Qed.

Lemma includes_false_split (sep : ascii) (s : string) :
  Js.includes (String sep "") s = false <-> Js.split sep s = [s].
Proof.
  induction s as [|c s IH]; cbn.
  - split; reflexivity.
  - rewrite andb_true_r, (Ascii.eqb_sym sep c).
    destruct (Ascii.eqb c sep); cbn.
    + split; [discriminate|].
      pose proof (split_nonempty sep s) as Hn.
      destruct (Js.split sep s); [contradiction|discriminate].
    + rewrite IH. split.
      * intros ->. reflexivity.
      * pose proof (split_nonempty sep s) as Hn.
        destruct (Js.split sep s) as [|p ps]; [contradiction|].
        intros H. injection H as -> ->. reflexivity.
Qed.

End IdentifierFacts.

(** X1.  What a successful parse guarantees: the domain is non-empty and
    has no "/", the media id is non-empty, the input is a six-character
    scheme that lower-cases to "mxc://" followed by the domain, a "/" and the
    media id, and parsing the identifier rebuilt from the components gives
    the same components. *)
Theorem parseMXCUrl_components (s : string) (c : MXCComponents) :
  parseMXCUrl (Some s) = inr c ->
  domain c <> ""%string /\
  mediaId c <> ""%string /\
  Js.includes "/" (domain c) = false /\
  (exists scheme,
      s = (scheme ++ domain c ++ "/" ++ mediaId c)%string /\
      Js.toLowerCase scheme = "mxc://"%string) /\
  parseMXCUrl (Some ("mxc://" ++ domain c ++ "/" ++ mediaId c)%string) = inr c.
Proof.
  intros H.
  assert (Hparts : domain c <> ""%string /\ mediaId c <> ""%string /\
                   Js.includes "/" (domain c) = false /\
                   exists scheme,
                     s = (scheme ++ domain c ++ "/" ++ mediaId c)%string /\
                     Js.toLowerCase scheme = "mxc://"%string).
  { unfold parseMXCUrl in H.
    rewrite startsWith_lower_ci in H by reflexivity.
    destruct (IdentifierSpec.has_prefix_ci "mxc://" s) eqn:Hp; [|discriminate].
    cbn [negb] in H. rewrite slice_remove_prefix in H.
    destruct (has_prefix_ci_split _ _ Hp) as (scheme & Hs & Hps & Hl).
    pose proof (has_prefix_ci_lower "mxc://" scheme eq_refl Hps Hl) as Hlow.
    set (rest := IdentifierSpec.remove_prefix "mxc://" s) in *.
    destruct (split_split_first "/" rest) as (pieces & Hsp & Hj).
    destruct (split_first_parts "/" rest) as [Hno Hre].
    rewrite Hsp in H. unfold Js.truthy in H. rewrite Hj in H.
    destruct (String.eqb_spec (fst (IdentifierSpec.split_first "/" rest)) "") as [|Ha];
      [discriminate|].
    destruct (String.eqb_spec (snd (IdentifierSpec.split_first "/" rest)) "") as [|Hr];
      [discriminate|].
    cbn [negb] in H. injection H as <-. cbn [domain mediaId].
    repeat split; auto.
    exists scheme. split; [|exact Hlow].
    rewrite Hs at 1. f_equal. exact (Hre Hr). }
  destruct Hparts as (Hd & Hm & Hno & Hex).
  repeat split; auto.
  destruct c as [d m]. cbn [domain mediaId] in *.
  exact (parseMXCUrl_well_formed "mxc://" d m eq_refl eq_refl Hno Hd Hm).
Qed.

(** ** buildMxcDownloadUrl *)

(** X2.  On an identifier with the lower-case scheme that [parseMXCUrl]
    accepts, [buildMxcDownloadUrl] yields the legacy r0 download URL on the
    identifier's own domain, built from the same two components. *)
Theorem buildMxcDownloadUrl_agrees (s : string) (c : MXCComponents) :
  Js.startsWith "mxc://" s = true ->
  parseMXCUrl (Some s) = inr c ->
  buildMxcDownloadUrl s =
    Some ("https://" ++ domain c ++ "/_matrix/media/r0/download/" ++ domain c
            ++ "/" ++ mediaId c)%string.
Proof.
  intros Hstart H. unfold parseMXCUrl in H. unfold buildMxcDownloadUrl.
  rewrite Hstart. cbn [negb].
  destruct (negb (Js.startsWith "mxc://" (Js.toLowerCase s))); [discriminate|].
  change (String.length "mxc://") with 6%nat in H. cbv zeta.
  destruct (Js.split "/" (Js.slice 6 s)) as [|server parts]; [discriminate|].
  destruct (negb (Js.truthy server)); [discriminate|].
  cbv zeta in H.
  destruct (Js.truthy (Js.join "/" parts)) eqn:Hm; [|discriminate].
  cbn [negb] in H. injection H as <-. cbn [domain mediaId].
  destruct parts as [|p parts]; [discriminate|]. reflexivity.
Qed.

(** X3.  [buildMxcDownloadUrl] gives no URL exactly when the string does
    not start with the lower-case "mxc://" or has no "/" after it.  Nothing
    else is checked: the server and the media id may be empty. *)
Theorem buildMxcDownloadUrl_none (s : string) :
  buildMxcDownloadUrl s = None <->
  Js.startsWith "mxc://" s = false \/ Js.includes "/" (Js.slice 6 s) = false.
Proof.
  unfold buildMxcDownloadUrl.
  destruct (Js.startsWith "mxc://" s); cbn [negb]; [|split; auto].
  cbv zeta. rewrite (includes_false_split "/" (Js.slice 6 s)).
  pose proof (split_nonempty "/" (Js.slice 6 s)) as Hn.
  pose proof (join_split "/" (Js.slice 6 s)) as Hj.
  destruct (Js.split "/" (Js.slice 6 s)) as [|server [|p parts]]; [contradiction| |].
  - cbn. cbn in Hj. subst server. split; auto.
  - cbn [List.length Nat.ltb Nat.leb]. split; [discriminate|].
    intros [H|H]; discriminate.
Qed.

Example buildMxcDownloadUrl_empty_parts :
  buildMxcDownloadUrl "mxc:///" = Some "https:///_matrix/media/r0/download//"%string /\
  parseMXCUrl (Some "mxc:///") = inl (mkError "Missing domain component in MXC URI").
Proof. split; reflexivity. Qed.

Example buildMxcDownloadUrl_upper_case :
  buildMxcDownloadUrl "MXC://example.org/abc" = None /\
  parseMXCUrl (Some "MXC://example.org/abc") = inr (mkMXC "example.org" "abc").
Proof. split; reflexivity. Qed.

(** ** The retry loop and the download, further *)

Section DownloadFacts.

Context {platform : Platform}.

Lemma sleeps_app (a b : list Event) : sleeps (a ++ b) = sleeps a ++ sleeps b.
Proof.
  induction a as [|[] a IH]; cbn; rewrite ?IH; reflexivity.
Qed.

Lemma sleeps_request_events agent url accessToken i :
  sleeps (request_events agent url accessToken i)
    = if 0 <? i then [Z.min (1000 * 2 ^ (i - 1)) 8000] else [].
Proof.
  unfold request_events, retry_events, backoff_delay. destruct (0 <? i); reflexivity.
Qed.

(** The requests and the sleeps of the loop entered at attempt [i > 0]:
    consecutive attempts, one sleep before each. *)
Lemma retry_loop_sleeps agent url accessToken maxRetries remaining :
  forall i last st,
    0 < i ->
    exists made : nat,
      (made <= remaining)%nat /\
      requests (events (retry_loop agent url accessToken maxRetries remaining i last st))
        = attempts_from i made /\
      sleeps (events (retry_loop agent url accessToken maxRetries remaining i last st))
        = map (fun a => Z.min (1000 * 2 ^ (a - 1)) 8000) (attempts_from i made).
Proof.
  induction remaining as [|remaining IH]; intros i last st Hi.
  - exists 0%nat. repeat split. lia.
  - rewrite retry_loop_step.
    assert (Hone : forall tail : list Event,
               requests tail = [] -> sleeps tail = [] ->
               requests (request_events agent url accessToken i ++ tail)
                 = attempts_from i 1 /\
               sleeps (request_events agent url accessToken i ++ tail)
                 = map (fun a => Z.min (1000 * 2 ^ (a - 1)) 8000) (attempts_from i 1)).
    { intros tail Hr Hs.
      rewrite requests_app, sleeps_app, requests_request_events, sleeps_request_events,
        Hr, Hs.
      replace (0 <? i) with true by lia. split; reflexivity. }
    destruct (attempt_result agent url accessToken i) as [e|res].
    2:{ exists 1%nat. split; [lia|]. cbn [events]. apply Hone; reflexivity. }
    destruct (Js.includes _ _).
    { exists 1%nat. split; [lia|]. cbn [events]. apply Hone; reflexivity. }
    destruct (last_attempt i maxRetries).
    { exists 1%nat. split; [lia|]. cbn [events]. apply Hone; reflexivity. }
    destruct (IH (i + 1) (Some e) st ltac:(lia)) as (made & Hle & Hr & Hs).
    exists (S made). split; [lia|]. cbn [events attempts_from map].
    rewrite requests_app, sleeps_app, requests_request_events, sleeps_request_events.
    replace (0 <? i) with true by lia. cbn [requests sleeps app].
    rewrite Hr, Hs. split; reflexivity.
Qed.

(** The same for the loop as [downloadContent_v2] enters it, at attempt 0:
    no sleep before the first request. *)
Lemma retry_loop_sleeps_0 agent url accessToken maxRetries remaining last st :
  exists made : nat,
    (made <= remaining)%nat /\
    requests (events (retry_loop agent url accessToken maxRetries remaining 0 last st))
      = attempts_from 0 made /\
    sleeps (events (retry_loop agent url accessToken maxRetries remaining 0 last st))
      = map (fun a => Z.min (1000 * 2 ^ (a - 1)) 8000) (attempts_from 1 (made - 1)).
Proof.
  destruct remaining as [|remaining].
  - exists 0%nat. repeat split. lia.
  - rewrite retry_loop_step.
    assert (Hone : forall tail : list Event,
               requests tail = [] -> sleeps tail = [] ->
               requests (request_events agent url accessToken 0 ++ tail) = [0] /\
               sleeps (request_events agent url accessToken 0 ++ tail) = []).
    { intros tail Hr Hs.
      rewrite requests_app, sleeps_app, Hr, Hs. split; reflexivity. }
    destruct (attempt_result agent url accessToken 0) as [e|res].
    2:{ exists 1%nat. split; [lia|]. cbn [events]. apply Hone; reflexivity. }
    destruct (Js.includes _ _).
    { exists 1%nat. split; [lia|]. cbn [events]. apply Hone; reflexivity. }
    destruct (last_attempt 0 maxRetries).
    { exists 1%nat. split; [lia|]. cbn [events]. apply Hone; reflexivity. }
    destruct (retry_loop_sleeps agent url accessToken maxRetries remaining 1 (Some e) st
                ltac:(lia)) as (made & Hle & Hr & Hs).
    exists (S made). split; [lia|]. cbn [events].
    rewrite requests_app, sleeps_app. cbn [requests sleeps app request_events retry_events].
    change (0 <? 0) with false. cbn [requests sleeps app].
    change (0 + 1) with 1. rewrite Hr, Hs.
    replace (S made - 1)%nat with made by lia. split; reflexivity.
Qed.


Lemma attempts_from_bounds (count : nat) :
  forall (from a : Z), In a (attempts_from from count) -> from <= a < from + Z.of_nat count.
Proof.
  induction count as [|count IH]; intros from a Hin; [contradiction|].
  cbn [attempts_from] in Hin. destruct Hin as [<-|Hin]; [lia|].
  apply IH in Hin. lia.
Qed.



(** The requests and sleeps of a whole call. *)
Lemma downloadContent_v2_attempts mxcUrl homeserverUrl accessToken allowRemote timeoutMs
    maxRetries st :
  let r := downloadContent_v2 mxcUrl homeserverUrl accessToken allowRemote timeoutMs
             maxRetries st in
  exists made : nat,
    (made <= iterations maxRetries)%nat /\
    requests (events r) = attempts_from 0 made /\
    sleeps (events r)
      = map (fun a => Z.min (1000 * 2 ^ (a - 1)) 8000) (attempts_from 1 (made - 1)).
Proof.
  cbv zeta. rewrite downloadContent_v2_run. cbv zeta.
  destruct (getMediaEndpointPrefix_total homeserverUrl accessToken st)
    as (prefix & evs & Hp & _ & Hps & Hpr & _).
  destruct (getSharedAgent_quiet homeserverUrl st) as [Has Har].
  assert (Hsl : forall tr, schedule tr = [] -> sleeps tr = []).
  { induction tr as [|[] tr IH]; cbn; intros H; try discriminate; auto. }
  rewrite Hp. cbn [outcome events].
  destruct (parseMXCUrl mxcUrl) as [err|c].
  { exists 0%nat. repeat split. lia. }
  destruct (URL_new _ _) as [url|].
  2:{ exists 0%nat. cbn [events requests sleeps]. rewrite Hpr, (Hsl _ Hps).
      repeat split. lia. }
  destruct (outcome (getSharedAgent homeserverUrl st)) as [err|agent].
  { exists 0%nat. cbn [events requests sleeps].
    rewrite requests_app, sleeps_app, Hpr, Har, (Hsl _ Hps), (Hsl _ Has).
    repeat split. lia. }
  destruct (retry_loop_sleeps_0 agent (with_query url allowRemote) accessToken maxRetries
              (iterations maxRetries) None (final (getSharedAgent homeserverUrl st)))
    as (made & Hle & Hr & Hs).
  exists made. split; [lia|]. cbn [events requests sleeps].
  rewrite !requests_app, !sleeps_app, Hpr, Har, (Hsl _ Hps), (Hsl _ Has), Hr, Hs.
  split; reflexivity.
Qed.

(** What the loop can end with when it is entered with the iterations
    [maxRetries] allows: a result, or an error made from the error of one of
    its attempts. *)
Lemma retry_loop_outcomes agent url accessToken maxRetries remaining :
  forall i last st e,
    0 <= i ->
    i + Z.of_nat (S remaining) = Z.of_nat (iterations maxRetries) ->
    outcome (retry_loop agent url accessToken maxRetries (S remaining) i last st) = inl e ->
    exists j attemptError,
      i <= j < Z.of_nat (iterations maxRetries) /\
      attempt_result agent url accessToken j = inl attemptError /\
      ((Js.includes "Not a valid MXC URI" (message attemptError) = true /\
        e = attemptError) \/
       (Js.includes "Not a valid MXC URI" (message attemptError) = false /\
        exists n, whole maxRetries = Some n /\ j = n - 1 /\
                  e = exhausted n attemptError) \/
       (Js.includes "Not a valid MXC URI" (message attemptError) = false /\
        whole maxRetries = None /\
        j = Z.of_nat (iterations maxRetries) - 1 /\
        e = attemptError)).
Proof.
  induction remaining as [|remaining IH]; intros i last st e Hi Hn;
    rewrite retry_loop_step;
    destruct (attempt_result agent url accessToken i) as [a|res] eqn:Ha;
    try discriminate;
    destruct (Js.includes "Not a valid MXC URI" (message a)) eqn:Hinc.
  - cbn [outcome]. intros H. injection H as <-. exists i, a.
    split; [lia|]. split; [exact Ha|]. left. split; [exact Hinc|reflexivity].
  - destruct (last_attempt i maxRetries) as [count|] eqn:Hlast.
    + cbn [outcome]. intros H. injection H as <-.
      apply last_attempt_last in Hlast. destruct Hlast as [-> Hw].
      exists i, a. split; [lia|]. split; [exact Ha|]. right. left.
      split; [exact Hinc|]. exists (i + 1). split; [exact Hw|]. split; [lia|reflexivity].
    + rewrite retry_loop_done. cbn [outcome]. intros H. injection H as <-.
      exists i, a. split; [lia|]. split; [exact Ha|]. right. right.
      split; [exact Hinc|]. split; [|split; [lia|reflexivity]].
      unfold last_attempt in Hlast.
      destruct (whole maxRetries) as [count|] eqn:Hw; [|reflexivity].
      apply whole_iterations in Hw.
      replace (i =? count - 1) with true in Hlast by lia. discriminate.
  - cbn [outcome]. intros H. injection H as <-. exists i, a.
    split; [lia|]. split; [exact Ha|]. left. split; [exact Hinc|reflexivity].
  - destruct (last_attempt i maxRetries) as [count|] eqn:Hlast.
    + cbn [outcome]. intros H. injection H as <-.
      apply last_attempt_last in Hlast. destruct Hlast as [-> Hw].
      exists i, a. split; [lia|]. split; [exact Ha|]. right. left.
      split; [exact Hinc|]. exists (i + 1). split; [exact Hw|]. split; [lia|reflexivity].
    + cbn [outcome]. intros H.
      destruct (IH (i + 1) (Some a) st e ltac:(lia) ltac:(lia) H)
        as (j & attemptError & Hj & Hres & Hcases).
      exists j, attemptError. split; [lia|]. split; [exact Hres|exact Hcases].
Qed.

(** X5.  The errors of the retry loop.  Once the identifier has parsed and
    the download URL and the pool are built, a call that is allowed at
    least one attempt and throws, throws an error made from the error of
    one of its attempts: that error itself when its message contains
    "Not a valid MXC URI"; the exhaustion error around it when
    [maxRetries] is an integer [n] and the attempt is number [n - 1]; and
    that error itself again when [maxRetries] is not an integer and the
    attempt is the last one below it.  So the error the statement after the
    loop makes for the case of no last error, "Download failed for unknown
    reason", is never the one thrown. *)
Theorem download_errors mxcUrl homeserverUrl accessToken allowRemote timeoutMs
    maxRetries st mxcComponents endpoint url agent e :
  parseMXCUrl mxcUrl = inr mxcComponents ->
  outcome (getMediaEndpointPrefix homeserverUrl accessToken st) = inr endpoint ->
  URL_new (download_path endpoint mxcComponents) (Some homeserverUrl) = Some url ->
  outcome (getSharedAgent homeserverUrl st) = inr agent ->
  below 0 maxRetries = true ->
  outcome (downloadContent_v2 mxcUrl homeserverUrl accessToken allowRemote timeoutMs
             maxRetries st) = inl e ->
  exists (i : Z) (attemptError : Error),
    0 <= i /\ below i maxRetries = true /\
    match pool_request agent i (request_options (with_query url allowRemote) accessToken)
    with
    | RequestRejected rejected => inl rejected
    | RequestResolved response => read_response response
    end = inl attemptError /\
    ((Js.includes "Not a valid MXC URI" (message attemptError) = true /\
      e = attemptError) \/
     (Js.includes "Not a valid MXC URI" (message attemptError) = false /\
      exists n, whole maxRetries = Some n /\ i = n - 1 /\
                e = mkError ("Failed to download after " ++ Js.string_of_Z n
                               ++ " attempts: " ++ message attemptError)%string) \/
     (Js.includes "Not a valid MXC URI" (message attemptError) = false /\
      whole maxRetries = None /\
      below (i + 1) maxRetries = false /\
      e = attemptError)).
Proof.
  intros Hparse Hprobe Hurl Hagent Hpos H.
  rewrite downloadContent_v2_run in H. cbv zeta in H.
  rewrite Hparse, Hprobe, Hurl, Hagent in H. cbn [outcome] in H.
  apply (below_iterations 0 maxRetries ltac:(lia)) in Hpos.
  destruct (iterations maxRetries) as [|remaining] eqn:Hrem; [lia|].
  destruct (retry_loop_outcomes agent (with_query url allowRemote) accessToken maxRetries
              remaining 0 None (final (getSharedAgent homeserverUrl st)) e
              ltac:(lia) ltac:(rewrite Hrem; lia) H)
    as (j & attemptError & Hj & Hres & Hcases).
  rewrite Hrem in Hj.
  exists j, attemptError. split; [lia|]. split.
  { apply below_iterations; [lia|]. rewrite Hrem. lia. }
  split; [exact Hres|].
  destruct Hcases as [Hc|[Hc|(Hinc & Hw & Hlast & He)]]; [left; exact Hc|right; left; exact Hc|].
  right. right. split; [exact Hinc|]. split; [exact Hw|]. split; [|exact He].
  destruct (below (j + 1) maxRetries) eqn:Hb; [|reflexivity].
  apply below_iterations in Hb; [|lia]. rewrite Hrem in Hb, Hlast. lia.
Qed.

(** *** What a call does to the pool *)

(** The module state and the pool events of a call that gets as far as
    acquiring the pool are those of its [getSharedAgent]. *)
Lemma downloadContent_v2_state mxcUrl homeserverUrl accessToken allowRemote
    timeoutMs maxRetries st mxcComponents endpoint url :
  parseMXCUrl mxcUrl = inr mxcComponents ->
  outcome (getMediaEndpointPrefix homeserverUrl accessToken st) = inr endpoint ->
  URL_new (download_path endpoint mxcComponents) (Some homeserverUrl) = Some url ->
  let r := downloadContent_v2 mxcUrl homeserverUrl accessToken allowRemote timeoutMs
             maxRetries st in
  final r = final (getSharedAgent homeserverUrl st) /\
  pool_steps (events r) = pool_steps (events (getSharedAgent homeserverUrl st)) /\
  (forall agent, sharedAgent st = Some agent ->
     final r = mkState (Some agent) (agentRefCount st + 1) (poolsCreated st) /\
     pool_steps (events r) = []).
Proof.
  intros Hparse Hprobe Hurl r.
  assert (Hloop : forall agent u tok n rem i last st0,
             pool_steps (events (retry_loop agent u tok n rem i last st0)) = []).
  { intros agent u tok n rem. induction rem as [|rem IH]; intros i last st0;
      [reflexivity|].
    assert (Hre : pool_steps (request_events agent u tok i) = []).
    { unfold request_events, retry_events. destruct (0 <? i); reflexivity. }
    rewrite retry_loop_step.
    destruct (attempt_result agent u tok i) as [e|res].
    2:{ cbn [events]. rewrite pool_steps_app, Hre. reflexivity. }
    destruct (Js.includes _ _); [cbn [events]; rewrite pool_steps_app, Hre; reflexivity|].
    destruct (last_attempt i n); [cbn [events]; rewrite pool_steps_app, Hre; reflexivity|].
    cbn [events]. rewrite pool_steps_app, Hre. cbn [pool_steps app]. apply IH. }
  assert (Hboth : final r = final (getSharedAgent homeserverUrl st) /\
                  pool_steps (events r)
                    = pool_steps (events (getSharedAgent homeserverUrl st))).
  { subst r. rewrite downloadContent_v2_run. cbv zeta.
    rewrite Hparse, Hprobe, Hurl.
    destruct (getMediaEndpointPrefix_total homeserverUrl accessToken st)
      as (prefix & evs & Hp & _ & _ & _ & Hpp).
    rewrite Hp. cbn [events].
    destruct (outcome (getSharedAgent homeserverUrl st)) as [err|agent].
    - cbn [final events pool_steps]. rewrite pool_steps_app, Hpp. auto.
    - cbn [final events pool_steps]. rewrite retry_loop_final.
      rewrite !pool_steps_app, Hpp, Hloop, app_nil_r. auto. }
  destruct Hboth as [Hf Hs]. split; [exact Hf|]. split; [exact Hs|].
  intros agent Hagent. rewrite Hf, Hs, (getSharedAgent_existing _ _ _ Hagent). auto.
Qed.

(** X6.  A call whose identifier parses and whose download URL can be
    built touches the module state exactly as the one [getSharedAgent] it
    performs, whether the download then succeeds or fails, and closes no
    pool: with a pool already shared the reference count ends one higher and
    no pool is constructed. *)
Theorem download_keeps_its_reference mxcUrl homeserverUrl accessToken allowRemote
    timeoutMs maxRetries st mxcComponents endpoint url :
  parseMXCUrl mxcUrl = inr mxcComponents ->
  outcome (getMediaEndpointPrefix homeserverUrl accessToken st) = inr endpoint ->
  URL_new (download_path endpoint mxcComponents) (Some homeserverUrl) = Some url ->
  let r := downloadContent_v2 mxcUrl homeserverUrl accessToken allowRemote timeoutMs
             maxRetries st in
  final r = final (getSharedAgent homeserverUrl st) /\
  pool_steps (events r) = pool_steps (events (getSharedAgent homeserverUrl st)) /\
  (forall agent, sharedAgent st = Some agent ->
     final r = mkState (Some agent) (agentRefCount st + 1) (poolsCreated st) /\
     pool_steps (events r) = []).
Proof. exact (downloadContent_v2_state _ _ _ _ _ _ _ _ _ _). Qed.

(** Every request of the loop goes through the loop's pool with the
    loop's options. *)
Lemma retry_loop_requests agent url accessToken maxRetries p k o remaining :
  forall i last st,
    In (EvRequest p k o)
       (events (retry_loop agent url accessToken maxRetries remaining i last st)) ->
    p = agent /\ o = request_options url accessToken.
Proof.
  induction remaining as [|remaining IH]; intros i last st Hin; [contradiction|].
  rewrite retry_loop_step in Hin.
  assert (Hhere : In (EvRequest p k o) (request_events agent url accessToken i) ->
                  p = agent /\ o = request_options url accessToken).
  { intros H. apply In_request_events in H as (-> & _ & ->). auto. }
  destruct (attempt_result agent url accessToken i) as [e|res].
  2:{ cbn [events] in Hin. apply in_app_or in Hin as [Hin|[Hin|[]]]; [auto|discriminate]. }
  destruct (Js.includes _ _).
  { cbn [events] in Hin. apply in_app_or in Hin as [Hin|[Hin|[]]]; [auto|discriminate]. }
  destruct (last_attempt i maxRetries).
  { cbn [events] in Hin. apply in_app_or in Hin as [Hin|[Hin|[]]]; [auto|discriminate]. }
  cbn [events] in Hin. apply in_app_or in Hin as [Hin|[Hin|Hin]]; [auto|discriminate|].
  exact (IH _ _ _ Hin).
Qed.

(** The requests of a call, by the pool and the URL the call has built. *)
Lemma downloadContent_v2_requests mxcUrl homeserverUrl accessToken allowRemote timeoutMs
    maxRetries st p k o :
  In (EvRequest p k o)
     (events (downloadContent_v2 mxcUrl homeserverUrl accessToken allowRemote timeoutMs
                maxRetries st)) ->
  exists mxcComponents endpoint url,
    parseMXCUrl mxcUrl = inr mxcComponents /\
    outcome (getMediaEndpointPrefix homeserverUrl accessToken st) = inr endpoint /\
    URL_new (download_path endpoint mxcComponents) (Some homeserverUrl) = Some url /\
    outcome (getSharedAgent homeserverUrl st) = inr p /\
    o = request_options (with_query url allowRemote) accessToken.
Proof.
  intros Hin. rewrite downloadContent_v2_run in Hin. cbv zeta in Hin.
  destruct (getMediaEndpointPrefix_total homeserverUrl accessToken st)
    as (prefix & evs & Hp & _ & _ & Hpr & _).
  destruct (getSharedAgent_quiet homeserverUrl st) as [_ Har].
  assert (Hnone : forall tr, requests tr = [] -> ~ In (EvRequest p k o) tr).
  { intros tr Htr H. apply In_request_requests in H. rewrite Htr in H. exact H. }
  rewrite Hp in Hin |- *. cbn [outcome events] in Hin |- *.
  destruct (parseMXCUrl mxcUrl) as [err|c].
  { cbn in Hin. destruct Hin as [H|[H|[]]]; discriminate. }
  destruct (URL_new _ _) as [url|] eqn:Hurl.
  2:{ cbn [events] in Hin. destruct Hin as [H|H]; [discriminate|].
      exfalso. exact (Hnone _ Hpr H). }
  destruct (outcome (getSharedAgent homeserverUrl st)) as [err|agent].
  { cbn [events] in Hin. destruct Hin as [H|H]; [discriminate|].
    apply in_app_or in H as [H|H]; exfalso; [exact (Hnone _ Hpr H)|exact (Hnone _ Har H)]. }
  cbn [events] in Hin. destruct Hin as [H|H]; [discriminate|].
  apply in_app_or in H as [H|H]; [exfalso; exact (Hnone _ Hpr H)|].
  apply in_app_or in H as [H|H]; [exfalso; exact (Hnone _ Har H)|].
  apply retry_loop_requests in H as [-> ->].
  exists c, prefix, url. auto.
Qed.

(** X7.  Once a pool is shared, every request of every call goes through
    it, whatever homeserver URL the call is given: the URL is used for the
    version probe and the request path, not to pick or create a pool. *)
Theorem download_reuses_shared_pool mxcUrl homeserverUrl accessToken allowRemote
    timeoutMs maxRetries st agent p k o :
  sharedAgent st = Some agent ->
  In (EvRequest p k o)
     (events (downloadContent_v2 mxcUrl homeserverUrl accessToken allowRemote timeoutMs
                maxRetries st)) ->
  p = agent /\
  pool_steps (events (downloadContent_v2 mxcUrl homeserverUrl accessToken allowRemote
                        timeoutMs maxRetries st)) = [].
Proof.
  intros Hagent Hin.
  destruct (downloadContent_v2_requests _ _ _ _ _ _ _ _ _ _ Hin)
    as (c & endpoint & url & Hparse & Hprobe & Hurl & Hacq & _).
  rewrite (getSharedAgent_existing _ _ _ Hagent) in Hacq. cbn in Hacq.
  split; [congruence|].
  exact (proj2 (proj2 (proj2 (downloadContent_v2_state mxcUrl homeserverUrl
           accessToken allowRemote timeoutMs maxRetries st c endpoint url
           Hparse Hprobe Hurl)) agent Hagent)).
Qed.

(** *** The request a call sends *)

(** X8.  Every pooled request of a call is the same GET: its path is the
    path and query of the URL built from one of the two prefixes,
    "/download/", and the encoded domain and media id, with the query
    [allow_remote=false] set when [allowRemote] is not [true]; its headers
    are the bearer token, [Accept: */*] and the accepted encodings.  Nothing
    in it depends on the attempt. *)
Theorem download_request_shape mxcUrl homeserverUrl accessToken allowRemote timeoutMs
    maxRetries st p k o :
  In (EvRequest p k o)
     (events (downloadContent_v2 mxcUrl homeserverUrl accessToken allowRemote timeoutMs
                maxRetries st)) ->
  exists mxcComponents endpoint url,
    parseMXCUrl mxcUrl = inr mxcComponents /\
    (endpoint = modern_prefix \/ endpoint = legacy_prefix) /\
    URL_new (endpoint ++ "/download/" ++ encodeURIComponent (domain mxcComponents)
               ++ "/" ++ encodeURIComponent (mediaId mxcComponents))%string
            (Some homeserverUrl) = Some url /\
    method o = "GET"%string /\
    path o =
      (if allowRemote then (pathname url ++ search url)%string
       else (pathname (URL_searchParams_set url "allow_remote" "false")
               ++ search (URL_searchParams_set url "allow_remote" "false"))%string) /\
    headers o = [("Authorization", ("Bearer " ++ accessToken)%string);
                 ("Accept", "*/*"%string);
                 ("Accept-Encoding", "gzip, deflate, br"%string)].
Proof.
  intros Hin.
  destruct (downloadContent_v2_requests _ _ _ _ _ _ _ _ _ _ Hin)
    as (c & endpoint & url & Hparse & Hprobe & Hurl & _ & ->).
  destruct (getMediaEndpointPrefix_total homeserverUrl accessToken st)
    as (prefix & evs & Hp & Hor & _).
  rewrite Hp in Hprobe. cbn in Hprobe. injection Hprobe as <-.
  exists c, prefix, url. repeat split; auto.
  unfold with_query. destruct allowRemote; reflexivity.
Qed.

(** *** Where a result comes from *)

Lemma read_response_result (response : Response) (result : DownloadResult) :
  read_response response = inr result ->
  200 <= statusCode response <= 299 /\
  failure (body response) = None /\
  data result = concat (chunks (body response)) /\
  contentType result =
    header_or (response_headers response) "content-type" "application/octet-stream".
Proof.
  unfold read_response, body_text, body_drain.
  destruct (Z.ltb_spec (statusCode response) 200) as [Hlo|Hlo];
    destruct (Z.leb_spec 300 (statusCode response)) as [Hhi|Hhi]; cbn [orb];
    destruct (failure (body response)); try discriminate.
  intros Hres. injection Hres as <-. cbn. repeat split; lia.
Qed.

Lemma header_or_truthy (hs : Headers) (name fallback : string) :
  fallback <> ""%string -> header_or hs name fallback <> ""%string.
Proof.
  intros Hf. unfold header_or, Js.truthy.
  destruct (JsValue.assoc name hs) as [v|]; [|exact Hf].
  destruct (String.eqb_spec v ""); cbn; auto.
Qed.

(** When the loop returns a result, its last request is the one the
    result was read from. *)
Lemma retry_loop_result agent url accessToken maxRetries result remaining :
  forall i last st,
    outcome (retry_loop agent url accessToken maxRetries remaining i last st) = inr result ->
    exists k pre,
      attempt_result agent url accessToken k = inr result /\
      events (retry_loop agent url accessToken maxRetries remaining i last st)
        = pre ++ [EvRequest agent k (request_options url accessToken);
                  EvLog Debug "Download complete"].
Proof.
  induction remaining as [|remaining IH]; intros i last st H; [discriminate|].
  rewrite retry_loop_step in H |- *.
  destruct (attempt_result agent url accessToken i) as [e|res] eqn:Hres.
  2:{ cbn in H. injection H as ->. exists i, (retry_events i ++ [EvLog Debug "Attempt"]).
      split; [exact Hres|]. cbn [events]. unfold request_events.
      rewrite <- !app_assoc. reflexivity. }
  destruct (Js.includes _ _); [discriminate|].
  destruct (last_attempt i maxRetries); [discriminate|].
  cbn [outcome events] in H |- *.
  destruct (IH _ _ _ H) as (k & pre & Hk & Hev).
  exists k, (request_events agent url accessToken i ++ EvLog Warn "Attempt failed:" :: pre).
  split; [exact Hk|]. rewrite Hev, <- app_assoc. reflexivity.
Qed.

(** A result of a call, traced to the response it was read from. *)
Lemma downloadContent_v2_result mxcUrl homeserverUrl accessToken allowRemote
    timeoutMs maxRetries st result :
  let r := downloadContent_v2 mxcUrl homeserverUrl accessToken allowRemote timeoutMs
             maxRetries st in
  outcome r = inr result ->
  exists p k o pre response,
    events r = pre ++ [EvRequest p k o; EvLog Debug "Download complete"] /\
    pool_request p k o = RequestResolved response /\
    200 <= statusCode response <= 299 /\
    failure (body response) = None /\
    data result = concat (chunks (body response)) /\
    contentType result =
      header_or (response_headers response) "content-type" "application/octet-stream" /\
    contentType result <> ""%string.
Proof.
  intros r H. subst r. rewrite downloadContent_v2_run in H |- *. cbv zeta in H |- *.
  destruct (getMediaEndpointPrefix_total homeserverUrl accessToken st)
    as (prefix & evs & Hp & _).
  rewrite Hp in H |- *. cbn [outcome events] in H |- *.
  destruct (parseMXCUrl mxcUrl) as [err|c]; [discriminate|].
  destruct (URL_new _ _) as [url|]; [|discriminate].
  destruct (outcome (getSharedAgent homeserverUrl st)) as [err|agent]; [discriminate|].
  cbn [outcome events] in H |- *.
  destruct (retry_loop_result _ _ _ _ _ _ _ _ _ H) as (k & pre & Hk & Hev).
  unfold attempt_result in Hk.
  destruct (pool_request agent k (request_options (with_query url allowRemote) accessToken))
    as [e|response] eqn:Hreq; [discriminate|].
  destruct (read_response_result _ _ Hk) as (Hstatus & Hbody & Hdata & Hct).
  exists agent, k, (request_options (with_query url allowRemote) accessToken),
    (EvLog Debug "Starting download" :: evs
       ++ events (getSharedAgent homeserverUrl st) ++ pre), response.
  split; [rewrite Hev; cbn [app]; rewrite <- !app_assoc; reflexivity|].
  repeat split; auto; try lia.
  rewrite Hct. apply header_or_truthy. discriminate.
Qed.

(** X9.  A call returns a result only from a response: the last event but
    one of the call is a pooled request, that request was answered with a
    status in the 200-299 range and a body that streamed to its end, the
    payload is the concatenation of that body's chunks, and the content type
    is the response's content-type header or the octet-stream default, never
    the empty string. *)
Theorem download_result_from_response mxcUrl homeserverUrl accessToken allowRemote
    timeoutMs maxRetries st result :
  let r := downloadContent_v2 mxcUrl homeserverUrl accessToken allowRemote timeoutMs
             maxRetries st in
  outcome r = inr result ->
  exists p k o pre response,
    events r = pre ++ [EvRequest p k o; EvLog Debug "Download complete"] /\
    pool_request p k o = RequestResolved response /\
    200 <= statusCode response <= 299 /\
    failure (body response) = None /\
    data result = concat (chunks (body response)) /\
    contentType result =
      header_or (response_headers response) "content-type" "application/octet-stream" /\
    contentType result <> ""%string.
Proof. exact (downloadContent_v2_result _ _ _ _ _ _ _ _). Qed.

(** *** The version list *)

Lemma array_some_until (re : Regex.regex) (before : list string) (bad : Json)
    (after : list Json) :
  JsValue.array_some (JsValue.matches re) (map JString before ++ bad :: after) =
  if existsb (Regex.full_match re) before then inr true
  else match JsValue.matches re bad with
       | inl e => inl e
       | inr true => inr true
       | inr false => JsValue.array_some (JsValue.matches re) after
       end.
Proof.
  induction before as [|s before IH]; cbn [map app existsb JsValue.array_some].
  - reflexivity.
  - cbn [JsValue.matches]. destruct (Regex.full_match re s); [reflexivity|exact IH].
Qed.

(** X10.  The scan of the advertised versions stops at the first entry
    that is not a string: with string entries [before] it, the modern prefix
    is chosen exactly when one of those matches the pattern; what follows
    the non-string entry is never looked at, and the TypeError it causes is
    swallowed into the legacy prefix. *)
Theorem resolver_stops_at_non_string homeserverUrl accessToken st u r members
    (before : list string) (bad : Json) (after : list Json) :
  URL_new "/_matrix/client/versions" (Some homeserverUrl) = Some u ->
  fetch (URL_toString u)
    (if Js.truthy accessToken
     then [("Authorization", ("Bearer " ++ accessToken)%string)] else [])
    = FetchResolved r ->
  ok r = true ->
  fetch_json r = JsonResolved (JObject members) ->
  JsValue.assoc "versions" members = Some (JArray (map JString before ++ bad :: after)) ->
  (forall s, bad <> JString s) ->
  outcome (getMediaEndpointPrefix homeserverUrl accessToken st)
    = inr (if existsb (Regex.full_match v1_11_pattern) before
           then modern_prefix else legacy_prefix).
Proof.
  intros Hu Hf Hok Hj Hv Hbad.
  rewrite getMediaEndpointPrefix_run, probe_versions_run. cbv zeta.
  rewrite Hu. cbv beta match.
  match goal with
  | |- context [fetch ?a ?b] => replace (fetch a b) with (FetchResolved r) by (symmetry; exact Hf)
  end.
  cbv beta match. rewrite Hok, Hj.
  cbn [JsValue.member]. rewrite Hv.
  cbn [JsValue.or_empty_array JsValue.truthy JsValue.some].
  rewrite array_some_until.
  destruct (existsb _ before); [reflexivity|].
  destruct bad; try reflexivity. exfalso. exact (Hbad _ eq_refl).
Qed.

End DownloadFacts.

(** ** The pool under any sequence of calls *)

Section PoolFacts.

Context {platform : Platform}.

Lemma replay_app (steps1 steps2 : list PoolStep) :
  forall open,
    replay open (steps1 ++ steps2) =
    match replay open steps1 with
    | Some open' => replay open' steps2
    | None => None
    end.
Proof.
  induction steps1 as [|[p|p] steps1 IH]; intros open; cbn [app replay].
  - reflexivity.
  - destruct open; [reflexivity|apply IH].
  - destruct open as [q|]; [|reflexivity].
    destruct (pool_id p =? pool_id q)%nat; [apply IH|reflexivity].
Qed.

Lemma pool_call_invariant (c : PoolCall) (st : ModuleState) :
  coherent st ->
  outcome (pool_call c st) = inr tt /\
  coherent (final (pool_call c st)) /\
  replay (sharedAgent st) (pool_steps (events (pool_call c st)))
    = Some (sharedAgent (final (pool_call c st))).
Proof.
  intros Hc. destruct c as [u|]; cbn [pool_call].
  - unfold coherent in Hc. destruct (sharedAgent st) as [agent|] eqn:Hs.
    + erewrite try_catch_ok;
        [|erewrite bind_ok by (apply getSharedAgent_existing; exact Hs); reflexivity].
      cbn. unfold coherent. cbn. split; [reflexivity|]. split; [lia|reflexivity].
    + destruct (URL_new u None) as [parsed|] eqn:Hu.
      * erewrite try_catch_ok;
          [|erewrite bind_ok by (apply (getSharedAgent_fresh u st parsed Hs Hu));
            reflexivity].
        cbn. unfold coherent. cbn. split; [reflexivity|]. split; [lia|reflexivity].
      * erewrite try_catch_err;
          [|erewrite bind_err by (apply (getSharedAgent_invalid u st Hs Hu)); reflexivity].
        cbn. unfold coherent. rewrite Hs. auto.
  - split; [rewrite releaseDownloadAgent_run;
            destruct (sharedAgent st); [destruct (_ <=? _)|]; reflexivity|].
    split; [apply releaseDownloadAgent_coherent; exact Hc|].
    rewrite releaseDownloadAgent_run.
    destruct (sharedAgent st) as [agent|]; [|reflexivity].
    destruct (agentRefCount st - 1 <=? 0); cbn; [|reflexivity].
    rewrite Nat.eqb_refl. reflexivity.
Qed.

(** X11.  Under every sequence of acquisitions and releases, by whatever
    callers and with whatever URLs, from a state in which the count agrees
    with the pool (at least 1 with a pool, at most 0 without): no call
    fails the sequence, the count still agrees with the pool at the end, and
    pools are constructed and closed in turn - a pool is constructed only
    when none is open and only the open pool is ever closed, so at most one
    pool is open at any time. *)
Theorem pool_calls_invariant (calls : list PoolCall) (st : ModuleState) :
  coherent st ->
  let r := pool_calls calls st in
  outcome r = inr tt /\
  coherent (final r) /\
  replay (sharedAgent st) (pool_steps (events r)) = Some (sharedAgent (final r)).
Proof.
  revert st. induction calls as [|c calls IH]; intros st Hc; cbn [pool_calls].
  - cbn. auto.
  - destruct (pool_call_invariant c st Hc) as (Ho & Hc' & Hr).
    destruct (pool_call c st) as [o st' evs] eqn:Hcall. cbn [outcome final events] in *.
    subst o. cbv zeta. rewrite (bind_ok _ _ _ _ _ _ Hcall).
    destruct (IH st' Hc') as (Ho2 & Hc2 & Hr2). cbv zeta in Ho2, Hc2, Hr2.
    cbn [outcome final events]. split; [exact Ho2|]. split; [exact Hc2|].
    rewrite pool_steps_app, replay_app, Hr. exact Hr2.
Qed.

End PoolFacts.

(** ** Trimming, readBooleanParam and sanitizeUserIdList *)

Section TextFacts.

Import Utf16.

Lemma trimStart_spaces (pad s : ustring) :
  forallb is_space pad = true -> trimStart (pad ++ s) = trimStart s.
Proof.
  induction pad as [|c pad IH]; cbn; intros H; [reflexivity|].
  apply andb_prop in H as [Hc H]. rewrite Hc. exact (IH H).
Qed.

Lemma trimEnd_all_space (pad : ustring) :
  forallb is_space pad = true -> trimEnd pad = [].
Proof.
  induction pad as [|c pad IH]; cbn; intros H; [reflexivity|].
  apply andb_prop in H as [Hc H]. rewrite (IH H), Hc. reflexivity.
Qed.

Lemma trimEnd_spaces (s pad : ustring) :
  forallb is_space pad = true -> trimEnd (s ++ pad) = trimEnd s.
Proof.
  intros H. induction s as [|c s IH]; cbn [app trimEnd].
  - apply trimEnd_all_space. exact H.
  - rewrite IH. reflexivity.
Qed.

Lemma trimStart_head (c : N) (s : ustring) :
  is_space c = false -> trimStart (c :: s) = c :: s.
Proof. intros H. cbn. rewrite H. reflexivity. Qed.

Lemma trimStart_suffix (s : ustring) :
  exists pad, forallb is_space pad = true /\ s = pad ++ trimStart s.
Proof.
  induction s as [|c s (pad & Hp & Hs)]; cbn.
  - exists []. auto.
  - destruct (is_space c) eqn:Hc.
    + exists (c :: pad). cbn. rewrite Hc, Hp. split; [reflexivity|]. f_equal. exact Hs.
    + exists []. auto.
Qed.

Lemma trimStart_all_space (pad : ustring) :
  forallb is_space pad = true -> trimStart pad = [].
Proof.
  induction pad as [|c pad IH]; cbn; intros H; [reflexivity|].
  apply andb_prop in H as [Hc H]. rewrite Hc. exact (IH H).
Qed.

Lemma trimStart_head_not_space (s : ustring) (c : N) (w : ustring) :
  trimStart s = c :: w -> is_space c = false.
Proof.
  induction s as [|d s IH]; cbn; intros H; [discriminate|].
  destruct (is_space d) eqn:Hd; [exact (IH H)|]. congruence.
Qed.

(** White space around a word does not change its trim. *)
Lemma trim_padded (left word right : ustring) :
  forallb is_space left = true ->
  forallb is_space right = true ->
  trim (left ++ word ++ right) = trim word.
Proof.
  intros Hl Hr. unfold trim. rewrite trimStart_spaces by exact Hl.
  destruct (trimStart_suffix word) as (pad & Hp & Hw).
  rewrite Hw at 1. rewrite <- app_assoc, trimStart_spaces by exact Hp.
  destruct (trimStart word) as [|c w] eqn:Hts.
  - cbn [app]. rewrite (trimStart_all_space _ Hr). reflexivity.
  - cbn [app]. rewrite trimStart_head by exact (trimStart_head_not_space _ _ _ Hts).
    change (c :: w ++ right) with ((c :: w) ++ right).
    apply trimEnd_spaces. exact Hr.
Qed.

(** Lower-casing an ASCII code unit makes no white space and removes
    none, so it commutes with trimming. *)
Lemma is_space_lower_unit (c : N) : is_space (lower_unit c) = is_space c.
Proof.
  unfold lower_unit.
  destruct ((0x41 <=? c)%N && (c <=? 0x5A)%N) eqn:Hletter; [|reflexivity].
  apply andb_prop in Hletter as [Hlo Hhi].
  apply N.leb_le in Hlo, Hhi.
  assert (Hout : forall d, (0x41 <= d <= 0x7A)%N -> is_space d = false).
  { intros d Hd. unfold is_space.
    repeat match goal with
           | |- context [(?a <=? ?b)%N] => destruct (N.leb_spec a b)
           | |- context [(?a =? ?b)%N] => destruct (N.eqb_spec a b)
           end; try reflexivity; lia. }
  rewrite !Hout by lia. reflexivity.
Qed.

Lemma trimStart_lower (s : ustring) :
  trimStart (map lower_unit s) = map lower_unit (trimStart s).
Proof.
  induction s as [|c s IH]; cbn; [reflexivity|].
  rewrite is_space_lower_unit. destruct (is_space c); [exact IH|reflexivity].
Qed.

Lemma trimEnd_lower (s : ustring) :
  trimEnd (map lower_unit s) = map lower_unit (trimEnd s).
Proof.
  induction s as [|c s IH]; cbn; [reflexivity|].
  rewrite IH, is_space_lower_unit.
  destruct (trimEnd s); cbn; [destruct (is_space c)|]; reflexivity.
Qed.

Lemma trim_lower (s : ustring) : trim (map lower_unit s) = map lower_unit (trim s).
Proof. unfold trim. rewrite trimStart_lower, trimEnd_lower. reflexivity. Qed.

(** Trimming keeps a part of the string. *)
Lemma trimStart_forallb (P : N -> bool) (s : ustring) :
  forallb P s = true -> forallb P (trimStart s) = true.
Proof.
  induction s as [|c s IH]; cbn; intros H; [reflexivity|].
  apply andb_prop in H as [Hc H].
  destruct (is_space c); [exact (IH H)|]. cbn. rewrite Hc, H. reflexivity.
Qed.

Lemma trimEnd_forallb (P : N -> bool) (s : ustring) :
  forallb P s = true -> forallb P (trimEnd s) = true.
Proof.
  induction s as [|c s IH]; cbn; intros H; [reflexivity|].
  apply andb_prop in H as [Hc H]. specialize (IH H).
  destruct (trimEnd s) as [|d kept].
  - destruct (is_space c); [reflexivity|]. cbn. rewrite Hc. reflexivity.
  - cbn [forallb]. rewrite Hc. exact IH.
Qed.

Lemma trim_forallb (P : N -> bool) (s : ustring) :
  forallb P s = true -> forallb P (trim s) = true.
Proof. intros H. apply trimEnd_forallb, trimStart_forallb, H. Qed.

(** A string that lower-cases, unit by unit, to an ASCII string is an
    ASCII string. *)
Lemma lower_unit_ascii (c : N) : (lower_unit c <? 0x80)%N = true -> (c <? 0x80)%N = true.
Proof.
  unfold lower_unit.
  destruct ((0x41 <=? c)%N && (c <=? 0x5A)%N) eqn:Hletter; [|auto].
  apply andb_prop in Hletter as [_ Hhi]. apply N.leb_le in Hhi.
  intros _. apply N.ltb_lt. lia.
Qed.

Lemma map_lower_ascii (s : ustring) :
  is_ascii (map lower_unit s) = true -> is_ascii s = true.
Proof.
  unfold is_ascii. induction s as [|c s IH]; cbn; intros H; [reflexivity|].
  apply andb_prop in H as [Hc H]. rewrite (lower_unit_ascii _ Hc), (IH H). reflexivity.
Qed.

Lemma eqb_refl (s : ustring) : eqb s s = true.
Proof. induction s as [|c s IH]; cbn; [|rewrite N.eqb_refl, IH]; reflexivity. Qed.

End TextFacts.

(** X12.  [readBooleanParam] reads a string parameter whatever its
    letter case and whatever white space surrounds it: a value made of the
    word "true" or "false" in any casing, padded on either side with any of
    the white space [trim] strips, is read as that boolean. *)
Theorem readBooleanParam_padded {unicode : Utf16.Unicode}
    (params : list (string * Utf16.Value)) (key : string)
    (left word right : Utf16.ustring) (b : bool) :
  JsValue.assoc key params = Some (Utf16.VString (left ++ word ++ right)) ->
  forallb Utf16.is_space left = true ->
  forallb Utf16.is_space right = true ->
  map Utf16.lower_unit word = Utf16.of_string (if b then "true" else "false") ->
  readBooleanParam params key = Some b.
Proof.
  intros Hv Hl Hr Hw. unfold readBooleanParam. rewrite Hv. cbv zeta.
  rewrite (trim_padded left word right Hl Hr).
  assert (Hascii : Utf16.is_ascii (Utf16.trim word) = true).
  { apply trim_forallb. apply map_lower_ascii. rewrite Hw. destruct b; reflexivity. }
  rewrite (Utf16.toLowerCase_ascii _ Hascii), <- trim_lower, Hw.
  destruct b; reflexivity.
Qed.

(** The word TRUE behind an em space and a space and before a byte order
    mark. *)
Lemma readBooleanParam_padded_witness :
  readBooleanParam (unicode := Utf16.ascii_only)
    [("silent", Utf16.VString ([0x2003; 0x20] ++ Utf16.of_string "TRUE" ++ [0xFEFF])%N);
     ("deep", Utf16.VNumber 1)] "silent" = Some true.
Proof.
  apply (readBooleanParam_padded (unicode := Utf16.ascii_only)
           [("silent",
             Utf16.VString ([0x2003; 0x20] ++ Utf16.of_string "TRUE" ++ [0xFEFF])%N);
            ("deep", Utf16.VNumber 1)]
           "silent" [0x2003; 0x20]%N (Utf16.of_string "TRUE") [0xFEFF]%N true);
    reflexivity.
Defined.

Section SanitizeFacts.

Lemma valid_user_id_string (s : Utf16.ustring) :
  valid_user_id (Utf16.VString s) = true <-> Utf16.trim s <> [].
Proof.
  cbn. destruct (Utf16.trim s); cbn; split; try discriminate; try congruence; auto.
Qed.

Lemma strings_of_filter (entries : list Utf16.Value) (id : Utf16.ustring) :
  In id (strings_of (filter valid_user_id entries)) ->
  In (Utf16.VString id) entries /\ valid_user_id (Utf16.VString id) = true.
Proof.
  induction entries as [|e entries IH]; cbn [filter strings_of]; [contradiction|].
  destruct (valid_user_id e) eqn:He.
  - destruct e; try discriminate He. cbn [strings_of]. intros [<-|Hin].
    + split; [left; reflexivity|exact He].
    + destruct (IH Hin). split; [right|]; assumption.
  - intros Hin. destruct (IH Hin). split; [right|]; assumption.
Qed.

Lemma filter_valid_strings (ids : list Utf16.ustring) :
  (forall id, In id ids -> valid_user_id (Utf16.VString id) = true) ->
  filter valid_user_id (map Utf16.VString ids) = map Utf16.VString ids.
Proof.
  induction ids as [|id ids IH]; intros H; cbn [map filter]; [reflexivity|].
  rewrite (H id (or_introl eq_refl)), IH; [reflexivity|].
  intros x Hx. apply H. right. exact Hx.
Qed.

Lemma strings_of_strings (ids : list Utf16.ustring) :
  strings_of (map Utf16.VString ids) = ids.
Proof. induction ids as [|id ids IH]; cbn; [|rewrite IH]; reflexivity. Qed.

End SanitizeFacts.

(** X13.  [sanitizeUserIdList] never throws and leaves the module state
    alone; every identifier it returns is a string entry of the input array
    that [trim] does not empty; and a list it has returned passes through it
    again unchanged and without a warning. *)
Theorem sanitizeUserIdList_sound (input : option Utf16.Value) (label : string)
    (st : ModuleState) :
  exists ids,
    outcome (sanitizeUserIdList input label st) = inr ids /\
    final (sanitizeUserIdList input label st) = st /\
    (forall id, In id ids ->
       Utf16.trim id <> [] /\
       exists entries, input = Some (Utf16.VArray entries) /\
                       In (Utf16.VString id) entries) /\
    sanitizeUserIdList (Some (Utf16.VArray (map Utf16.VString ids))) label st
      = mkRun (inr ids) st [].
Proof.
  assert (Hempty : sanitizeUserIdList (Some (Utf16.VArray (map Utf16.VString []))) label st
                   = mkRun (inr []) st []) by reflexivity.
  destruct input as [[| | | |entries|]|];
    try (exists []; repeat split; try contradiction; exact Hempty).
  exists (strings_of (filter valid_user_id entries)).
  assert (Hvalid : forall id, In id (strings_of (filter valid_user_id entries)) ->
                   valid_user_id (Utf16.VString id) = true).
  { intros id Hin. exact (proj2 (strings_of_filter _ _ Hin)). }
  repeat split.
  - cbn [sanitizeUserIdList]. destruct (negb _); reflexivity.
  - cbn [sanitizeUserIdList]. destruct (negb _); reflexivity.
  - apply valid_user_id_string. exact (Hvalid id H).
  - exists entries. split; [reflexivity|]. exact (proj1 (strings_of_filter _ _ H)).
  - cbn [sanitizeUserIdList]. rewrite (filter_valid_strings _ Hvalid), Nat.eqb_refl.
    cbn. rewrite strings_of_strings. reflexivity.
Qed.

(** ** monitor/media.ts *)

Section MediaFacts.

Context {platform : Platform} {runtime : Runtime}.

Lemma in_map_download (e : Event) (tr : list Event) :
  In (EvDownload e) (map EvDownload tr) -> In e tr.
Proof.
  intros H. apply in_map_iff in H as (x & Hx & Hin). injection Hx as ->. exact Hin.
Qed.

(** X14.  Every pooled request [fetchMatrixMediaBuffer] causes carries
    the query [allow_remote=false], is one of at most three attempts, and
    bears the client's token: the options object the caller passes lands in
    the place of [allowRemote], where it is not [true], and its [maxRetries]
    and [retryDelay] are read by nobody. *)
Theorem fetchMatrixMediaBuffer_requests (client : MatrixClient) (mxcUrl : string)
    (maxBytes : Z) (st : ModuleState) p k o :
  In (EvDownload (EvRequest p k o))
     (media_events (fetchMatrixMediaBuffer client mxcUrl maxBytes st)) ->
  0 <= k < 3 /\
  exists url,
    path o = (pathname (URL_searchParams_set url "allow_remote" "false")
                ++ search (URL_searchParams_set url "allow_remote" "false"))%string /\
    headers o = [("Authorization", ("Bearer " ++ or_empty (accessToken client))%string);
                 ("Accept", "*/*"%string);
                 ("Accept-Encoding", "gzip, deflate, br"%string)].
Proof.
  unfold fetchMatrixMediaBuffer. cbn [media_events]. intros Hin.
  apply in_map_download in Hin.
  split.
  - destruct (downloadContent_v2_attempts (Some mxcUrl) (or_empty (homeserverUrl client))
                (or_empty (accessToken client)) (JsText.strictly_true retry_options)
                30000 3 st) as (made & Hle & Hr & _).
    apply In_request_requests in Hin. cbv zeta in Hr. rewrite Hr in Hin.
    apply attempts_from_bounds in Hin. rewrite iterations_of_Z in Hle. lia.
  - destruct (downloadContent_v2_requests _ _ _ _ _ _ _ _ _ _ Hin)
      as (c & endpoint & url & _ & _ & _ & _ & ->).
    exists url. split; reflexivity.
Qed.

(** X15.  [fetchMatrixMediaBuffer] never returns [null].  A buffer it
    returns is the downloaded payload, no longer than [maxBytes], with a
    header type that is present and not empty.  Everything else - also a
    payload over the limit - is thrown as "Matrix media download failed: "
    followed by the rendering of the underlying error, with the module state
    and the events of the download as they are. *)
Theorem fetchMatrixMediaBuffer_outcome (client : MatrixClient) (mxcUrl : string)
    (maxBytes : Z) (st : ModuleState) :
  let download := downloadContent_v2 (Some mxcUrl) (or_empty (homeserverUrl client))
                    (or_empty (accessToken client)) false 30000 3 st in
  let r := fetchMatrixMediaBuffer client mxcUrl maxBytes st in
  media_final r = final download /\
  media_events r = map EvDownload (events download) /\
  match outcome download with
  | inr result =>
      if maxBytes <? Z.of_nat (List.length (data result)) then
        media_outcome r =
          inl (mkError ("Matrix media download failed: "
                          ++ String_of_thrown size_limit_error)%string)
      else
        media_outcome r
          = inr (Some (mkFetched (data result) (Some (contentType result)))) /\
        Z.of_nat (List.length (data result)) <= maxBytes /\
        contentType result <> ""%string
  | inl err =>
      media_outcome r =
        inl (mkError ("Matrix media download failed: " ++ String_of_thrown err)%string)
  end.
Proof.
  cbv zeta. unfold fetchMatrixMediaBuffer. cbn [media_final media_events media_outcome].
  change (JsText.strictly_true retry_options) with false.
  split; [reflexivity|]. split; [reflexivity|].
  destruct (outcome (downloadContent_v2 (Some mxcUrl) (or_empty (homeserverUrl client))
                       (or_empty (accessToken client)) false 30000 3 st))
    as [err|result] eqn:Ho; [reflexivity|].
  destruct (Z.ltb_spec maxBytes (Z.of_nat (List.length (data result)))); [reflexivity|].
  split; [reflexivity|]. split; [lia|].
  destruct (downloadContent_v2_result _ _ _ _ _ _ _ _ Ho)
    as (p & k & o & pre & response & _ & _ & _ & _ & _ & _ & Hne).
  exact Hne.
Qed.

Lemma fetchMatrixMediaBuffer_fetched (client : MatrixClient) (mxcUrl : string)
    (maxBytes : Z) (st : ModuleState) (fetched : option Fetched) :
  media_outcome (fetchMatrixMediaBuffer client mxcUrl maxBytes st) = inr fetched ->
  exists payload headerType,
    fetched = Some (mkFetched payload (Some headerType)) /\
    Z.of_nat (List.length payload) <= maxBytes.
Proof.
  unfold fetchMatrixMediaBuffer. cbn [media_outcome].
  destruct (outcome _) as [err|result]; [discriminate|].
  destruct (Z.ltb_spec maxBytes (Z.of_nat (List.length (data result)))) as [Hlt|Hge];
    [discriminate|].
  intros Hf. injection Hf as <-. eauto.
Qed.

Lemma fetchEncryptedMediaBuffer_fetched (client : MatrixClient) (file : EncryptedFile)
    (maxBytes : Z) (st : ModuleState) (fetched : option Fetched) :
  media_outcome (fetchEncryptedMediaBuffer client file maxBytes st) = inr fetched ->
  crypto client = true /\
  decryptMedia file = inr (match fetched with Some f => buffer f | None => [] end) /\
  exists payload,
    fetched = Some (mkFetched payload None) /\
    Z.of_nat (List.length payload) <= maxBytes.
Proof.
  unfold fetchEncryptedMediaBuffer.
  destruct (crypto client); cbn [negb]; [|discriminate].
  destruct (decryptMedia file) as [err|decrypted]; [discriminate|].
  destruct (Z.ltb_spec maxBytes (Z.of_nat (List.length decrypted))) as [Hlt|Hge];
    [discriminate|].
  cbn [media_outcome]. intros Hf. injection Hf as <-. cbn. eauto.
Qed.

(** X16.  Whatever [downloadMatrixMedia] hands to the store fits the
    limit: a save is always of a buffer no longer than [maxBytes], into
    "inbound", with [maxBytes] as its limit, and is the last event of the
    call.  A declared size over the limit stops the call before any event.
    The call never returns [null], and a result it returns carries the
    placeholder "[matrix media]". *)
Theorem downloadMatrixMedia_within_limit (client : MatrixClient) (mxcUrl : string)
    (contentType : option string) (sizeBytes : option Z) (maxBytes : Z)
    (file : option EncryptedFile) (st : ModuleState) :
  let r := downloadMatrixMedia client mxcUrl contentType sizeBytes maxBytes file st in
  (forall buf hint dir limit,
      In (EvSave buf hint dir limit) (media_events r) ->
      Z.of_nat (List.length buf) <= maxBytes /\
      dir = "inbound"%string /\ limit = maxBytes /\
      exists pre, media_events r = pre ++ [EvSave buf hint dir limit] /\
                  forall b h d l, ~ In (EvSave b h d l) pre) /\
  (forall size, sizeBytes = Some size -> maxBytes < size ->
      r = mkMediaRun (inl size_limit_error) st []) /\
  media_outcome r <> inr None /\
  (forall result, media_outcome r = inr (Some result) ->
      placeholder result = "[matrix media]"%string).
Proof.
  intros r.
  assert (Hpre : forall size, sizeBytes = Some size -> maxBytes < size ->
                 r = mkMediaRun (inl size_limit_error) st []).
  { intros size -> Hlt. subst r. unfold downloadMatrixMedia.
    replace (maxBytes <? size) with true by lia. reflexivity. }
  assert (Hnosave_plain : forall b h d l,
             ~ In (EvSave b h d l)
                 (media_events (fetchMatrixMediaBuffer client mxcUrl maxBytes st))).
  { intros b h d l Hin. unfold fetchMatrixMediaBuffer in Hin. cbn [media_events] in Hin.
    apply in_map_iff in Hin as (x & Hx & _). discriminate. }
  assert (Hnosave_enc : forall f b h d l,
             ~ In (EvSave b h d l)
                 (media_events (fetchEncryptedMediaBuffer client f maxBytes st))).
  { intros f b h d l Hin. unfold fetchEncryptedMediaBuffer in Hin.
    destruct (negb (crypto client)); [contradiction|].
    destruct (decryptMedia f) as [err|decrypted];
      [|destruct (maxBytes <? _)]; cbn in Hin; destruct Hin as [Hin|[]]; discriminate. }
  split; [|split; [exact Hpre|]].
  - (* saves *)
    subst r. unfold downloadMatrixMedia.
    destruct (match sizeBytes with Some size => maxBytes <? size | None => false end);
      [intros ? ? ? ? []|].
    set (fetching := match file with
                     | Some f => fetchEncryptedMediaBuffer client f maxBytes st
                     | None => fetchMatrixMediaBuffer client mxcUrl maxBytes st
                     end).
    assert (Hnosave : forall b h d l, ~ In (EvSave b h d l) (media_events fetching)).
    { subst fetching. destruct file; [apply Hnosave_enc|apply Hnosave_plain]. }
    assert (Hfit : forall fetched, media_outcome fetching = inr (Some fetched) ->
                   Z.of_nat (List.length (buffer fetched)) <= maxBytes).
    { subst fetching. intros fetched Hf. destruct file as [f|].
      - apply fetchEncryptedMediaBuffer_fetched in Hf as (_ & _ & payload & Heq & Hle).
        injection Heq as ->. exact Hle.
      - apply fetchMatrixMediaBuffer_fetched in Hf as (payload & ht & Heq & Hle).
        injection Heq as ->. exact Hle. }
    destruct (media_outcome fetching) as [err|[fetched|]] eqn:Hout.
    + cbn [media_events]. intros b h d l Hin. exfalso. exact (Hnosave _ _ _ _ Hin).
    + specialize (Hfit fetched eq_refl).
      intros b h d l Hin.
      assert (Hev : In (EvSave b h d l)
                      (media_events fetching
                         ++ [EvSave (buffer fetched)
                               (nullish_or (headerType fetched) contentType)
                               "inbound" maxBytes])).
      { destruct (saveMediaBuffer _ _ _ _); exact Hin. }
      apply in_app_or in Hev as [Hev|[Hev|[]]]; [exfalso; exact (Hnosave _ _ _ _ Hev)|].
      injection Hev as <- <- <- <-. repeat split; auto.
      exists (media_events fetching). split; [|exact Hnosave].
      destruct (saveMediaBuffer _ _ _ _); reflexivity.
    + cbn [media_events]. intros b h d l Hin. exfalso. exact (Hnosave _ _ _ _ Hin).
  - (* never null, placeholder *)
    subst r. unfold downloadMatrixMedia.
    destruct (match sizeBytes with Some size => maxBytes <? size | None => false end);
      [split; [discriminate|intros ? H; discriminate H]|].
    set (fetching := match file with
                     | Some f => fetchEncryptedMediaBuffer client f maxBytes st
                     | None => fetchMatrixMediaBuffer client mxcUrl maxBytes st
                     end).
    assert (Hsome : media_outcome fetching <> inr None).
    { subst fetching. intros Hf. destruct file as [f|].
      - apply fetchEncryptedMediaBuffer_fetched in Hf as (_ & _ & payload & Heq & _).
        discriminate.
      - apply fetchMatrixMediaBuffer_fetched in Hf as (payload & ht & Heq & _).
        discriminate. }
    destruct (media_outcome fetching) as [err|[fetched|]].
    + split; [discriminate|intros ? H; discriminate H].
    + destruct (saveMediaBuffer _ _ _ _) as [err|saved];
        (split; [discriminate|]); intros result H; [discriminate|].
      injection H as <-. reflexivity.
    + contradiction.
Qed.

(** X17.  For media that is not encrypted the content type the caller
    supplies is never used: the header type of the download is always
    present, so two calls that differ only in [contentType] run identically,
    and what is handed to the store as the type is the content type of the
    downloaded response. *)
Theorem downloadMatrixMedia_plain_content_type (client : MatrixClient) (mxcUrl : string)
    (contentType1 contentType2 : option string) (sizeBytes : option Z) (maxBytes : Z)
    (st : ModuleState) :
  downloadMatrixMedia client mxcUrl contentType1 sizeBytes maxBytes None st =
  downloadMatrixMedia client mxcUrl contentType2 sizeBytes maxBytes None st /\
  (forall buf hint dir limit,
      In (EvSave buf hint dir limit)
         (media_events (downloadMatrixMedia client mxcUrl contentType1 sizeBytes maxBytes
                          None st)) ->
      exists result,
        outcome (downloadContent_v2 (Some mxcUrl) (or_empty (homeserverUrl client))
                   (or_empty (accessToken client)) false 30000 3 st) = inr result /\
        buf = data result /\
        hint = Some (contentType result)).
Proof.
  unfold downloadMatrixMedia.
  destruct (match sizeBytes with Some size => maxBytes <? size | None => false end);
    [split; [reflexivity|intros ? ? ? ? []]|].
  assert (Hnosave : forall b h d l,
             ~ In (EvSave b h d l)
                 (media_events (fetchMatrixMediaBuffer client mxcUrl maxBytes st))).
  { intros b h d l Hin. unfold fetchMatrixMediaBuffer in Hin. cbn [media_events] in Hin.
    apply in_map_iff in Hin as (x & Hx & _). discriminate. }
  destruct (media_outcome (fetchMatrixMediaBuffer client mxcUrl maxBytes st))
    as [err|[fetched|]] eqn:Hout.
  - split; [reflexivity|]. cbn [media_events]. intros b h d l Hin.
    exfalso. exact (Hnosave _ _ _ _ Hin).
  - pose proof Hout as Hshape.
    apply fetchMatrixMediaBuffer_fetched in Hshape as (payload & ht & Heq & _).
    injection Heq as ->.
    cbn [headerType nullish_or buffer]. split; [reflexivity|].
    intros b h d l Hin.
    assert (Hev : In (EvSave b h d l)
                    (media_events (fetchMatrixMediaBuffer client mxcUrl maxBytes st)
                       ++ [EvSave payload (Some ht) "inbound" maxBytes])).
    { destruct (saveMediaBuffer _ _ _ _); exact Hin. }
    apply in_app_or in Hev as [Hev|[Hev|[]]]; [exfalso; exact (Hnosave _ _ _ _ Hev)|].
    injection Hev as <- <- <- <-.
    unfold fetchMatrixMediaBuffer in Hout. cbn [media_outcome] in Hout.
    change (JsText.strictly_true retry_options) with false in Hout.
    destruct (outcome (downloadContent_v2 _ _ _ _ _ _ _)) as [err|result];
      [discriminate|].
    destruct (maxBytes <? _); [discriminate|].
    injection Hout as <- <-. exists result. auto.
  - split; [reflexivity|]. cbn [media_events]. intros b h d l Hin.
    exfalso. exact (Hnosave _ _ _ _ Hin).
Qed.

(** X18.  For encrypted media [downloadContent_v2] is not called: the
    call causes no download event and leaves the module state alone.
    Without [client.crypto] it throws "Cannot decrypt media: crypto not
    enabled" before decrypting anything; with it, whatever is saved is the
    decrypted payload, typed by the content type the caller supplied. *)
Theorem downloadMatrixMedia_encrypted (client : MatrixClient) (mxcUrl : string)
    (contentType : option string) (sizeBytes : option Z) (maxBytes : Z)
    (file : EncryptedFile) (st : ModuleState) :
  let r := downloadMatrixMedia client mxcUrl contentType sizeBytes maxBytes (Some file)
             st in
  downloads (media_events r) = [] /\
  media_final r = st /\
  (crypto client = false ->
     forall f, ~ In (EvDecrypt f) (media_events r)) /\
  (crypto client = false ->
     (forall size, sizeBytes = Some size -> size <= maxBytes) ->
     media_outcome r = inl (mkError "Cannot decrypt media: crypto not enabled")) /\
  (forall buf hint dir limit,
      In (EvSave buf hint dir limit) (media_events r) ->
      decryptMedia file = inr buf /\ hint = contentType).
Proof.
  cbv zeta. unfold downloadMatrixMedia.
  assert (Hfetch :
    let fetching := fetchEncryptedMediaBuffer client file maxBytes st in
    downloads (media_events fetching) = [] /\
    media_final fetching = st /\
    (forall b h d l, ~ In (EvSave b h d l) (media_events fetching)) /\
    (crypto client = false ->
       fetching = mkMediaRun (inl (mkError "Cannot decrypt media: crypto not enabled"))
                    st []) /\
    (forall fetched, media_outcome fetching = inr (Some fetched) ->
       decryptMedia file = inr (buffer fetched) /\ headerType fetched = None)).
  { cbv zeta. unfold fetchEncryptedMediaBuffer.
    destruct (crypto client); cbn [negb].
    - destruct (decryptMedia file) as [err|decrypted].
      + cbn. repeat split; try discriminate. intros ? ? ? ? [H|[]]. discriminate.
      + destruct (maxBytes <? Z.of_nat (List.length decrypted)); cbn.
        * repeat split; try discriminate. intros ? ? ? ? [H|[]]. discriminate.
        * repeat split; try discriminate.
          -- intros ? ? ? ? [H|[]]. discriminate.
          -- injection H as <-. reflexivity.
          -- injection H as <-. reflexivity.
    - cbn. repeat split; try discriminate. intros ? ? ? ? []. }
  cbv zeta in Hfetch. destruct Hfetch as (Hd & Hst & Hnosave & Hnocrypto & Hsaved).
  destruct (match sizeBytes with Some size => maxBytes <? size | None => false end)
    eqn:Hpre.
  { cbn. split; [reflexivity|]. split; [reflexivity|]. split; [auto|].
    split; [|intros ? ? ? ? []].
    intros _ Hfit. destruct sizeBytes as [size|]; [|discriminate].
    specialize (Hfit size eq_refl). lia. }
  destruct (media_outcome (fetchEncryptedMediaBuffer client file maxBytes st))
    as [err|[fetched|]] eqn:Hout; cbn [media_events media_final media_outcome].
  - split; [exact Hd|]. split; [exact Hst|]. split.
    { intros Hc f. rewrite (Hnocrypto Hc). cbn. auto. }
    split.
    { intros Hc _. rewrite (Hnocrypto Hc) in Hout. cbn in Hout. congruence. }
    intros b h d l Hin. exfalso. exact (Hnosave _ _ _ _ Hin).
  - destruct (Hsaved fetched eq_refl) as [Hdec Hht].
    assert (Hevents :
      forall run : MediaRun (option MediaResult),
        media_events run
          = media_events (fetchEncryptedMediaBuffer client file maxBytes st)
              ++ [EvSave (buffer fetched) (nullish_or (headerType fetched) contentType)
                    "inbound" maxBytes] ->
        media_final run = st ->
        downloads (media_events run) = [] /\
        media_final run = st /\
        (crypto client = false -> forall f, ~ In (EvDecrypt f) (media_events run)) /\
        (crypto client = false ->
           (forall size, sizeBytes = Some size -> size <= maxBytes) ->
           media_outcome run = inl (mkError "Cannot decrypt media: crypto not enabled")) /\
        (forall buf hint dir limit,
            In (EvSave buf hint dir limit) (media_events run) ->
            decryptMedia file = inr buf /\ hint = contentType)).
    { intros run Hev Hfin. rewrite Hev.
      assert (Hdapp : forall a b, downloads (a ++ b) = downloads a ++ downloads b).
      { induction a as [|[] a IH]; intros; cbn; rewrite ?IH; reflexivity. }
      split; [rewrite Hdapp, Hd; reflexivity|]. split; [exact Hfin|].
      split; [intros Hc; rewrite (Hnocrypto Hc) in Hout; discriminate|].
      split; [intros Hc; rewrite (Hnocrypto Hc) in Hout; discriminate|].
      intros b h d l Hin. apply in_app_or in Hin as [Hin|[Hin|[]]];
        [exfalso; exact (Hnosave _ _ _ _ Hin)|].
      injection Hin as <- <- _ _. rewrite Hht. auto. }
    destruct (saveMediaBuffer _ _ _ _); apply Hevents; try reflexivity; exact Hst.
  - split; [exact Hd|]. split; [exact Hst|]. split.
    { intros Hc f. rewrite (Hnocrypto Hc). cbn. auto. }
    split.
    { intros Hc _. rewrite (Hnocrypto Hc) in Hout. discriminate. }
    intros b h d l Hin. exfalso. exact (Hnosave _ _ _ _ Hin).
Qed.

End MediaFacts.

(** ** Concrete runs of the further properties *)

Lemma parseMXCUrl_components_witness :
  "example.org"%string <> ""%string /\
  "a/b"%string <> ""%string /\
  Js.includes "/" "example.org" = false /\
  (exists scheme,
      "MXC://example.org/a/b"%string = (scheme ++ "example.org" ++ "/" ++ "a/b")%string /\
      Js.toLowerCase scheme = "mxc://"%string) /\
  parseMXCUrl (Some "mxc://example.org/a/b") = inr (mkMXC "example.org" "a/b").
Proof.
  exact (parseMXCUrl_components "MXC://example.org/a/b" (mkMXC "example.org" "a/b")
           eq_refl).
Defined.

Lemma buildMxcDownloadUrl_agrees_witness :
  buildMxcDownloadUrl "mxc://example.org/a/b" =
    Some "https://example.org/_matrix/media/r0/download/example.org/a/b"%string.
Proof.
  exact (buildMxcDownloadUrl_agrees "mxc://example.org/a/b" (mkMXC "example.org" "a/b")
           eq_refl eq_refl).
Defined.

Lemma download_errors_witness :
  let agent := mkPool 0 Scenario.homeserver pool_settings in
  let url := mkURL Scenario.homeserver "/_matrix/media/v3/download/example.org/abc123" "" in
  let e := mkError "Failed to download after 3 attempts: HTTP 503: down" in
  exists (i : Z) (attemptError : Error),
    0 <= i /\ below i 3 = true /\
    match pool_request (Platform := Scenario.unavailable) agent i
            (request_options (with_query (platform := Scenario.unavailable) url true)
               Scenario.token)
    with
    | RequestRejected rejected => inl rejected
    | RequestResolved response => read_response (platform := Scenario.unavailable) response
    end = inl attemptError /\
    ((Js.includes "Not a valid MXC URI" (message attemptError) = true /\
      e = attemptError) \/
     (Js.includes "Not a valid MXC URI" (message attemptError) = false /\
      exists n, whole 3 = Some n /\ i = n - 1 /\
                e = mkError ("Failed to download after " ++ Js.string_of_Z n
                               ++ " attempts: " ++ message attemptError)%string) \/
     (Js.includes "Not a valid MXC URI" (message attemptError) = false /\
      whole 3 = None /\
      below (i + 1) 3 = false /\
      e = attemptError)).
Proof.
  intros agent url e.
  apply (download_errors (platform := Scenario.unavailable)
           Scenario.media Scenario.homeserver Scenario.token true 30000 3 initial_state
           (mkMXC "example.org" "abc123") legacy_prefix url agent e).
  - reflexivity.
  - reflexivity.
  - reflexivity.
  - reflexivity.
  - reflexivity.
  - reflexivity.
Defined.

Lemma download_keeps_its_reference_witness :
  let r := downloadContent_v2 (platform := Scenario.unavailable)
             Scenario.media Scenario.homeserver Scenario.token true 30000 3
             Scenario2.warm_state in
  final r = final (getSharedAgent (platform := Scenario.unavailable)
                     Scenario.homeserver Scenario2.warm_state) /\
  pool_steps (events r)
    = pool_steps (events (getSharedAgent (platform := Scenario.unavailable)
                            Scenario.homeserver Scenario2.warm_state)) /\
  (forall agent, sharedAgent Scenario2.warm_state = Some agent ->
     final r = mkState (Some agent) (agentRefCount Scenario2.warm_state + 1)
                 (poolsCreated Scenario2.warm_state) /\
     pool_steps (events r) = []).
Proof.
  apply (download_keeps_its_reference (platform := Scenario.unavailable)
           Scenario.media Scenario.homeserver Scenario.token true 30000 3
           Scenario2.warm_state (mkMXC "example.org" "abc123") legacy_prefix
           (mkURL Scenario.homeserver "/_matrix/media/v3/download/example.org/abc123" "")).
  - reflexivity.
  - reflexivity.
  - reflexivity.
Defined.

Lemma download_reuses_shared_pool_witness :
  Scenario2.first_pool = Scenario2.first_pool /\
  pool_steps (events (downloadContent_v2 (platform := Scenario.serves_png)
                        Scenario.media Scenario.homeserver Scenario.token true 30000 3
                        Scenario2.warm_state)) = [].
Proof.
  apply (download_reuses_shared_pool (platform := Scenario.serves_png)
           Scenario.media Scenario.homeserver Scenario.token true 30000 3
           Scenario2.warm_state Scenario2.first_pool Scenario2.first_pool 0
           (request_options
              (mkURL Scenario.homeserver
                 "/_matrix/client/v1/media/download/example.org/abc123" "")
              Scenario.token)).
  - reflexivity.
  - vm_compute. repeat (first [left; reflexivity | right]).
Defined.

Lemma download_request_shape_witness :
  exists mxcComponents endpoint url,
    parseMXCUrl Scenario.media = inr mxcComponents /\
    (endpoint = modern_prefix \/ endpoint = legacy_prefix) /\
    URL_new (Platform := Scenario.serves_png)
      (endpoint ++ "/download/" ++ domain mxcComponents ++ "/" ++ mediaId mxcComponents)%string
      (Some Scenario.homeserver) = Some url /\
    "GET"%string = "GET"%string /\
    "/_matrix/client/v1/media/download/example.org/abc123?allow_remote=false"%string =
      (pathname (URL_searchParams_set (Platform := Scenario.serves_png)
                   url "allow_remote" "false")
         ++ search (URL_searchParams_set (Platform := Scenario.serves_png)
                      url "allow_remote" "false"))%string /\
    [("Authorization", "Bearer syt_token"%string); ("Accept", "*/*"%string);
     ("Accept-Encoding", "gzip, deflate, br"%string)]
      = [("Authorization", ("Bearer " ++ Scenario.token)%string);
         ("Accept", "*/*"%string);
         ("Accept-Encoding", "gzip, deflate, br"%string)].
Proof.
  apply (download_request_shape (platform := Scenario.serves_png)
           Scenario.media Scenario.homeserver Scenario.token false 30000 3
           Scenario2.warm_state Scenario2.first_pool 0
           (mkRequestOptions "GET"
              "/_matrix/client/v1/media/download/example.org/abc123?allow_remote=false"
              [("Authorization", "Bearer syt_token"%string); ("Accept", "*/*"%string);
               ("Accept-Encoding", "gzip, deflate, br"%string)])).
  vm_compute. repeat (first [left; reflexivity | right]).
Defined.

Lemma download_result_from_response_witness :
  let r := downloadContent_v2 (platform := Scenario.serves_png)
             Scenario.media Scenario.homeserver Scenario.token true 30000 3
             initial_state in
  exists p k o pre response,
    events r = pre ++ [EvRequest p k o; EvLog Debug "Download complete"] /\
    pool_request (Platform := Scenario.serves_png) p k o = RequestResolved response /\
    200 <= statusCode response <= 299 /\
    failure (body response) = None /\
    bytes_of "abc" = concat (chunks (body response)) /\
    "image/png"%string =
      header_or (response_headers response) "content-type" "application/octet-stream" /\
    "image/png"%string <> ""%string.
Proof.
  apply (download_result_from_response (platform := Scenario.serves_png)
           Scenario.media Scenario.homeserver Scenario.token true 30000 3
           initial_state (mkDownloadResult (bytes_of "abc") "image/png")).
  reflexivity.
Defined.

Lemma resolver_stops_at_non_string_witness :
  outcome (getMediaEndpointPrefix (platform := Scenario2.mixed_versions)
             Scenario.homeserver Scenario.token initial_state) = inr legacy_prefix.
Proof.
  apply (resolver_stops_at_non_string (platform := Scenario2.mixed_versions)
           Scenario.homeserver Scenario.token initial_state
           (mkURL Scenario.homeserver "/_matrix/client/versions" "")
           (mkFetchResponse 200
              (JsonResolved
                 (JObject [("versions",
                            JArray [JString "v1.1"; JNumber 5; JString "v1.11"])])))
           [("versions", JArray [JString "v1.1"; JNumber 5; JString "v1.11"])]
           ["v1.1"%string] (JNumber 5) [JString "v1.11"]).
  - reflexivity.
  - reflexivity.
  - reflexivity.
  - reflexivity.
  - reflexivity.
  - intros s. discriminate.
Defined.

Lemma pool_calls_invariant_witness :
  let calls := [Acquire Scenario.homeserver; Release; Release; Acquire "no scheme";
                Acquire Scenario.homeserver; Acquire "https://other.example.org";
                Release] in
  let r := pool_calls (platform := Scenario.unavailable) calls initial_state in
  outcome r = inr tt /\
  coherent (final r) /\
  replay (sharedAgent initial_state) (pool_steps (events r)) = Some (sharedAgent (final r)).
Proof.
  apply (pool_calls_invariant (platform := Scenario.unavailable)
           [Acquire Scenario.homeserver; Release; Release; Acquire "no scheme";
            Acquire Scenario.homeserver; Acquire "https://other.example.org"; Release]
           initial_state).
  unfold coherent. cbn. lia.
Defined.

Lemma fetchMatrixMediaBuffer_requests_witness :
  0 <= 0 < 3 /\
  exists url,
    "/_matrix/client/v1/media/download/example.org/abc123?allow_remote=false"%string =
      (pathname (URL_searchParams_set (Platform := Scenario2.big_png)
                   url "allow_remote" "false")
         ++ search (URL_searchParams_set (Platform := Scenario2.big_png)
                      url "allow_remote" "false"))%string /\
    [("Authorization", "Bearer syt_token"%string); ("Accept", "*/*"%string);
     ("Accept-Encoding", "gzip, deflate, br"%string)]
      = [("Authorization", ("Bearer " ++ or_empty (accessToken Scenario2.client))%string);
         ("Accept", "*/*"%string);
         ("Accept-Encoding", "gzip, deflate, br"%string)].
Proof.
  apply (fetchMatrixMediaBuffer_requests (platform := Scenario2.big_png)
           (runtime := Scenario2.plain_runtime)
           Scenario2.client "mxc://example.org/abc123" 1000 initial_state
           (mkPool 0 Scenario.homeserver pool_settings) 0
           (mkRequestOptions "GET"
              "/_matrix/client/v1/media/download/example.org/abc123?allow_remote=false"
              [("Authorization", "Bearer syt_token"%string); ("Accept", "*/*"%string);
               ("Accept-Encoding", "gzip, deflate, br"%string)])).
  vm_compute. repeat (first [left; reflexivity | right]).
Defined.

(** The three ways a size over the limit is reported, on a ten-byte
    payload and a limit of four: a declared size stops the call with the
    bare error and no event; a plain download is made and then reported as a
    failed download; an encrypted payload is decrypted and then reported
    with the bare error. *)
Example size_limit_reports :
  downloadMatrixMedia (platform := Scenario2.big_png) (runtime := Scenario2.plain_runtime)
    Scenario2.client "mxc://example.org/abc123" None (Some 10) 4 None initial_state
    = mkMediaRun (inl (mkError "Matrix media exceeds configured size limit"))
        initial_state [] /\
  media_outcome
    (downloadMatrixMedia (platform := Scenario2.big_png)
       (runtime := Scenario2.plain_runtime)
       Scenario2.client "mxc://example.org/abc123" None None 4 None initial_state)
    = inl (mkError ("Matrix media download failed: "
                      ++ "Error: Matrix media exceeds configured size limit")) /\
  media_outcome
    (downloadMatrixMedia (platform := Scenario2.big_png)
       (runtime := Scenario2.plain_runtime)
       Scenario2.client "mxc://example.org/abc123" None None 4
       (Some Scenario2.encrypted_file) initial_state)
    = inl (mkError "Matrix media exceeds configured size limit").
Proof. repeat split. Qed.

(** ** The version probe and errors that are not retried *)

Section ProbeFacts.

Context {platform : Platform}.

Lemma fetches_app (a b : list Event) : fetches (a ++ b) = fetches a ++ fetches b.
Proof.
  induction a as [|[] a IH]; cbn; rewrite ?IH; reflexivity.
Qed.

Lemma In_fetch_fetches (url : string) (hs : Headers) (tr : list Event) :
  In (EvFetch url hs) tr -> In url (fetches tr).
Proof.
  induction tr as [|ev tr IH]; [contradiction|].
  intros [->|Hin]; [left; reflexivity|].
  destruct ev; cbn; auto.
Qed.

Lemma retry_loop_fetches agent url accessToken maxRetries remaining :
  forall i last st,
    fetches (events (retry_loop agent url accessToken maxRetries remaining i last st)) = [].
Proof.
  induction remaining as [|remaining IH]; intros i last st; [reflexivity|].
  assert (Hre : fetches (request_events agent url accessToken i) = []).
  { unfold request_events, retry_events. destruct (0 <? i); reflexivity. }
  rewrite retry_loop_step.
  destruct (attempt_result agent url accessToken i) as [e|res].
  2:{ cbn [events]. rewrite fetches_app, Hre. reflexivity. }
  destruct (Js.includes _ _); [cbn [events]; rewrite fetches_app, Hre; reflexivity|].
  destruct (last_attempt i maxRetries); [cbn [events]; rewrite fetches_app, Hre; reflexivity|].
  cbn [events]. rewrite fetches_app, Hre. cbn [fetches app]. apply IH.
Qed.

Lemma getSharedAgent_fetches (homeserverUrl : string) (st : ModuleState) :
  fetches (events (getSharedAgent homeserverUrl st)) = [].
Proof.
  destruct (sharedAgent st) as [agent|] eqn:Hs.
  - rewrite (getSharedAgent_existing _ _ _ Hs). reflexivity.
  - destruct (URL_new homeserverUrl None) as [u|] eqn:Hu.
    + rewrite (getSharedAgent_fresh _ _ _ Hs Hu). reflexivity.
    + rewrite (getSharedAgent_invalid _ _ Hs Hu). reflexivity.
Qed.

(** The events of the resolver: nothing but its one fetch, and the log
    line of a failure. *)
Lemma getMediaEndpointPrefix_events (homeserverUrl accessToken : string)
    (st : ModuleState) (ev : Event) :
  In ev (events (getMediaEndpointPrefix homeserverUrl accessToken st)) ->
  (exists u,
      URL_new "/_matrix/client/versions" (Some homeserverUrl) = Some u /\
      ev = EvFetch (URL_toString u)
             (if Js.truthy accessToken
              then [("Authorization", ("Bearer " ++ accessToken)%string)] else [])) \/
  ev = EvLog Debug "Failed to detect server version, using legacy media endpoint:".
Proof.
  rewrite getMediaEndpointPrefix_run, probe_versions_run. cbv zeta.
  destruct (URL_new "/_matrix/client/versions" (Some homeserverUrl)) as [u|].
  2:{ cbn. intros [<-|[]]. auto. }
  assert (Hf : forall tail,
             tail = [] \/
             tail = [EvLog Debug
                       "Failed to detect server version, using legacy media endpoint:"] ->
             In ev (EvFetch (URL_toString u)
                      (if Js.truthy accessToken
                       then [("Authorization", ("Bearer " ++ accessToken)%string)]
                       else []) :: tail) ->
             (exists u0, Some u = Some u0 /\
                ev = EvFetch (URL_toString u0)
                       (if Js.truthy accessToken
                        then [("Authorization", ("Bearer " ++ accessToken)%string)]
                        else [])) \/
             ev = EvLog Debug
                    "Failed to detect server version, using legacy media endpoint:").
  { intros tail Ht [<-|Hin]; [left; eauto|].
    destruct Ht as [->| ->]; [contradiction|]. destruct Hin as [<-|[]]. auto. }
  destruct (fetch _ _) as [e|r]; [apply Hf; auto|].
  destruct (ok r); [|apply Hf; auto].
  destruct (fetch_json r) as [e|j]; [apply Hf; auto|].
  destruct (JsValue.some _ _) as [e|[|]]; apply Hf; auto.
Qed.

Lemma getMediaEndpointPrefix_fetches (homeserverUrl accessToken : string)
    (st : ModuleState) :
  (List.length (fetches (events (getMediaEndpointPrefix homeserverUrl accessToken st)))
     <= 1)%nat.
Proof.
  rewrite getMediaEndpointPrefix_run, probe_versions_run. cbv zeta.
  destruct (URL_new "/_matrix/client/versions" (Some homeserverUrl)) as [u|];
    [|cbn; lia].
  destruct (fetch _ _) as [e|r]; [cbn; lia|].
  destruct (ok r); [|cbn; lia].
  destruct (fetch_json r) as [e|j]; [cbn; lia|].
  destruct (JsValue.some _ _) as [e|[|]]; cbn; lia.
Qed.

(** X19.  A call fetches the version list at most once, however many
    attempts it makes, and not at all when the identifier does not parse.
    The fetch goes to "/_matrix/client/versions" on the homeserver given to
    the call, and carries the bearer token exactly when the token is not
    empty. *)
Theorem download_probes_once mxcUrl homeserverUrl accessToken allowRemote timeoutMs
    maxRetries st :
  let r := downloadContent_v2 mxcUrl homeserverUrl accessToken allowRemote timeoutMs
             maxRetries st in
  (List.length (fetches (events r)) <= 1)%nat /\
  (forall err, parseMXCUrl mxcUrl = inl err -> fetches (events r) = []) /\
  (forall url hs, In (EvFetch url hs) (events r) ->
     (exists u,
         URL_new "/_matrix/client/versions" (Some homeserverUrl) = Some u /\
         url = URL_toString u) /\
     hs = if Js.truthy accessToken
          then [("Authorization", ("Bearer " ++ accessToken)%string)] else []).
Proof.
  intros r.
  assert (Hshape : fetches (events r) = [] \/
                   (exists tail,
                       fetches tail = [] /\
                       events r = EvLog Debug "Starting download"
                                    :: events (getMediaEndpointPrefix homeserverUrl
                                                 accessToken st) ++ tail)).
  { subst r. rewrite downloadContent_v2_run. cbv zeta.
    destruct (getMediaEndpointPrefix_total homeserverUrl accessToken st)
      as (prefix & evs & Hp & _).
    rewrite Hp. cbn [outcome events].
    destruct (parseMXCUrl mxcUrl) as [err|c]; [left; reflexivity|].
    destruct (URL_new _ _) as [url|].
    2:{ right. exists []. rewrite app_nil_r. auto. }
    destruct (outcome (getSharedAgent homeserverUrl st)) as [err|agent].
    - right. exists (events (getSharedAgent homeserverUrl st)).
      split; [apply getSharedAgent_fetches|reflexivity].
    - right. eexists. split; [|reflexivity].
      rewrite fetches_app, getSharedAgent_fetches, retry_loop_fetches. reflexivity. }
  split; [|split].
  - destruct Hshape as [->|(tail & Ht & ->)]; [cbn; lia|].
    cbn [fetches]. rewrite fetches_app, Ht, app_nil_r.
    apply getMediaEndpointPrefix_fetches.
  - intros err Herr. subst r. rewrite downloadContent_v2_run. cbv zeta.
    rewrite Herr. reflexivity.
  - intros url hs Hin.
    destruct Hshape as [Hnone|(tail & Ht & Hev)].
    + apply In_fetch_fetches in Hin. rewrite Hnone in Hin. contradiction.
    + rewrite Hev in Hin. destruct Hin as [Hin|Hin]; [discriminate|].
      apply in_app_or in Hin as [Hin|Hin].
      * apply getMediaEndpointPrefix_events in Hin as [(u & Hu & Heq)|Heq];
          [|discriminate].
        injection Heq as -> ->. split; eauto.
      * apply In_fetch_fetches in Hin. rewrite Ht in Hin. contradiction.
Qed.

(** X20.  What the resolver does on a list of version strings: when the
    probe answers with a success status and a body whose [versions] is an
    array of strings, the modern prefix is chosen exactly when one of them
    is "v1." followed by a minor version from 11 to 99, written in decimal;
    otherwise the legacy prefix. *)
Theorem resolver_accepts_minor_11_to_99 homeserverUrl accessToken st u r members
    (versions : list string) :
  URL_new "/_matrix/client/versions" (Some homeserverUrl) = Some u ->
  fetch (URL_toString u)
    (if Js.truthy accessToken
     then [("Authorization", ("Bearer " ++ accessToken)%string)] else [])
    = FetchResolved r ->
  ok r = true ->
  fetch_json r = JsonResolved (JObject members) ->
  JsValue.assoc "versions" members = Some (JArray (map JString versions)) ->
  (outcome (getMediaEndpointPrefix homeserverUrl accessToken st) = inr modern_prefix <->
   exists version minor,
     In version versions /\ 11 <= minor <= 99 /\
     version = ("v1." ++ Js.string_of_Z minor)%string) /\
  (outcome (getMediaEndpointPrefix homeserverUrl accessToken st) = inr modern_prefix \/
   outcome (getMediaEndpointPrefix homeserverUrl accessToken st) = inr legacy_prefix).
Proof.
  intros Hu Hf Hok Hj Hv.
  assert (Hout : outcome (getMediaEndpointPrefix homeserverUrl accessToken st)
                 = inr (if existsb (Regex.full_match v1_11_pattern) versions
                        then modern_prefix else legacy_prefix)).
  { rewrite getMediaEndpointPrefix_run, probe_versions_run. cbv zeta.
    rewrite Hu. cbv beta match.
    match goal with
    | |- context [fetch ?a ?b] =>
        replace (fetch a b) with (FetchResolved r) by (symmetry; exact Hf)
    end.
    cbv beta match. rewrite Hok, Hj. cbn [JsValue.member]. rewrite Hv.
    cbn [JsValue.or_empty_array JsValue.truthy JsValue.some].
    rewrite array_some_strings. destruct (existsb _ versions); reflexivity. }
  rewrite Hout. split.
  - destruct (existsb (Regex.full_match v1_11_pattern) versions) eqn:He.
    + split; [|reflexivity]. intros _.
      apply existsb_exists in He as (version & Hin & Hm).
      apply v1_11_pattern_accepts in Hm as (minor & Hminor & ->). eauto.
    + split; [discriminate|]. intros (version & minor & Hin & Hminor & ->).
      assert (existsb (Regex.full_match v1_11_pattern) versions = true); [|congruence].
      apply existsb_exists. eexists. split; [exact Hin|].
      apply v1_11_pattern_accepts. eauto.
  - destruct (existsb _ versions); auto.
Qed.

(** The loop stops at a request whose error it does not retry. *)
Lemma retry_loop_stops agent url accessToken maxRetries p k o e remaining :
  forall i last st,
    In (EvRequest p k o)
       (events (retry_loop agent url accessToken maxRetries remaining i last st)) ->
    match pool_request p k o with
    | RequestRejected rejected => inl rejected
    | RequestResolved response => read_response response
    end = inl e ->
    Js.includes "Not a valid MXC URI" (message e) = true ->
    outcome (retry_loop agent url accessToken maxRetries remaining i last st) = inl e /\
    exists pre,
      events (retry_loop agent url accessToken maxRetries remaining i last st)
        = pre ++ [EvRequest p k o; EvLog Warn "Attempt failed:"].
Proof.
  induction remaining as [|remaining IH]; intros i last st Hin Herr Hinc; [contradiction|].
  rewrite retry_loop_step in Hin |- *.
  assert (Hhere : In (EvRequest p k o) (request_events agent url accessToken i) ->
                  p = agent /\ k = i /\ o = request_options url accessToken /\
                  attempt_result agent url accessToken i = inl e).
  { intros H. apply In_request_events in H as (-> & -> & ->).
    repeat split. exact Herr. }
  assert (Hend : request_events agent url accessToken i
                 = (retry_events i ++ [EvLog Debug "Attempt"])
                     ++ [EvRequest agent i (request_options url accessToken)]).
  { unfold request_events. rewrite <- app_assoc. reflexivity. }
  destruct (attempt_result agent url accessToken i) as [e'|res] eqn:Hres.
  2:{ cbn [events] in Hin. apply in_app_or in Hin as [Hin|[Hin|[]]]; [|discriminate].
      destruct (Hhere Hin) as (_ & _ & _ & Hbad). discriminate. }
  destruct (Js.includes "Not a valid MXC URI" (message e')) eqn:Hinc'.
  { cbn [events outcome] in *. apply in_app_or in Hin as [Hin|[Hin|[]]]; [|discriminate].
    destruct (Hhere Hin) as (-> & -> & -> & Heq). injection Heq as ->.
    split; [reflexivity|]. exists (retry_events i ++ [EvLog Debug "Attempt"]).
    rewrite Hend, <- !app_assoc. reflexivity. }
  destruct (last_attempt i maxRetries).
  { cbn [events] in Hin. apply in_app_or in Hin as [Hin|[Hin|[]]]; [|discriminate].
    destruct (Hhere Hin) as (_ & _ & _ & Heq). injection Heq as ->. congruence. }
  cbn [events outcome] in *.
  apply in_app_or in Hin as [Hin|[Hin|Hin]]; [|discriminate|].
  { destruct (Hhere Hin) as (_ & _ & _ & Heq). injection Heq as ->. congruence. }
  destruct (IH _ _ _ Hin Herr Hinc) as (Ho & pre & Hev).
  split; [exact Ho|].
  exists (request_events agent url accessToken i ++ EvLog Warn "Attempt failed:" :: pre).
  rewrite Hev, <- app_assoc. reflexivity.
Qed.

(** X21.  An attempt whose error message contains "Not a valid MXC URI" -
    be it a transport error or an HTTP error whose body carries the words -
    ends the call at once: the call throws that error as it is, not wrapped,
    and its request is the last one the call makes, whatever [maxRetries]
    allows. *)
Theorem download_stops_on_identifier_error mxcUrl homeserverUrl accessToken allowRemote
    timeoutMs maxRetries st p k o e :
  let r := downloadContent_v2 mxcUrl homeserverUrl accessToken allowRemote timeoutMs
             maxRetries st in
  In (EvRequest p k o) (events r) ->
  match pool_request p k o with
  | RequestRejected rejected => inl rejected
  | RequestResolved response => read_response response
  end = inl e ->
  Js.includes "Not a valid MXC URI" (message e) = true ->
  outcome r = inl e /\
  exists pre, events r = pre ++ [EvRequest p k o; EvLog Warn "Attempt failed:"].
Proof.
  intros r Hin Herr Hinc. subst r.
  rewrite downloadContent_v2_run in Hin |- *. cbv zeta in Hin |- *.
  destruct (getMediaEndpointPrefix_total homeserverUrl accessToken st)
    as (prefix & evs & Hp & _ & _ & Hpr & _).
  destruct (getSharedAgent_quiet homeserverUrl st) as [_ Har].
  assert (Hnone : forall tr, requests tr = [] -> ~ In (EvRequest p k o) tr).
  { intros tr Htr H. apply In_request_requests in H. rewrite Htr in H. exact H. }
  rewrite Hp in Hin |- *. cbn [outcome events] in Hin |- *.
  destruct (parseMXCUrl mxcUrl) as [err|c].
  { cbn in Hin. destruct Hin as [H|[H|[]]]; discriminate. }
  destruct (URL_new _ _) as [url|].
  2:{ cbn [events] in Hin. destruct Hin as [H|H]; [discriminate|].
      exfalso. exact (Hnone _ Hpr H). }
  destruct (outcome (getSharedAgent homeserverUrl st)) as [err|agent].
  { cbn [events] in Hin. destruct Hin as [H|H]; [discriminate|].
    apply in_app_or in H as [H|H]; exfalso; [exact (Hnone _ Hpr H)|exact (Hnone _ Har H)]. }
  cbn [events outcome] in Hin |- *. destruct Hin as [H|H]; [discriminate|].
  apply in_app_or in H as [H|H]; [exfalso; exact (Hnone _ Hpr H)|].
  apply in_app_or in H as [H|H]; [exfalso; exact (Hnone _ Har H)|].
  destruct (retry_loop_stops _ _ _ _ _ _ _ _ _ _ _ _ H Herr Hinc) as (Ho & pre & Hev).
  split; [exact Ho|].
  exists (EvLog Debug "Starting download" :: evs
            ++ events (getSharedAgent homeserverUrl st) ++ pre).
  rewrite Hev. cbn [app]. rewrite <- !app_assoc. reflexivity.
Qed.

End ProbeFacts.

Lemma resolver_accepts_minor_11_to_99_witness :
  (outcome (getMediaEndpointPrefix (platform := Scenario.serves_png)
              Scenario.homeserver Scenario.token initial_state) = inr modern_prefix <->
   exists version minor,
     In version ["v1.1"%string; "v1.11"%string] /\ 11 <= minor <= 99 /\
     version = ("v1." ++ Js.string_of_Z minor)%string) /\
  (outcome (getMediaEndpointPrefix (platform := Scenario.serves_png)
              Scenario.homeserver Scenario.token initial_state) = inr modern_prefix \/
   outcome (getMediaEndpointPrefix (platform := Scenario.serves_png)
              Scenario.homeserver Scenario.token initial_state) = inr legacy_prefix).
Proof.
  apply (resolver_accepts_minor_11_to_99 (platform := Scenario.serves_png)
           Scenario.homeserver Scenario.token initial_state
           (mkURL Scenario.homeserver "/_matrix/client/versions" "")
           (mkFetchResponse 200
              (JsonResolved
                 (JObject [("versions", JArray (map JString ["v1.1"; "v1.11"]%string))])))
           [("versions", JArray (map JString ["v1.1"; "v1.11"]%string))]
           ["v1.1"; "v1.11"]%string); reflexivity.
Defined.

Lemma download_stops_on_identifier_error_witness :
  let r := downloadContent_v2 (platform := Scenario.rejects_identifier)
             Scenario.media Scenario.homeserver Scenario.token true 30000 3
             initial_state in
  outcome r = inl (mkError "HTTP 400: Not a valid MXC URI") /\
  exists pre,
    events r = pre ++ [EvRequest (mkPool 0 Scenario.homeserver pool_settings) 0
                         (request_options
                            (mkURL Scenario.homeserver
                               "/_matrix/media/v3/download/example.org/abc123" "")
                            Scenario.token);
                       EvLog Warn "Attempt failed:"].
Proof.
  apply (download_stops_on_identifier_error (platform := Scenario.rejects_identifier)
           Scenario.media Scenario.homeserver Scenario.token true 30000 3 initial_state
           (mkPool 0 Scenario.homeserver pool_settings) 0
           (request_options
              (mkURL Scenario.homeserver "/_matrix/media/v3/download/example.org/abc123" "")
              Scenario.token)
           (mkError "HTTP 400: Not a valid MXC URI")).
  - vm_compute. repeat (first [left; reflexivity | right]).
  - reflexivity.
  - reflexivity.
Defined.

(** ** summarizeMatrixRawEvent *)

Section SummaryFacts.

Import Summary.

Lemma summary_media_of (event : list (string * Json)) (includeMedia : bool)
    (client : option (string -> Error + string)) (s : MatrixMessageSummary) :
  summarizeMatrixRawEvent event includeMedia client = inr s ->
  exists content,
    JsValue.assoc "content" event = Some content /\
    media_of includeMedia client content = inr (media s).
Proof.
  unfold summarizeMatrixRawEvent. intros H.
  destruct (JsValue.assoc "content" event) as [content|]; [|discriminate].
  exists content. split; [reflexivity|].
  destruct (relation (JsValue.member "m.relates_to" content)) as [e|[rt ev]].
  - destruct content; discriminate.
  - destruct (media_of includeMedia client content) as [e|md].
    + destruct content; discriminate.
    + destruct content; try discriminate;
        injection H; intros; subst; reflexivity.
Qed.

(** The function on a content that is not [null]. *)
Lemma summarize_content (event : list (string * Json)) (includeMedia : bool)
    (client : option (string -> Error + string)) (content : Json) :
  JsValue.assoc "content" event = Some content ->
  content <> JNull ->
  summarizeMatrixRawEvent event includeMedia client =
  match relation (JsValue.member "m.relates_to" content) with
  | inl e => inl e
  | inr (relType, eventId) =>
      match media_of includeMedia client content with
      | inl e => inl e
      | inr media =>
          inr (mkSummary (JsValue.assoc "event_id" event)
                 (JsValue.assoc "sender" event)
                 (JsValue.member "body" content)
                 (JsValue.member "msgtype" content)
                 (JsValue.assoc "origin_server_ts" event)
                 media
                 (if truthy relType || truthy eventId
                  then Some (mkRelatesTo relType eventId) else None))
      end
  end.
Proof.
  intros Hc Hnull. unfold summarizeMatrixRawEvent. rewrite Hc.
  destruct content; try reflexivity. congruence.
Qed.

(** The relation throws on a truthy value that is neither an object nor
    an array, and on nothing else. *)
Lemma relation_throws (relates : option Json) :
  (exists e, relation relates = inl e) <->
  exists r,
    relates = Some r /\
    JsValue.truthy r = true /\
    (forall members, r <> JObject members) /\ (forall items, r <> JArray items).
Proof.
  split.
  - intros (e & H). destruct relates as [r|]; [|discriminate]. exists r.
    split; [reflexivity|]. unfold relation in H.
    destruct (JsValue.truthy r) eqn:Ht; [|discriminate].
    split; [reflexivity|].
    split; intros x ->; cbn in H.
    + destruct (JsValue.assoc "rel_type" x); [discriminate|].
      destruct (JsValue.assoc "m.in_reply_to" x); discriminate.
    + discriminate.
  - intros (r & -> & Ht & Hobj & Harr). unfold relation. rewrite Ht.
    destruct r; cbn; try (eexists; reflexivity).
    + exfalso. exact (Harr _ eq_refl).
    + exfalso. exact (Hobj _ eq_refl).
Qed.

Lemma media_of_throws (includeMedia : bool) (client : option (string -> Error + string))
    (content : Json) (e : Error) :
  media_of includeMedia client content = inl e <->
  includeMedia = true /\
  exists mxcToHttp u,
    client = Some mxcToHttp /\ media_url content = Some u /\ u <> ""%string /\
    mxcToHttp u = inl e.
Proof.
  unfold media_of. split.
  - destruct includeMedia; [|discriminate].
    destruct (media_url content) as [u|]; [|discriminate].
    destruct (Js.truthy u) eqn:Hu; [|discriminate]. cbv zeta.
    destruct client as [mxcToHttp|]; [|discriminate].
    destruct (mxcToHttp u) as [e'|url] eqn:Hconv; [|discriminate].
    intros H. injection H as ->. split; [reflexivity|].
    exists mxcToHttp, u. repeat split; auto. intros ->. discriminate.
  - intros (-> & mxcToHttp & u & -> & -> & Hne & Hconv).
    replace (Js.truthy u) with true by (destruct u; [congruence|reflexivity]).
    cbv zeta. rewrite Hconv. reflexivity.
Qed.

(** X22.  What makes [summarizeMatrixRawEvent] throw.  It throws exactly
    when the event has no content (or [null]), when the content's
    [m.relates_to] is a truthy value that is not an object, or when media
    is asked for, the content names a non-empty media URI and the client's
    [mxcToHttp] throws on it.  Nothing else in the event does: a [url],
    [file], [info] or [msgtype] of any shape is read without an error. *)
Theorem summary_throws (event : list (string * Json)) (includeMedia : bool)
    (client : option (string -> Error + string)) :
  (exists e, summarizeMatrixRawEvent event includeMedia client = inl e) <->
  JsValue.assoc "content" event = None \/
  JsValue.assoc "content" event = Some JNull \/
  exists content,
    JsValue.assoc "content" event = Some content /\
    ((exists relates,
         JsValue.member "m.relates_to" content = Some relates /\
         JsValue.truthy relates = true /\
         (forall members, relates <> JObject members) /\
         (forall items, relates <> JArray items)) \/
     (includeMedia = true /\
      exists mxcToHttp u e,
        client = Some mxcToHttp /\ media_url content = Some u /\ u <> ""%string /\
        mxcToHttp u = inl e)).
Proof.
  destruct (JsValue.assoc "content" event) as [content|] eqn:Hc.
  2:{ split; [intros _; left; reflexivity|].
      intros _. unfold summarizeMatrixRawEvent. rewrite Hc. eexists; reflexivity. }
  assert (Hnull : content = JNull \/ content <> JNull).
  { destruct content; [left; reflexivity|right; discriminate ..]. }
  destruct Hnull as [->|Hnull].
  { split; [intros _; right; left; reflexivity|].
    intros _. unfold summarizeMatrixRawEvent. rewrite Hc. eexists; reflexivity. }
  rewrite (summarize_content _ _ _ _ Hc Hnull).
  split.
  - intros (e & H). right. right. exists content. split; [reflexivity|].
    destruct (relation (JsValue.member "m.relates_to" content)) as [e'|[rt ev]] eqn:Hrel.
    + left. destruct (proj1 (relation_throws _) (ex_intro _ e' Hrel))
        as (r & Hr & Ht & Hobj & Harr).
      exists r. auto.
    + right. destruct (media_of includeMedia client content) as [e'|md] eqn:Hm;
        [|discriminate].
      apply media_of_throws in Hm. destruct Hm as (Hinc & mxcToHttp & u & H1 & H2 & H3 & H4).
      split; [exact Hinc|]. exists mxcToHttp, u, e'. auto.
  - intros [H|[H|(content' & Hc' & Hcases)]]; [discriminate|congruence|].
    injection Hc' as <-.
    destruct (relation (JsValue.member "m.relates_to" content)) as [e'|[rt ev]] eqn:Hrel;
      [eexists; reflexivity|].
    destruct Hcases as [(r & Hr & Ht & Hobj & Harr)|(Hinc & mxcToHttp & u & e & H)].
    + exfalso.
      destruct (proj2 (relation_throws (JsValue.member "m.relates_to" content)))
        as (e' & He').
      { exists r. split; [exact Hr|]. split; [exact Ht|]. split; assumption. }
      congruence.
    + assert (Hm : media_of includeMedia client content = inl e).
      { apply media_of_throws. split; [exact Hinc|]. exists mxcToHttp, u. exact H. }
      rewrite Hm. eexists; reflexivity.
Qed.

Lemma encrypted_url_file (content : Json) (u : string) :
  encrypted_url content = Some u <->
  exists file,
    JsValue.member "file" content = Some file /\
    JsValue.member "url" file = Some (JString u).
Proof.
  unfold encrypted_url. split.
  - destruct (JsValue.member "file" content) as [file|]; [|discriminate].
    destruct file; try discriminate. cbn [object_field read_optional].
    intros H. eexists. split; [reflexivity|].
    destruct (JsValue.member "url" (JObject members)) as [v|]; [|discriminate].
    destruct v; try discriminate. cbn in H. congruence.
  - intros (file & -> & Hurl). destruct file; try discriminate.
    cbn [object_field read_optional]. rewrite Hurl. reflexivity.
Qed.

(** X23.  The media block of a summary.  A summary carries one exactly
    when media is asked for and the content names a non-empty media URI,
    whatever the message type.  The URI is [content.url] whenever that is a
    string, so an empty [url] hides the URI of an encrypted file and there
    is no block; otherwise it is the [url] of [content.file].  The block is
    flagged encrypted exactly when [content.file] has a non-empty string
    [url], also when the URI in use is [content.url].  The download URL is
    what the client's [mxcToHttp] returns for the URI, and absent without a
    client. *)
Theorem summary_media_invariants (event : list (string * Json)) (includeMedia : bool)
    (client : option (string -> Error + string)) (s : MatrixMessageSummary) :
  summarizeMatrixRawEvent event includeMedia client = inr s ->
  exists content,
    JsValue.assoc "content" event = Some content /\
    (media s <> None <->
       includeMedia = true /\
       exists u, media_url content = Some u /\ u <> ""%string) /\
    (forall u, JsValue.member "url" content = Some (JString u) ->
       media_url content = Some u) /\
    forall m, media s = Some m ->
      media_url content = Some (mxcUrl m) /\
      ((forall u, JsValue.member "url" content <> Some (JString u)) ->
         exists file,
           JsValue.member "file" content = Some file /\
           JsValue.member "url" file = Some (JString (mxcUrl m))) /\
      (encrypted m = true <->
         exists file u,
           JsValue.member "file" content = Some file /\
           JsValue.member "url" file = Some (JString u) /\ u <> ""%string) /\
      match client with
      | Some mxcToHttp =>
          exists url, mxcToHttp (mxcUrl m) = inr url /\ downloadUrl m = Some url
      | None => downloadUrl m = None
      end.
Proof.
  intros Hs.
  destruct (summary_media_of _ _ _ _ Hs) as (content & Hcontent & Hmedia).
  exists content. split; [exact Hcontent|]. clear Hs Hcontent.
  assert (Hplain : forall u, JsValue.member "url" content = Some (JString u) ->
                   media_url content = Some u).
  { intros u Hu. unfold media_url. rewrite Hu. reflexivity. }
  assert (Htruthy : forall u : string, Js.truthy u = true <-> u <> ""%string).
  { intros u. destruct u; cbn; split; congruence. }
  split; [|split; [exact Hplain|]].
  - unfold media_of in Hmedia. split.
    + intros Hsome. destruct includeMedia; [|congruence].
      split; [reflexivity|].
      destruct (media_url content) as [u|]; [|congruence].
      exists u. split; [reflexivity|].
      destruct (Js.truthy u) eqn:Hu; [apply Htruthy; exact Hu|congruence].
    + intros (-> & u & Hu & Hne). rewrite Hu in Hmedia.
      apply Htruthy in Hne. rewrite Hne in Hmedia. cbv zeta in Hmedia.
      destruct client as [mxcToHttp|].
      * destruct (mxcToHttp u); [discriminate|]. injection Hmedia as <-. discriminate.
      * injection Hmedia as <-. discriminate.
  - intros m Hm. rewrite Hm in Hmedia. unfold media_of in Hmedia.
    destruct includeMedia; [|discriminate].
    destruct (media_url content) as [u|] eqn:Hurl; [|discriminate].
    destruct (Js.truthy u) eqn:Hu; [|discriminate]. cbv zeta in Hmedia.
    assert (Hfields : mxcUrl m = u /\
                      encrypted m = match encrypted_url content with
                                    | Some encryptedMxc => Js.truthy encryptedMxc
                                    | None => false
                                    end /\
                      match client with
                      | Some mxcToHttp =>
                          exists url, mxcToHttp u = inr url /\ downloadUrl m = Some url
                      | None => downloadUrl m = None
                      end).
    { destruct client as [mxcToHttp|].
      - destruct (mxcToHttp u) as [e|url] eqn:Hconv; [discriminate|].
        injection Hmedia as <-. cbn. repeat split. exists url. split; reflexivity.
      - injection Hmedia as <-. cbn. repeat split. }
    destruct Hfields as (Hm1 & Hm2 & Hm3). rewrite Hm1.
    split; [reflexivity|]. split; [|split].
    + intros Hno. apply encrypted_url_file. unfold media_url in Hurl.
      destruct (JsValue.member "url" content) as [v|] eqn:Hv; cbn in Hurl;
        [|exact Hurl].
      destruct v; try exact Hurl. exfalso. exact (Hno _ eq_refl).
    + rewrite Hm2. split.
      * destruct (encrypted_url content) as [enc|] eqn:Henc; [|discriminate].
        intros Ht. apply encrypted_url_file in Henc. destruct Henc as (file & Hf & Hfu).
        exists file, enc. split; [exact Hf|]. split; [exact Hfu|].
        apply Htruthy. exact Ht.
      * intros (file & enc & Hf & Hfu & Hne).
        assert (Henc : encrypted_url content = Some enc).
        { apply encrypted_url_file. exists file. split; assumption. }
        rewrite Henc. apply Htruthy. exact Hne.
    + exact Hm3.
Qed.

End SummaryFacts.

(** ** Concrete runs of the properties with a premise inside *)


(** A list with a number, and a string of an em space and a space, among
    two identifiers. *)
Lemma sanitizeUserIdList_sound_witness :
  let alice := (0x20 :: Utf16.of_string "@a:x")%N in
  let input := [Utf16.VString alice; Utf16.VNumber 1; Utf16.VString [0x2003; 0x20]%N;
                Utf16.VString (Utf16.of_string "@b:y")] in
  outcome (sanitizeUserIdList (Some (Utf16.VArray input)) "dm" initial_state)
    = inr [alice; Utf16.of_string "@b:y"] /\
  Utf16.trim alice <> [] /\
  exists entries, Some (Utf16.VArray input) = Some (Utf16.VArray entries) /\
                  In (Utf16.VString alice) entries.
Proof.
  intros alice input.
  destruct (sanitizeUserIdList_sound (Some (Utf16.VArray input)) "dm" initial_state)
    as (ids & Hout & _ & Hin & _).
  assert (Hids : ids = [alice; Utf16.of_string "@b:y"]).
  { vm_compute in Hout. injection Hout; intros; subst; reflexivity. }
  split; [reflexivity |].
  apply Hin. rewrite Hids. left. reflexivity.
Defined.

(** A ten-byte image under a limit of 1000 bytes. *)
Lemma downloadMatrixMedia_within_limit_witness :
  let r := downloadMatrixMedia (platform := Scenario2.big_png)
             (runtime := Scenario2.plain_runtime)
             Scenario2.client "mxc://example.org/abc123" (Some "text/plain") (Some 10)
             1000 None initial_state in
  let saved := EvSave (bytes_of "0123456789") (Some "image/png") "inbound" 1000 in
  In saved (media_events r) /\
  Z.of_nat (List.length (bytes_of "0123456789")) <= 1000 /\
  "inbound"%string = "inbound"%string /\ 1000 = 1000 /\
  exists pre, media_events r = pre ++ [saved] /\
              forall b h d l, ~ In (EvSave b h d l) pre.
Proof.
  intros r saved.
  assert (Hin : In saved (media_events r)).
  { vm_compute. repeat (first [left; reflexivity | right]). }
  split; [exact Hin |].
  exact (proj1 (downloadMatrixMedia_within_limit (platform := Scenario2.big_png)
                  (runtime := Scenario2.plain_runtime)
                  Scenario2.client "mxc://example.org/abc123" (Some "text/plain")
                  (Some 10) 1000 None initial_state)
           (bytes_of "0123456789") (Some "image/png") "inbound"%string 1000 Hin).
Defined.

(** The caller says text/plain, the response says image/png. *)
Lemma downloadMatrixMedia_plain_content_type_witness :
  let saved := EvSave (bytes_of "0123456789") (Some "image/png") "inbound" 1000 in
  In saved
     (media_events
        (downloadMatrixMedia (platform := Scenario2.big_png)
           (runtime := Scenario2.plain_runtime)
           Scenario2.client "mxc://example.org/abc123" (Some "text/plain") None 1000
           None initial_state)) /\
  exists result,
    outcome (downloadContent_v2 (platform := Scenario2.big_png)
               (Some "mxc://example.org/abc123")
               (or_empty (homeserverUrl Scenario2.client))
               (or_empty (accessToken Scenario2.client)) false 30000 3 initial_state)
      = inr result /\
    bytes_of "0123456789" = data result /\
    Some "image/png"%string = Some (contentType result).
Proof.
  intro saved.
  assert (Hin : In saved
                  (media_events
                     (downloadMatrixMedia (platform := Scenario2.big_png)
                        (runtime := Scenario2.plain_runtime)
                        Scenario2.client "mxc://example.org/abc123" (Some "text/plain")
                        None 1000 None initial_state))).
  { vm_compute. repeat (first [left; reflexivity | right]). }
  split; [exact Hin |].
  exact (proj2 (downloadMatrixMedia_plain_content_type (platform := Scenario2.big_png)
                  (runtime := Scenario2.plain_runtime)
                  Scenario2.client "mxc://example.org/abc123" (Some "text/plain") None
                  None 1000 initial_state)
           (bytes_of "0123456789") (Some "image/png") "inbound"%string 1000 Hin).
Defined.

(** An encrypted file and a client without crypto support. *)
Lemma downloadMatrixMedia_encrypted_witness :
  let plain := mkClient (Some Scenario.homeserver) (Some Scenario.token) false in
  media_outcome
    (downloadMatrixMedia (platform := Scenario2.big_png)
       (runtime := Scenario2.plain_runtime)
       plain "mxc://example.org/abc123" (Some "text/plain") (Some 10) 1000
       (Some Scenario2.encrypted_file) initial_state)
    = inl (mkError "Cannot decrypt media: crypto not enabled").
Proof.
  intro plain.
  apply (proj1 (proj2 (proj2 (proj2
           (downloadMatrixMedia_encrypted (platform := Scenario2.big_png)
              (runtime := Scenario2.plain_runtime)
              plain "mxc://example.org/abc123" (Some "text/plain") (Some 10) 1000
              Scenario2.encrypted_file initial_state))))).
  - reflexivity.
  - intros size Hsize. injection Hsize; intros; subst. lia.
Defined.

(** One probe, with the bearer token, for a download of three attempts. *)
Lemma download_probes_once_witness :
  let r := downloadContent_v2 (platform := Scenario.unavailable)
             Scenario.media Scenario.homeserver Scenario.token true 30000 3
             initial_state in
  let url := "https://matrix.example.org/_matrix/client/versions"%string in
  let hs := [("Authorization", "Bearer syt_token"%string)] in
  In (EvFetch url hs) (events r) /\
  (exists u,
      URL_new (Platform := Scenario.unavailable)
        "/_matrix/client/versions" (Some Scenario.homeserver) = Some u /\
      url = URL_toString u) /\
  hs = if Js.truthy Scenario.token
       then [("Authorization", ("Bearer " ++ Scenario.token)%string)] else [].
Proof.
  intros r url hs.
  assert (Hin : In (EvFetch url hs) (events r)).
  { vm_compute. repeat (first [left; reflexivity | right]). }
  split; [exact Hin |].
  exact (proj2 (proj2
           (download_probes_once (platform := Scenario.unavailable)
              Scenario.media Scenario.homeserver Scenario.token true 30000 3
              initial_state)) url hs Hin).
Defined.

(** The encrypted voice message of summary.test.ts, summarised for a
    client. *)
Lemma summary_media_invariants_witness :
  let m := Summary.mkMedia "mxc://example.org/encrypted-audio"
             (Some "https://download/mxc://example.org/encrypted-audio"%string)
             true None None None in
  let s := Summary.mkSummary (Some (JString "$event3"))
             (Some (JString "@alice:example.org")) (Some (JString "secret.ogg"))
             (Some (JString "m.audio")) (Some (JNumber 1700000002000)) (Some m) None in
  Summary.summarizeMatrixRawEvent Scenario2.encrypted_voice_event true
    (Some Scenario2.download_client) = inr s /\
  exists content,
    JsValue.assoc "content" Scenario2.encrypted_voice_event = Some content /\
    Summary.media_url content = Some (Summary.mxcUrl m) /\
    (exists file u,
        JsValue.member "file" content = Some file /\
        JsValue.member "url" file = Some (JString u) /\ u <> ""%string) /\
    exists url,
      Scenario2.download_client (Summary.mxcUrl m) = inr url /\
      Summary.downloadUrl m = Some url.
Proof.
  intros m s. split; [reflexivity|].
  destruct (summary_media_invariants Scenario2.encrypted_voice_event true
              (Some Scenario2.download_client) s eq_refl)
    as (content & Hc & _ & _ & Hm).
  destruct (Hm m eq_refl) as (Hurl & _ & Henc & Hdl).
  exists content. split; [exact Hc|]. split; [exact Hurl|].
  split; [exact (proj1 Henc eq_refl)|exact Hdl].
Defined.

(** A relation that is a string makes the call throw. *)
Lemma summary_throws_witness :
  exists e,
    Summary.summarizeMatrixRawEvent Scenario2.text_relation_event false None = inl e.
Proof.
  apply (proj2 (summary_throws Scenario2.text_relation_event false None)).
  right. right.
  exists (JObject [("msgtype", JString "m.text"); ("body", JString "hello");
                   ("m.relates_to", JString "$event1")]).
  split; [reflexivity|]. left. exists (JString "$event1").
  split; [reflexivity|]. split; [reflexivity|]. split; intros x; discriminate.
Defined.

(** The cases of summary.test.ts: no media block unless it is asked for;
    the block of a voice message, with the type, size and duration of its
    [info]; the block of an encrypted one. *)
Example summary_test_cases :
  (exists s,
      Summary.summarizeMatrixRawEvent Scenario2.voice_event false None = inr s /\
      Summary.media s = None /\
      Summary.summary_body s = Some (JString "voice.ogg") /\
      Summary.msgtype s = Some (JString "m.audio")) /\
  (exists s,
      Summary.summarizeMatrixRawEvent Scenario2.voice_event true
        (Some (fun _ =>
                 inr "https://matrix.example.org/_matrix/media/v3/download/example.org/audio2"%string))
        = inr s /\
      Summary.media s =
        Some (Summary.mkMedia "mxc://example.org/audio2"
                (Some "https://matrix.example.org/_matrix/media/v3/download/example.org/audio2"%string)
                false (Some "audio/ogg"%string) (Some 12345) (Some 6789))) /\
  (exists s m,
      Summary.summarizeMatrixRawEvent Scenario2.encrypted_voice_event true
        (Some Scenario2.download_client) = inr s /\
      Summary.media s = Some m /\
      Summary.mxcUrl m = "mxc://example.org/encrypted-audio"%string /\
      Summary.encrypted m = true /\
      Summary.downloadUrl m
        = Some "https://download/mxc://example.org/encrypted-audio"%string).
Proof.
  split; [|split].
  - eexists. repeat split.
  - eexists. repeat split.
  - do 2 eexists. repeat split.
Qed.

(** A [url] that is present and empty hides the encrypted file: there is
    no media block. *)
Example summary_empty_url :
  exists s,
    Summary.summarizeMatrixRawEvent Scenario2.empty_url_event true
      (Some Scenario2.download_client) = inr s /\
    Summary.media s = None.
Proof. eexists. repeat split. Qed.
